(** * MediaPeek: URL guard, resource prober, bounded stream fetcher,
      archive peek, MediaInfo clean-up, analysis service and request handler

    A shallow embedding of
      - [app/lib/server-utils.ts]          (validateUrl, resolveGoogleDriveUrl,
                                            getEmulationHeaders,
                                            isArchiveExtension),
      - [app/services/media-fetch.server.ts] (fetchMediaChunk),
      - [app/lib/media-utils.ts]           (normalizeMediaInfo,
                                            extractFirstFileFromArchive,
                                            isValidFilename, isAppleTvFilename,
                                            getAccessibilityFeatures,
                                            parseChapters, removeEmptyStrings),
      - [app/services/mediainfo.server.ts] (analyzeMediaBuffer: readChunk, the
                                            selection of formats, the text
                                            view),
      - [app/routes/resource.analyze.ts]   (loader)
    together with the properties the design document states about them, and
    further properties that the code shows.

    Conventions.
      - A JavaScript string is a [string]: the sequence of the bytes of its
        UTF-8 encoding.  Every pattern the code searches for is ASCII, and an
        ASCII byte occurs in well-formed UTF-8 only as the character itself,
        so [startsWith], [includes], [endsWith], [split] and the regular
        expressions agree with their UTF-16 originals.
      - A JavaScript number that the code obtains from [parseInt] or from a
        length is an integer; it is a [Z], and [NaN] is kept apart.  The [Z]
        is the number itself up to [2^53] in magnitude.
      - A [Uint8Array] is a [list byte].
      - [throw new Error(m)] is the left injection of a sum, carrying [m]. *)

From Stdlib Require Import ZArith List Bool Ascii String Lia Permutation.
From Stdlib Require Import Strings.Byte.
From Stdlib Require Import Numbers.DecimalString.
Import ListNotations.

Local Open Scope string_scope.
Local Open Scope Z_scope.

(* ================================================================== *)
(** ** JavaScript string primitives *)
(* ================================================================== *)

Module Js.

(** [s.startsWith(p)] *)
Definition startsWith (s p : string) : bool := String.prefix p s.

(** [s.endsWith(p)] *)
Fixpoint endsWith (s p : string) : bool :=
  if String.eqb s p then true
  else match s with
       | EmptyString => false
       | String _ s' => endsWith s' p
       end.

(** [s.includes(p)]: [p] occurs at some position of [s]. *)
Fixpoint includes (s p : string) : bool :=
  if String.prefix p s then true
  else match s with
       | EmptyString => false
       | String _ s' => includes s' p
       end.

(** [s.slice(n)] for [0 <= n]. *)
Fixpoint drop (n : nat) (s : string) : string :=
  match n, s with
  | O, _ => s
  | S _, EmptyString => EmptyString
  | S n', String _ s' => drop n' s'
  end.

(** The longest prefix of [s] whose characters satisfy [p], and the rest:
    what a greedy character-class repetition consumes. *)
Fixpoint span (p : ascii -> bool) (s : string) : string * string :=
  match s with
  | EmptyString => (EmptyString, EmptyString)
  | String c s' =>
      if p c then let (a, b) := span p s' in (String c a, b)
      else (EmptyString, s)
  end.

(** [s.split(sep)] for a one-character separator: the pieces between the
    separators, so that a string without separator yields one piece. *)
Fixpoint split (sep : ascii) (s : string) : list string :=
  match s with
  | EmptyString => [EmptyString]
  | String c s' =>
      if Ascii.eqb c sep then EmptyString :: split sep s'
      else match split sep s' with
           | [] => [String c EmptyString]
           | p :: ps => String c p :: ps
           end
  end.

(** A number as [parseInt] returns it. *)
Inductive number := NaN | Num (z : Z).

(** [!x] on a number: [NaN] and [0] are falsy. *)
Definition falsy (x : number) : bool :=
  match x with NaN => true | Num z => z =? 0 end.

(** [x >= k], [x <= k]: every comparison with [NaN] is false. *)
Definition geb (x : number) (k : Z) : bool :=
  match x with NaN => false | Num z => k <=? z end.
Definition leb (x : number) (k : Z) : bool :=
  match x with NaN => false | Num z => z <=? k end.
Definition isNaN (x : number) : bool :=
  match x with NaN => true | Num _ => false end.

(** [StrWhiteSpaceChar] (ECMA-262, 7.1.4.1): WhiteSpace and LineTerminator,
    recognised on the UTF-8 bytes.  [skipWhite] is the leading trim that
    [parseInt] performs. *)
Definition whiteSpaceEncodings : list string :=
  let b (l : list Z) :=
    string_of_list_ascii (map (fun z => ascii_of_N (Z.to_N z)) l) in
  [ b [9]; b [10]; b [11]; b [12]; b [13]; b [32];
    b [194; 160];                          (* U+00A0 *)
    b [225; 154; 128];                     (* U+1680 *)
    b [226; 128; 128]; b [226; 128; 129]; b [226; 128; 130];
    b [226; 128; 131]; b [226; 128; 132]; b [226; 128; 133];
    b [226; 128; 134]; b [226; 128; 135]; b [226; 128; 136];
    b [226; 128; 137]; b [226; 128; 138];  (* U+2000 .. U+200A *)
    b [226; 128; 168]; b [226; 128; 169];  (* U+2028, U+2029 *)
    b [226; 128; 175];                     (* U+202F *)
    b [226; 129; 159];                     (* U+205F *)
    b [227; 128; 128];                     (* U+3000 *)
    b [239; 187; 191] ].                   (* U+FEFF *)

Definition whiteLen (s : string) : option nat :=
  match filter (fun w => String.prefix w s) whiteSpaceEncodings with
  | w :: _ => Some (String.length w)
  | [] => None
  end.

Fixpoint skipWhite (fuel : nat) (s : string) : string :=
  match fuel with
  | O => s
  | S fuel' =>
      match whiteLen s with
      | Some n => skipWhite fuel' (drop n s)
      | None => s
      end
  end.

(** The value of a digit character in radix [r <= 10]. *)
Definition digitValue (r : Z) (c : ascii) : option Z :=
  let n := Z.of_N (N_of_ascii c) in
  if (48 <=? n) && (n <? 48 + r) then Some (n - 48) else None.

(** The digits [parseInt] consumes: the longest prefix of radix-[r]
    digits, accumulated from the left; [None] when there is none. *)
Fixpoint digits (r : Z) (acc : option Z) (s : string) : option Z :=
  match s with
  | EmptyString => acc
  | String c s' =>
      match digitValue r c with
      | Some d =>
          digits r (Some (r * match acc with Some a => a | None => 0 end + d)) s'
      | None => acc
      end
  end.

(** [parseInt(s, r)] for a radix [r] in 2..10 (the code uses 8 and 10, for
    which no [0x] prefix is recognised): trim, sign, digits.  The result is
    the whole number that the digits denote; it is the Number that
    [parseInt] returns as long as it lies within [-2^53 .. 2^53], where every
    whole number is a double.  Beyond that [parseInt] rounds to the nearest
    double, so a statement about the value of a larger number is made under
    that bound; the test on an octet of a host ([16 <= n <= 31]) and the
    size field of a TAR header, of twelve bytes, are not affected. *)
Definition parseInt (s : string) (r : Z) : number :=
  let t := skipWhite (String.length s) s in
  let (sign, u) :=
    match t with
    | String "-"%char u => (-1, u)
    | String "+"%char u => (1, u)
    | _ => (1, t)
    end in
  match digits r None u with
  | Some v => Num (sign * v)
  | None => NaN
  end.

(** [parseInt(x, r)] where [x] may be [undefined]: [ToString(undefined)]
    is ["undefined"], which has no digit. *)
Definition parseIntOpt (x : option string) (r : Z) : number :=
  match x with
  | Some s => parseInt s r
  | None => parseInt "undefined" r
  end.

(** Template-literal rendering of a number. *)
Definition numberToString (x : number) : string :=
  match x with
  | NaN => "NaN"
  | Num z => NilZero.string_of_int (Z.to_int z)
  end.

(** [x - 1] and [Math.min(x, y)]; [NaN] is absorbing. *)
Definition pred (x : number) : number :=
  match x with NaN => NaN | Num z => Num (z - 1) end.
Definition min (x y : number) : number :=
  match x, y with
  | Num a, Num b => Num (Z.min a b)
  | _, _ => NaN
  end.

(** ASCII lower-casing, for the [i] flag of a regular expression whose
    pattern is ASCII: a character outside ASCII never folds into ASCII. *)
Definition lowerChar (c : ascii) : ascii :=
  let n := N_of_ascii c in
  if ((65 <=? n) && (n <=? 90))%N then ascii_of_N (n + 32) else c.

Fixpoint lower (s : string) : string :=
  match s with
  | EmptyString => EmptyString
  | String c s' => String (lowerChar c) (lower s')
  end.

(** A literal [pat] (given in lower case) matched case-insensitively at the
    start of [s]; the rest of [s] after it. *)
Fixpoint stripPrefixCI (pat s : string) : option string :=
  match pat, s with
  | EmptyString, _ => Some s
  | String p pat', String c s' =>
      if Ascii.eqb p (lowerChar c) then stripPrefixCI pat' s' else None
  | String _ _, EmptyString => None
  end.

(** The leftmost position of [s] at which [attempt] succeeds: how an
    unanchored regular expression is tried. *)
Fixpoint leftmost {A} (attempt : string -> option A) (s : string) : option A :=
  match attempt s with
  | Some r => Some r
  | None =>
      match s with
      | EmptyString => None
      | String _ s' => leftmost attempt s'
      end
  end.

Definition isDigit (c : ascii) : bool :=
  let n := N_of_ascii c in ((48 <=? n) && (n <=? 57))%N.

(** A string used as a condition: the empty string is falsy. *)
Definition truthy (s : string) : bool :=
  match s with EmptyString => false | _ => true end.

End Js.

(* ================================================================== *)
(** ** URL guard: [app/lib/server-utils.ts] *)
(* ================================================================== *)

(** What a call either returns or throws. *)
Inductive Thrown :=
| Error (message : string)         (* [throw new Error(message)] *)
| TypeError (message : string).    (* raised by the platform, e.g. [new URL] *)

Definition message (e : Thrown) : string :=
  match e with Error m => m | TypeError m => m end.

Definition Result (A : Type) : Type := (Thrown + A)%type.

(** The policy violation of the design document: an [Error] whose message
    starts with ["Invalid URL"] (the request handler tests that prefix). *)
Definition isInvalidURL {A} (r : Result A) : bool :=
  match r with
  | inl (Error m) => Js.startsWith m "Invalid URL"
  | _ => false
  end.

(** [new URL(u).hostname]: the WHATWG URL parser belongs to the platform.
    [None] stands for the [TypeError] the constructor throws on a string
    that is not an absolute URL. *)
Class UrlParser := { URL_hostname : string -> option string }.

Module ServerUtils.

Definition LOCALHOST_IPS : list string := ["::1"; "127.0.0.1"].
Definition META_DATA_HOSTS : list string :=
  ["metadata.google.internal"; "169.254.169.254"].

(** [Set.prototype.has] *)
Definition has (set : list string) (x : string) : bool :=
  existsb (String.eqb x) set.

(** The body of [validateUrl] once [new URL(url).hostname] is known. *)
Definition validateHost (host : string) : Result unit :=
  if (host =? "localhost")%string
     || Js.startsWith host "127."
     || has LOCALHOST_IPS host
  then inl (Error "Invalid URL: Access to local resources is denied.")
  else if has META_DATA_HOSTS host
  then inl (Error "Invalid URL: Access to metadata services is denied.")
  else if Js.startsWith host "10." || Js.startsWith host "192.168."
  then inl (Error "Invalid URL: Access to private resources is denied.")
  else if Js.startsWith host "172."
  then
    let secondOctet := Js.parseIntOpt (nth_error (Js.split "." host) 1) 10 in
    if negb (Js.isNaN secondOctet)
       && Js.geb secondOctet 16 && Js.leb secondOctet 31
    then inl (Error "Invalid URL: Access to private resources is denied.")
    else inr tt
  else inr tt.

Definition GOOGLE_DRIVE_PREFIX : string := "https://drive.google.com/file/d/".

(** The character class [[-a-zA-Z0-9_]]. *)
Definition isIdChar (c : ascii) : bool :=
  let n := N_of_ascii c in
  ((n =? 45) || (n =? 95)
   || ((48 <=? n) && (n <=? 57))
   || ((65 <=? n) && (n <=? 90))
   || ((97 <=? n) && (n <=? 122)))%N.

(** An attempt of [GOOGLE_DRIVE_REGEX] at the start of [s]: the literal
    prefix, the greedy class repetition, the literal ["/view"].  The
    repetition never has to give characters back: what would follow a
    shorter repetition is a class character, not ["/"]. *)
Definition matchHere (s : string) : option string :=
  if String.prefix GOOGLE_DRIVE_PREFIX s then
    let (id, rest) :=
      Js.span isIdChar (Js.drop (String.length GOOGLE_DRIVE_PREFIX) s) in
    match id with
    | EmptyString => None
    | _ => if String.prefix "/view" rest then Some id else None
    end
  else None.

(** [GOOGLE_DRIVE_REGEX.exec(url)], reduced to its capture group 1: the
    leftmost position at which the pattern matches. *)
Definition GOOGLE_DRIVE_REGEX_exec (url : string) : option string :=
  Js.leftmost matchHere url.

Record Resolved := { url : string; isGoogleDrive : bool }.

Definition resolveGoogleDriveUrl (u : string) : Resolved :=
  match GOOGLE_DRIVE_REGEX_exec u with
  | Some fileId =>
      {| url := "https://drive.usercontent.google.com/download?id="
                ++ fileId ++ "&export=download&confirm=t";
         isGoogleDrive := true |}
  | None =>
      if Js.includes u "drive.usercontent.google.com"
      then {| url := u; isGoogleDrive := true |}
      else {| url := u; isGoogleDrive := false |}
  end.

Definition dq : string := String (ascii_of_nat 34) EmptyString.

Definition EMULATION_HEADERS_INIT : list (string * string) :=
  [ ("accept", "text/html,application/xhtml+xml,application/xml;q=0.9,image/avif,image/webp,image/apng,*/*;q=0.8,application/signed-exchange;v=b3;q=0.7");
    ("accept-language", "en-US,en;q=0.9");
    ("priority", "u=0, i");
    ("sec-ch-ua",
     dq ++ "Google Chrome" ++ dq ++ ";v=" ++ dq ++ "143" ++ dq ++ ", "
     ++ dq ++ "Chromium" ++ dq ++ ";v=" ++ dq ++ "143" ++ dq ++ ", "
     ++ dq ++ "Not A(Brand" ++ dq ++ ";v=" ++ dq ++ "24" ++ dq);
    ("sec-ch-ua-mobile", "?0");
    ("sec-ch-ua-platform", dq ++ "macOS" ++ dq);
    ("sec-fetch-dest", "document");
    ("sec-fetch-mode", "navigate");
    ("sec-fetch-site", "none");
    ("sec-fetch-user", "?1");
    ("upgrade-insecure-requests", "1");
    ("user-agent", "Mozilla/5.0 (Macintosh; Intel Mac OS X 10_15_7) AppleWebKit/537.36 (KHTML, like Gecko) Chrome/143.0.0.0 Safari/537.36") ].

(** [getEmulationHeaders(range)]: the static browser header set, with a
    [Range] entry when [range] is given and not empty. *)
Definition getEmulationHeaders (range : option string) : list (string * string) :=
  match range with
  | Some r => if Js.truthy r then EMULATION_HEADERS_INIT ++ [("Range", r)]
              else EMULATION_HEADERS_INIT
  | None => EMULATION_HEADERS_INIT
  end.

(** [validateUrl(url)] *)
Definition validateUrl `{UrlParser} (u : string) : Result unit :=
  match URL_hostname u with
  | None => inl (TypeError "Invalid URL")
  | Some host => validateHost host
  end.

End ServerUtils.

(** The second listing of [server-utils.ts] kept in the repository (the
    functions as they were when first moved out of the request handler).  Its
    [resolveGoogleDriveUrl] is the one above with the pattern written
    inline; its [validateUrl] orders and words the tests differently. *)
Module ServerUtilsListing2.

Definition validateHost (host : string) : Result unit :=
  if (host =? "localhost")%string
     || Js.startsWith host "127."
     || (host =? "[::1]")%string
     || (host =? "::1")%string
  then inl (Error "Invalid URL: Access to local resources is denied.")
  else if Js.startsWith host "10."
          || Js.startsWith host "192.168."
          || Js.startsWith host "169.254."
          || (Js.startsWith host "172."
              && Js.geb (Js.parseIntOpt (nth_error (Js.split "." host) 1) 10) 16
              && Js.leb (Js.parseIntOpt (nth_error (Js.split "." host) 1) 10) 31)
  then inl (Error "Invalid URL: Access to private resources is denied.")
  else if (host =? "metadata.google.internal")%string
          || (host =? "169.254.169.254")%string
  then inl (Error "Invalid URL: Access to metadata services is denied.")
  else inr tt.

Definition validateUrl `{UrlParser} (u : string) : Result unit :=
  match URL_hostname u with
  | None => inl (TypeError "Invalid URL")
  | Some host => validateHost host
  end.

End ServerUtilsListing2.

(* ================================================================== *)
(** ** Byte buffers and streams *)
(* ================================================================== *)

(** [Uint8Array] contents.  [u8 c i] is [c[i]] as the bitwise operators see
    it: an index out of range reads [undefined], which [|] and [<<] take
    for [0]. *)
Definition u8 (c : list byte) (i : nat) : Z :=
  match nth_error c i with
  | Some b => Z.of_N (Byte.to_N b)
  | None => 0
  end.

(** [c[i] === k] *)
Definition u8_is (c : list byte) (i : nat) (k : Z) : bool :=
  match nth_error c i with
  | Some b => Z.of_N (Byte.to_N b) =? k
  | None => false
  end.

Definition byteLength (c : list byte) : Z := Z.of_nat (List.length c).

(** The first [n] elements of a list, and the list without them, for a
    count [n] that is a number: nothing is taken, nothing dropped, when
    [n <= 0]. *)
Fixpoint takeZ {A} (n : Z) (l : list A) : list A :=
  match l with
  | [] => []
  | x :: l' => if 0 <? n then x :: takeZ (n - 1) l' else []
  end.

Fixpoint dropZ {A} (n : Z) (l : list A) : list A :=
  match l with
  | [] => []
  | x :: l' => if 0 <? n then dropZ (n - 1) l' else l
  end.

(** [c.subarray(0, n)] and [c.subarray(n)] for [0 <= n]. *)
Definition subarrayTo (c : list byte) (n : Z) : list byte := takeZ n c.
Definition subarrayFrom (c : list byte) (n : Z) : list byte := dropZ n c.

(** How a byte stream ends once its chunks are read: it closes ([read]
    resolves with [done]), or it fails ([read] rejects); [Errored m] carries
    the text the handler derives from the rejection,
    [err instanceof Error ? err.message : String(err)]. *)
Inductive Ending := Closed | Errored (errorMessage : string).

(** A [ReadableStream] of byte chunks as one reader sees it: the values its
    successive [read()] calls resolve with, then its ending. *)
Record Stream := { chunks : list (list byte); ending : Ending }.

(** [new DecompressionStream('deflate-raw')] piped after a source: the
    decoder is the platform's, a transformer of streams. *)
Class Inflater := { inflateRaw : Stream -> Stream }.

(** [decodeURIComponent]; [None] when it throws [URIError]. *)
Class UriDecoder := { decodeURIComponent : string -> option string }.

(* ================================================================== *)
(** ** Resource prober and bounded stream fetcher:
       [app/services/media-fetch.server.ts] *)
(* ================================================================== *)

Module MediaFetch.

Inductive Method := HEAD | GET.

(** The argument of a [fetch] call; every call of the file passes
    [redirect: 'follow'], and a call without [method] is a [GET]. *)
Record Request := {
  reqUrl : string;
  reqMethod : Method;
  reqHeaders : list (string * string)
}.

Record Response := {
  status : Z;
  headers : string -> option string;   (* [headers.get(name)] *)
  body : option Stream                 (* [None]: [response.body] is null *)
}.

(** [response.ok] *)
Definition ok (r : Response) : bool := (200 <=? status r) && (status r <=? 299).

(** The remote side: what the [k]-th [fetch] of a run answers to the request
    it receives, a rejection or a response. *)
Definition Network : Type := nat -> Request -> Result Response.

(** [FetchDiagnostics], filled field by field ([Partial<FetchDiagnostics>]).
    The three duration fields are wall-clock readings and are left out. *)
Record FetchDiagnostics := {
  isGoogleDrive : option bool;
  probeMethod : option string;
  resolvedFilename : option string;
  responseStatus : option Z
}.

Definition noDiagnostics : FetchDiagnostics :=
  {| isGoogleDrive := None; probeMethod := None;
     resolvedFilename := None; responseStatus := None |}.

(** What one run has done so far: the requests issued, in order, the
    diagnostics object, and whether the body reader the copy loop reads from
    has been cancelled. *)
Record World := {
  requests : list Request;
  diagnostics : FetchDiagnostics;
  cancelled : bool
}.

Definition initialWorld : World :=
  {| requests := []; diagnostics := noDiagnostics; cancelled := false |}.

(** Computations of the run: state passing with exceptions. *)
Definition M (A : Type) : Type := World -> World * Result A.

Definition ret {A} (a : A) : M A := fun w => (w, inr a).
Definition throw {A} (e : Thrown) : M A := fun w => (w, inl e).
Definition bind {A B} (m : M A) (k : A -> M B) : M B :=
  fun w => match m w with
           | (w', inr a) => k a w'
           | (w', inl e) => (w', inl e)
           end.

Notation "x <- m ;; k" := (bind m (fun x => k))
  (at level 61, m at next level, right associativity).
Notation "m ;;; k" := (bind m (fun _ => k))
  (at level 61, right associativity).

(** [await fetch(url, init)] *)
Definition fetch (net : Network) (rq : Request) : M Response :=
  fun w =>
    ({| requests := requests w ++ [rq];
        diagnostics := diagnostics w;
        cancelled := cancelled w |},
     net (List.length (requests w)) rq).

Definition updDiagnostics (f : FetchDiagnostics -> FetchDiagnostics) : M unit :=
  fun w =>
    ({| requests := requests w;
        diagnostics := f (diagnostics w);
        cancelled := cancelled w |}, inr tt).

(** [await reader.cancel()] *)
Definition cancelReader : M unit :=
  fun w =>
    ({| requests := requests w;
        diagnostics := diagnostics w;
        cancelled := true |}, inr tt).

Definition set_isGoogleDrive (b : bool) (d : FetchDiagnostics) :=
  {| isGoogleDrive := Some b; probeMethod := probeMethod d;
     resolvedFilename := resolvedFilename d; responseStatus := responseStatus d |}.
Definition set_probeMethod (m : string) (d : FetchDiagnostics) :=
  {| isGoogleDrive := isGoogleDrive d; probeMethod := Some m;
     resolvedFilename := resolvedFilename d; responseStatus := responseStatus d |}.
Definition set_resolvedFilename (f : string) (d : FetchDiagnostics) :=
  {| isGoogleDrive := isGoogleDrive d; probeMethod := probeMethod d;
     resolvedFilename := Some f; responseStatus := responseStatus d |}.
Definition set_responseStatus (s : Z) (d : FetchDiagnostics) :=
  {| isGoogleDrive := isGoogleDrive d; probeMethod := probeMethod d;
     resolvedFilename := resolvedFilename d; responseStatus := Some s |}.

Definition getDiagnostics : M FetchDiagnostics :=
  fun w => (w, inr (diagnostics w)).

(** A call that returns or throws, run inside [M]. *)
Definition lift {A} (r : Result A) : M A := fun w => (w, r).

(** *** The probe: lines 36-56 *)

(** The [HEAD] request of lines 39-43 and the [GET] of lines 48-52. *)
Definition headRequest (targetUrl : string) : Request :=
  {| reqUrl := targetUrl; reqMethod := HEAD;
     reqHeaders := ServerUtils.getEmulationHeaders None |}.

Definition fallbackRequest (targetUrl : string) : Request :=
  {| reqUrl := targetUrl; reqMethod := GET;
     reqHeaders := ServerUtils.getEmulationHeaders (Some "bytes=0-0") |}.

Definition probe (net : Network) (targetUrl : string)
  : M (string * Response) :=
  headRes <- fetch net (headRequest targetUrl) ;;
  pr <- (if status headRes =? 405
         then
           r <- fetch net (fallbackRequest targetUrl) ;;
           ret ("GET", r)
         else ret ("HEAD", headRes)) ;;
  updDiagnostics (set_probeMethod (fst pr)) ;;;
  ret pr.

(** *** Header inspection: lines 58-125 *)

(** Lines 58-85: an HTML answer or a status outside 2xx ends the run. *)
Definition checkProbe (isGoogleDrive : bool) (headRes : Response) : M unit :=
  let contentType := headers headRes "content-type" in
  if match contentType with
     | Some ct => Js.includes ct "text/html"
     | None => false
     end
  then
    if isGoogleDrive
    then throw (Error "Google Drive file is rate-limited. Try again in 24 hours.")
    else throw (Error "URL links to a webpage, not a media file. Provide a direct link.")
  else if negb (ok headRes)
  then
    if status headRes =? 404
    then throw (Error "Media file not found. Check the URL.")
    else if status headRes =? 403
    then throw (Error "Access denied. The link may have expired or requires authentication.")
    else throw (Error ("Unable to access file (HTTP "
                       ++ Js.numberToString (Js.Num (status headRes)) ++ ")."))
  else ret tt.

(** [contentRange.match(/\/(\d+)$/)], capture group 1: the leftmost ["/"]
    after which only digits, and at least one, run to the end. *)
Definition allDigits (s : string) : bool :=
  match Js.span Js.isDigit s with
  | (String _ _, EmptyString) => true
  | _ => false
  end.

Definition contentRangeTotal (contentRange : string) : option string :=
  Js.leftmost
    (fun t => match t with
              | String "/"%char r => if allDigits r then Some r else None
              | _ => None
              end)
    contentRange.

(** Lines 87-103: the total size, from [Content-Range], else from
    [Content-Length]; [None] is [undefined]. *)
Definition determineFileSize (headRes : Response) : option Js.number :=
  let fileSize :=
    match headers headRes "content-range" with
    | Some contentRange =>
        if Js.truthy contentRange then
          match contentRangeTotal contentRange with
          | Some digits => Some (Js.parseInt digits 10)
          | None => None
          end
        else None
    | None => None
    end in
  if match fileSize with Some n => Js.falsy n | None => true end
  then
    match headers headRes "content-length" with
    | Some cl => if Js.truthy cl then Some (Js.parseInt cl 10) else fileSize
    | None => fileSize
    end
  else fileSize.

Definition notSemicolon (c : ascii) : bool := negb (Ascii.eqb c ";").
Definition notQuoteNorSemicolon (c : ascii) : bool :=
  negb (Ascii.eqb c (ascii_of_nat 34)) && negb (Ascii.eqb c ";").

(** The capture of a final greedy [(class+)]: the longest run, not empty. *)
Definition capture (class : ascii -> bool) (s : string) : option string :=
  match fst (Js.span class s) with
  | EmptyString => None
  | cap => Some cap
  end.

(** [contentDisposition.match(/filename\*=UTF-8''([^;]+)/i)], group 1. *)
Definition starMatch (contentDisposition : string) : option string :=
  Js.leftmost
    (fun t => match Js.stripPrefixCI "filename*=utf-8''" t with
              | Some r => capture notSemicolon r
              | None => None
              end)
    contentDisposition.

(** The second [contentDisposition.match], with the pattern of line 119
    ([filename=], an optional double quote, a captured run of characters
    other than double quote and semicolon, an optional double quote; flag
    [i]), group 1.  When a quote follows the [=], the optional quote takes it;
    giving it back would leave the class facing that quote. *)
Definition normalMatch (contentDisposition : string) : option string :=
  Js.leftmost
    (fun t => match Js.stripPrefixCI "filename=" t with
              | Some r =>
                  match r with
                  | String c r' =>
                      if Ascii.eqb c (ascii_of_nat 34)
                      then capture notQuoteNorSemicolon r'
                      else capture notQuoteNorSemicolon r
                  | EmptyString => None
                  end
              | None => None
              end)
    contentDisposition.

(** Lines 107-124: the file name, from [Content-Disposition] when there is
    one, else the URL itself. *)
Definition determineFilename `{UriDecoder}
  (targetUrl : string) (headRes : Response) : string :=
  match headers headRes "content-disposition" with
  | Some contentDisposition =>
      if Js.truthy contentDisposition then
        match starMatch contentDisposition with
        | Some star =>
            match decodeURIComponent star with
            | Some decoded => decoded
            | None => targetUrl            (* failed to decode, keep original *)
            end
        | None =>
            match normalMatch contentDisposition with
            | Some name => name
            | None => targetUrl
            end
        end
      else targetUrl
  | None => targetUrl
  end.

(** *** The ranged request: lines 127-140 *)

Definition fetchEnd (fileSize : option Js.number) (chunkSize : Z) : Js.number :=
  match fileSize with
  | Some size => Js.min (Js.Num (chunkSize - 1)) (Js.pred size)
  | None => Js.Num (chunkSize - 1)
  end.

Definition rangeHeader (fileSize : option Js.number) (chunkSize : Z) : string :=
  "bytes=0-" ++ Js.numberToString (fetchEnd fileSize chunkSize).

Definition rangeRequest (targetUrl : string) (fileSize : option Js.number)
  (chunkSize : Z) : Request :=
  {| reqUrl := targetUrl; reqMethod := GET;
     reqHeaders :=
       ServerUtils.getEmulationHeaders (Some (rangeHeader fileSize chunkSize)) |}.

(** *** The bounded copy: lines 142-273 *)

Definition SAFE_LIMIT : Z := 10 * 1024 * 1024.
Definition ZIP_SIG : list Z := [80; 75; 3; 4].          (* 0x50 0x4b 0x03 0x04 *)

(** Lines 153-159: the first [read()], outside the [try].  It yields the
    first chunk, if any, and leaves the reader on the rest of the body; a
    rejection here is thrown as it is. *)
Definition readFirst (bodyStream : Stream)
  : Result (option (list byte) * Stream) :=
  match chunks bodyStream with
  | value :: rest =>
      inr (Some value, {| chunks := rest; ending := ending bodyStream |})
  | [] =>
      match ending bodyStream with
      | Closed => inr (None, bodyStream)
      | Errored m => inl (Error m)
      end
  end.

(** Line 165-172: the local-file-header signature test. *)
Definition hasZipSignature (firstChunk : list byte) : bool :=
  (byteLength firstChunk >? 30)
  && u8_is firstChunk 0 (nth 0 ZIP_SIG 0)
  && u8_is firstChunk 1 (nth 1 ZIP_SIG 0)
  && u8_is firstChunk 2 (nth 2 ZIP_SIG 0)
  && u8_is firstChunk 3 (nth 3 ZIP_SIG 0).

Definition compressionMethod (firstChunk : list byte) : Z :=
  Z.lor (u8 firstChunk 8) (Z.shiftl (u8 firstChunk 9) 8).

Definition dataOffset (firstChunk : list byte) : Z :=
  let fileNameLength := Z.lor (u8 firstChunk 26) (Z.shiftl (u8 firstChunk 27) 8) in
  let extraFieldLength := Z.lor (u8 firstChunk 28) (Z.shiftl (u8 firstChunk 29) 8) in
  30 + fileNameLength + extraFieldLength.

(** The stream built at lines 191-208: [start] enqueues what the first chunk
    holds past the header, [pull] hands on the reads of the original reader,
    whose ending becomes its own. *)
Definition rawCompressedStream (dataInFirstChunk : list byte) (reader : Stream)
  : Stream :=
  {| chunks := (if byteLength dataInFirstChunk >? 0
                then [dataInFirstChunk] else []) ++ chunks reader;
     ending := ending reader |}.

(** The outcome of lines 161-218. *)
Record Plan := {
  firstChunk : option (list byte);   (* still pending for the copy loop *)
  isZipCompressed : bool;
  finalReader : Stream
}.

Definition plan `{Inflater} (first : option (list byte)) (reader : Stream) : Plan :=
  match first with
  | Some fc =>
      if hasZipSignature fc then
        if compressionMethod fc =? 8 then
          if byteLength fc >? dataOffset fc then
            {| firstChunk := None;
               isZipCompressed := true;
               finalReader :=
                 inflateRaw
                   (rawCompressedStream (subarrayFrom fc (dataOffset fc)) reader) |}
          else {| firstChunk := first; isZipCompressed := true;
                  finalReader := reader |}
        else {| firstChunk := first; isZipCompressed := false;
                finalReader := reader |}
      else {| firstChunk := first; isZipCompressed := false;
              finalReader := reader |}
  | None => {| firstChunk := None; isZipCompressed := false;
               finalReader := reader |}
  end.

(** The state of the [try] block when control leaves it: the bytes of
    [tempBuffer] below [offset], whether [cancel()] was called, and the
    message of the failure that left it, if one did. *)
Record Copied := {
  written : list byte;
  didCancel : bool;
  failure : option string
}.

Definition offset (c : Copied) : Z := byteLength (written c).

(** Lines 241-256: the [while (true)] loop over [finalReader.read()]. *)
Fixpoint readRest (buf : list byte) (values : list (list byte)) (e : Ending)
  : Copied :=
  match values with
  | [] =>
      match e with
      | Closed => {| written := buf; didCancel := false; failure := None |}
      | Errored m => {| written := buf; didCancel := false; failure := Some m |}
      end
  | value :: values' =>
      let spaceLeft := SAFE_LIMIT - byteLength buf in
      if byteLength value >? spaceLeft
      then {| written := buf ++ subarrayTo value spaceLeft;
              didCancel := true; failure := None |}
      else readRest (buf ++ value) values' e
  end.

(** Lines 220-257: the body of the [try]. *)
Definition copy (p : Plan) : Copied :=
  let first :=
    match firstChunk p with
    | Some fc =>
        let spaceLeft := SAFE_LIMIT - 0 in
        if byteLength fc >? spaceLeft
        then {| written := subarrayTo fc spaceLeft;
                didCancel := negb (isZipCompressed p); failure := None |}
        else {| written := fc; didCancel := false; failure := None |}
    | None => {| written := []; didCancel := false; failure := None |}
    end in
  if offset first <? SAFE_LIMIT
  then
    let rest := readRest (written first)
                         (chunks (finalReader p)) (ending (finalReader p)) in
    {| written := written rest;
       didCancel := didCancel first || didCancel rest;
       failure := failure rest |}
  else first.

(** Lines 258-273: the [catch]. *)
Definition isExpectedEnd (errorMessage : string) : bool :=
  Js.includes errorMessage "incomplete data"
  || Js.includes errorMessage "unexpected end of file".

Definition settle (c : Copied) : Result (list byte) :=
  match failure c with
  | None => inr (written c)
  | Some errorMessage =>
      if (offset c >? 0) && isExpectedEnd errorMessage
      then inr (written c)
      else inl (Error ("Stream reading failed: " ++ errorMessage))
  end.

(** Lines 146-276 on a response body: the view [tempBuffer.subarray(0,
    offset)] that is returned, or what is thrown, with the cancel flag. *)
Definition readBody `{Inflater} (bodyStream : Stream) : Result (Copied * Plan) :=
  match readFirst bodyStream with
  | inl e => inl e
  | inr (first, reader) =>
      let p := plan first reader in
      inr (copy p, p)
  end.

Record MediaFetchResult := {
  buffer : list byte;
  filename : string;
  fileSize : option Js.number;
  resultDiagnostics : FetchDiagnostics
}.

(** *** [fetchMediaChunk] *)

(** Lines 58-286: what the run does once the probe has settled on
    [headRes]. *)
Definition inspectAndFetch `{UriDecoder} `{Inflater}
  (net : Network) (rs : ServerUtils.Resolved) (headRes : Response)
  (chunkSize : Z) : M MediaFetchResult :=
  let targetUrl := ServerUtils.url rs in
  checkProbe (ServerUtils.isGoogleDrive rs) headRes ;;;
  let size := determineFileSize headRes in
  let name := determineFilename targetUrl headRes in
  updDiagnostics (set_resolvedFilename name) ;;;
  response <- fetch net (rangeRequest targetUrl size chunkSize) ;;
  updDiagnostics (set_responseStatus (status response)) ;;;
  match body response with
  | None => throw (Error "Failed to retrieve response body stream")
  | Some bodyStream =>
      cp <- lift (readBody bodyStream) ;;
      (if didCancel (fst cp) then cancelReader else ret tt) ;;;
      fileBuffer <- lift (settle (fst cp)) ;;
      d <- getDiagnostics ;;
      ret {| buffer := fileBuffer; filename := name; fileSize := size;
             resultDiagnostics := d |}
  end.

Definition fetchMediaChunk `{UrlParser} `{UriDecoder} `{Inflater}
  (net : Network) (initialUrl : string) (chunkSize : Z) : M MediaFetchResult :=
  let rs := ServerUtils.resolveGoogleDriveUrl initialUrl in
  updDiagnostics (set_isGoogleDrive (ServerUtils.isGoogleDrive rs)) ;;;
  lift (ServerUtils.validateUrl (ServerUtils.url rs)) ;;;
  pr <- probe net (ServerUtils.url rs) ;;
  inspectAndFetch net rs (snd pr) chunkSize.

(** The default of the second parameter. *)
Definition defaultChunkSize : Z := 10 * 1024 * 1024.

End MediaFetch.

(* ================================================================== *)
(** ** Archive peek and MediaInfo normalisation: [app/lib/media-utils.ts] *)
(* ================================================================== *)

Definition isAsciiByte (b : byte) : bool := (Byte.to_N b <? 128)%N.

(** [new TextDecoder().decode(bytes)]: the platform's UTF-8 decoder.  All
    that is used of it is that it returns ASCII bytes as the same
    characters. *)
Class Utf8Decoder := {
  decode : list byte -> string;
  decode_ascii :
    forall bs, forallb isAsciiByte bs = true -> decode bs = string_of_list_byte bs
}.

Module MediaUtils.

(** [buffer[i]] for a number [i]: [None] is [undefined], which is what an
    index below zero or past the end reads. *)
Definition at_ (buffer : list byte) (i : Z) : option Z :=
  if i <? 0 then None
  else option_map (fun b => Z.of_N (Byte.to_N b)) (nth_error buffer (Z.to_nat i)).

(** [buffer[i] === k] and [buffer[i] !== k] *)
Definition is_ (buffer : list byte) (i k : Z) : bool :=
  match at_ buffer i with Some v => v =? k | None => false end.
Definition isnt (buffer : list byte) (i k : Z) : bool := negb (is_ buffer i k).

(** [buffer.subarray(begin, end)]: a negative bound counts from the end, and
    both bounds are clamped to the array (ECMA-262, 23.2.3.30). *)
Definition subarray (buffer : list byte) (begin end_ : Z) : list byte :=
  let len := byteLength buffer in
  let clamp i := if i <? 0 then Z.max (len + i) 0 else Z.min i len in
  let beginIndex := clamp begin in
  let endIndex := clamp end_ in
  takeZ (endIndex - beginIndex) (dropZ beginIndex buffer).

(** [view.getUint16(i, true)] and [view.getUint32(i, true)].  Both throw
    [RangeError] past the end of the view; every call below is made under the
    loop guard [offset + 30 <= buffer.byteLength] with [i + 4 <= offset + 30],
    where they do not. *)
Definition byteOr0 (buffer : list byte) (i : Z) : Z :=
  match at_ buffer i with Some v => v | None => 0 end.
Definition getUint16 (buffer : list byte) (i : Z) : Z :=
  byteOr0 buffer i + 256 * byteOr0 buffer (i + 1).
Definition getUint32 (buffer : list byte) (i : Z) : Z :=
  byteOr0 buffer i + 256 * byteOr0 buffer (i + 1)
  + 65536 * byteOr0 buffer (i + 2) + 16777216 * byteOr0 buffer (i + 3).

(** [Math.ceil(size / 512)] *)
Definition ceilDiv512 (size : Z) : Z := - ((- size) / 512).

(** A loop that is run with fuel: [None] when the fuel is used up, [Some r]
    when the loop returns [r] ([r = None] for [null]). *)
Definition Walk : Type := option (option string).

Section Archive.
Context `{Utf8Decoder}.

(** Lines 466-511: the loop of [extractFirstFileFromZip], from [offset]. *)
Fixpoint zipWalk (fuel : nat) (buffer : list byte) (offset : Z) : Walk :=
  match fuel with
  | O => None
  | S fuel' =>
      if negb (offset + 30 <=? byteLength buffer) then Some None
      else if isnt buffer offset 80 || isnt buffer (offset + 1) 75
              || isnt buffer (offset + 2) 3 || isnt buffer (offset + 3) 4
      then Some None
      else
        let generalPurposeFlag := getUint16 buffer (offset + 6) in
        let compressedSize := getUint32 buffer (offset + 18) in
        let fileNameLength := getUint16 buffer (offset + 26) in
        let extraFieldLength := getUint16 buffer (offset + 28) in
        let fileNameStart := offset + 30 in
        if fileNameStart + fileNameLength >? byteLength buffer then Some None
        else
          let fileName :=
            decode (subarray buffer fileNameStart (fileNameStart + fileNameLength)) in
          let hasDataDescriptor := negb (Z.land generalPurposeFlag 8 =? 0) in
          if negb (Js.endsWith fileName "/") then Some (Some fileName)
          else
            let skipSize := if hasDataDescriptor then 0 else compressedSize in
            let headerSize := 30 + fileNameLength + extraFieldLength in
            zipWalk fuel' buffer (offset + headerSize + skipSize)
  end.

(** Every turn of the loop moves [offset] forward by 30 at least, so the
    length of the buffer is fuel enough. *)
Definition extractFirstFileFromZip (buffer : list byte) : Walk :=
  zipWalk (S (List.length buffer)) buffer 0.

(** [while (i < limit && stop(buffer[i])) i++], at most [steps] turns. *)
Fixpoint scan (continue : option Z -> bool) (buffer : list byte)
  (i limit : Z) (steps : nat) : Z :=
  match steps with
  | O => i
  | S steps' =>
      if (i <? limit) && continue (at_ buffer i)
      then scan continue buffer (i + 1) limit steps'
      else i
  end.

Definition notZero (v : option Z) : bool :=
  match v with Some 0 => false | _ => true end.
Definition notZeroNorSpace (v : option Z) : bool :=
  match v with Some 0 => false | Some 32 => false | _ => true end.

(** Lines 523-529: all of the 512 bytes from [offset] are zero. *)
Definition isZeroBlock (buffer : list byte) (offset : Z) : bool :=
  forallb (fun i => is_ buffer (offset + Z.of_nat i) 0) (seq 0 512).

(** Lines 570-571: [trimEnd], the length without the trailing zero bytes. *)
Fixpoint trimTrailingZeros (bs : list byte) : list byte :=
  match bs with
  | [] => []
  | b :: bs' =>
      match trimTrailingZeros bs' with
      | [] => if (Byte.to_N b =? 0)%N then [] else [b]
      | t => b :: t
      end
  end.

(** [!name] for a name that is a string or [null]. *)
Definition noName (name : option string) : bool :=
  match name with Some s => negb (Js.truthy s) | None => true end.

(** Lines 519-597: the loop of [extractFirstFileFromTar]. *)
Fixpoint tarWalk (fuel : nat) (buffer : list byte) (offset : Z)
  (nextNameOverride : option string) : Walk :=
  match fuel with
  | O => None
  | S fuel' =>
      if negb (offset + 512 <=? byteLength buffer) then Some None
      else if is_ buffer offset 0 && isZeroBlock buffer offset
      then tarWalk fuel' buffer (offset + 512) nextNameOverride
      else
        let name :=
          if noName nextNameOverride then
            let nameEnd := scan notZero buffer offset (offset + 100) 100 in
            if nameEnd >? offset
            then Some (decode (subarray buffer offset nameEnd))
            else nextNameOverride
          else nextNameOverride in
        let typeFlag := byteOr0 buffer (offset + 156) in
        let sizeEnd :=
          scan notZeroNorSpace buffer (offset + 124) (offset + 136) 12 in
        let sizeStr := decode (subarray buffer (offset + 124) sizeEnd) in
        let size :=
          match Js.parseInt sizeStr 8 with
          | Js.Num z => z
          | Js.NaN => 0
          end in
        if typeFlag =? 76                               (* 'L' *)
        then
          let blocks := ceilDiv512 size in
          let contentStart := offset + 512 in
          let contentEnd := contentStart + size in
          let override :=
            if contentEnd <=? byteLength buffer
            then Some (decode (trimTrailingZeros
                                 (subarray buffer contentStart contentEnd)))
            else nextNameOverride in
          tarWalk fuel' buffer (offset + (512 + blocks * 512)) override
        else
          let nameEndsWithSlash :=
            match name with Some s => Js.endsWith s "/" | None => false end in
          let isDir := (typeFlag =? 53) || nameEndsWithSlash in      (* '5' *)
          let isFile :=
            (typeFlag =? 48) || (typeFlag =? 0) || (typeFlag =? 32) in
          if negb isDir && isFile && negb (noName name) && negb nameEndsWithSlash
          then Some name
          else
            let blocks := ceilDiv512 size in
            tarWalk fuel' buffer (offset + (512 + blocks * 512)) None
  end.

Definition extractFirstFileFromTar (fuel : nat) (buffer : list byte) : Walk :=
  tarWalk fuel buffer 0 None.

(** Lines 432-456.  [fuel] bounds the turns of the TAR loop. *)
Definition extractFirstFileFromArchive (fuel : nat) (buffer : list byte) : Walk :=
  if (byteLength buffer >? 4)
     && is_ buffer 0 80 && is_ buffer 1 75 && is_ buffer 2 3 && is_ buffer 3 4
  then extractFirstFileFromZip buffer
  else if (byteLength buffer >? 262)
          && (decode (subarray buffer 257 262) =? "ustar")%string
  then extractFirstFileFromTar fuel buffer
  else Some None.

End Archive.

(** *** [normalizeMediaInfo]: lines 61-98 *)

Section Normalize.

Set Warnings "-register-all".

(** A JavaScript number as a value of a MediaInfo report;
    [normalizeMediaInfo] never looks inside one. *)
Variable number : Type.

(** [JsonMediaInfo]: a primitive, an array, or a plain object, that is the
    list of its own enumerable properties in their order (a key occurs
    once). *)
Inductive Json :=
| JUndefined
| JNull
| JBoolean (b : bool)
| JNumber (n : number)
| JString (s : string)
| JArray (items : list Json)
| JObject (props : list (string * Json)).

(** [data[key]], [None] when [key in data] is false. *)
Fixpoint property (key : string) (props : list (string * Json)) : option Json :=
  match props with
  | [] => None
  | (k, v) :: props' => if (k =? key)%string then Some v else property key props'
  end.

Definition isUndefined (v : Json) : bool :=
  match v with JUndefined => true | _ => false end.

(** ['#value' in data && data['#value'] !== undefined] *)
Definition wrappedValue (props : list (string * Json)) : option Json :=
  match property "#value" props with
  | Some v => if isUndefined v then None else Some v
  | None => None
  end.

(** [normalized[key] = value] on the object literal of line 87: an own
    property is created under every key but ["__proto__"], which is the
    accessor that [Object.prototype] provides; an assignment to it creates no
    property. *)
Definition createsProperty (key : string) : bool :=
  negb (key =? "__proto__")%string.

Fixpoint normalizeMediaInfo (data : Json) : Json :=
  match data with
  | JArray items => JArray (map normalizeMediaInfo items)
  | JObject props =>
      match wrappedValue props with
      | Some v => v
      | None =>
          JObject
            (flat_map
               (fun kv =>
                  match kv with
                  | (key, v) =>
                      if createsProperty key
                      then [(key, normalizeMediaInfo v)]
                      else []
                  end)
               props)
      end
  | _ => data
  end.

End Normalize.

Arguments JUndefined {number}.
Arguments JNull {number}.
Arguments JBoolean {number} b.
Arguments JNumber {number} n.
Arguments JString {number} s.
Arguments JArray {number} items.
Arguments JObject {number} props.
Arguments property {number} key props.
Arguments isUndefined {number} v.
Arguments wrappedValue {number} props.
Arguments normalizeMediaInfo {number} data.

End MediaUtils.

(* ================================================================== *)
(** ** Stand-ins for the platform, to run the definitions on examples *)
(* ================================================================== *)

Module Fixtures.

Definition isHostEnd (c : ascii) : bool :=
  Ascii.eqb c "/" || Ascii.eqb c ":" || Ascii.eqb c "?" || Ascii.eqb c "#".

(** The host of [scheme://host...]: enough of a URL parser for the URLs of
    the examples. *)
Definition hostnameOf (u : string) : option string :=
  Js.leftmost
    (fun t => match Js.stripPrefixCI "://" t with
              | Some r => Some (Js.lower (fst (Js.span (fun c => negb (isHostEnd c)) r)))
              | None => None
              end)
    u.

#[export] Instance urlParser : UrlParser := {| URL_hostname := hostnameOf |}.

(** No escape sequence is decoded. *)
#[export] Instance uriDecoder : UriDecoder := {| decodeURIComponent := Some |}.

(** A decoder that writes every byte of its input twice: like inflation, it
    gives out more than it takes in. *)
Definition twice (c : list byte) : list byte := flat_map (fun b => [b; b]) c.
#[export] Instance inflater : Inflater :=
  {| inflateRaw := fun s => {| chunks := map twice (chunks s);
                               ending := ending s |} |}.

#[export] Instance utf8Decoder : Utf8Decoder :=
  {| decode := string_of_list_byte;
     decode_ascii := fun bs _ => eq_refl |}.

End Fixtures.

(* ================================================================== *)
(** ** Vocabulary of the statements *)
(* ================================================================== *)

(** [p] occurs in [s]. *)
Definition Occurs (p s : string) : Prop := exists pre post, s = pre ++ p ++ post.

(** Every character of [s] satisfies [p]. *)
Fixpoint allChars (p : ascii -> bool) (s : string) : bool :=
  match s with
  | EmptyString => true
  | String c s' => p c && allChars p s'
  end.

(** The hosts the design document lists for the URL guard: the ones it
    wants refused, and the two just outside 172.16.0.0/12. *)
Definition refusedExamples : list string :=
  ["127.0.0.1"; "localhost"; "10.1.2.3"; "192.168.0.5"; "172.20.0.1";
   "169.254.169.254"; "metadata.google.internal"].
Definition allowedExamples : list string := ["172.15.0.1"; "172.32.0.1"].

(** [u] matches [GOOGLE_DRIVE_REGEX] somewhere: the literal prefix, one or
    more class characters, the literal ["/view"]. *)
Definition MatchesViewLink (u : string) : Prop :=
  exists pre id post,
    u = pre ++ ServerUtils.GOOGLE_DRIVE_PREFIX ++ id ++ "/view" ++ post
    /\ id <> EmptyString /\ allChars ServerUtils.isIdChar id = true.

(** The second octet of a dotted host, as [validateUrl] parses it. *)
Definition secondOctet (host : string) : Js.number :=
  Js.parseIntOpt (nth_error (Js.split "." host) 1) 10.

(** The number of bytes a sequence of chunks amounts to. *)
Definition totalLength (values : list (list byte)) : Z :=
  byteLength (List.concat values).

(** What the copy loop is fed: the first chunk when it is still pending,
    then what [finalReader] yields. *)
Definition pending (p : MediaFetch.Plan) : list (list byte) :=
  match MediaFetch.firstChunk p with
  | Some fc => [fc]
  | None => []
  end ++ chunks (MediaFetch.finalReader p).

(** The pending first chunk fills the buffer to the byte. *)
Definition firstExact (p : MediaFetch.Plan) : bool :=
  match MediaFetch.firstChunk p with
  | Some fc => byteLength fc =? MediaFetch.SAFE_LIMIT
  | None => false
  end.

(** The error a failing read leaves behind, if the stream ends in one. *)
Definition endingError (e : Ending) : option string :=
  match e with Closed => None | Errored m => Some m end.

(** The 16-bit little-endian number at offset [i] of a chunk. *)
Definition u16le (c : list byte) (i : nat) : Z := u8 c i + 256 * u8 c (S i).

(** The [isZipCompressed] flag is raised only on a first chunk that is no
    longer than the local header it announces. *)
Definition PlanOK (p : MediaFetch.Plan) : Prop :=
  MediaFetch.isZipCompressed p = true ->
  forall fc, MediaFetch.firstChunk p = Some fc ->
             byteLength fc < MediaFetch.SAFE_LIMIT.

(** The cap as the design document words it, for one response body: what
    is written stays within [SAFE_LIMIT], and a body of [SAFE_LIMIT] bytes or
    more fills the buffer to [SAFE_LIMIT] and has its stream cancelled. *)
Definition CapAsStated `{Inflater} (bodyStream : Stream) : Prop :=
  forall c p,
    MediaFetch.readBody bodyStream = inr (c, p) ->
    MediaFetch.offset c <= MediaFetch.SAFE_LIMIT
    /\ (MediaFetch.SAFE_LIMIT <= totalLength (chunks bodyStream) ->
        MediaFetch.offset c = MediaFetch.SAFE_LIMIT
        /\ MediaFetch.didCancel c = true).

(** A body of two chunks, one byte and then [SAFE_LIMIT - 1] bytes, after
    which the stream closes. *)
Definition exactFitBody : Stream :=
  {| chunks := [ [x00]; repeat x00 (Z.to_nat (MediaFetch.SAFE_LIMIT - 1)) ];
     ending := Closed |}.

(** Two plans whose reader fails: a body whose second read is followed by
    a failure, and an unwrapped entry whose decompressor fails before it has
    given out a byte. *)
Definition partialBodyPlan : MediaFetch.Plan :=
  {| MediaFetch.firstChunk := Some [x01];
     MediaFetch.isZipCompressed := false;
     MediaFetch.finalReader :=
       {| chunks := [[x02]]; ending := Errored "incomplete data" |} |}.

Definition truncatedEntryPlan : MediaFetch.Plan :=
  {| MediaFetch.firstChunk := None;
     MediaFetch.isZipCompressed := true;
     MediaFetch.finalReader :=
       {| chunks := []; ending := Errored "unexpected end of file" |} |}.

(** A body of one byte more than [SAFE_LIMIT]: a chunk of one byte, a chunk
    of [SAFE_LIMIT] bytes, and then a failing read.  The plan is the one that
    lines 161-218 make for it. *)
Definition overflowingBody : Stream :=
  {| chunks := [ [x00]; repeat x00 (Z.to_nat MediaFetch.SAFE_LIMIT) ];
     ending := Errored "connection reset" |}.

Definition overflowingPlan : MediaFetch.Plan :=
  {| MediaFetch.firstChunk := Some [x00];
     MediaFetch.isZipCompressed := false;
     MediaFetch.finalReader :=
       {| chunks := [ repeat x00 (Z.to_nat MediaFetch.SAFE_LIMIT) ];
          ending := Errored "connection reset" |} |}.

(** The local-file-header signature of the ZIP format. *)
Definition zipSignature : list byte := [x50; x4b; x03; x04].

(** What the decompressor is given after an unwrap: the first chunk past
    the local header, then the chunks that follow, with the ending of the
    body. *)
Definition compressedPayload (fc : list byte) (rest : list (list byte))
  (e : Ending) : Stream :=
  {| chunks := dropZ (30 + u16le fc 26 + u16le fc 28) fc :: rest;
     ending := e |}.

(** A local file header for an entry named [a], deflated (method 8),
    followed by two bytes of payload. *)
Definition deflatedEntryChunk : list byte :=
  [x50; x4b; x03; x04; x14; x00; x00; x00; x08; x00;
   x00; x00; x00; x00; x00; x00; x00; x00; x02; x00;
   x00; x00; x02; x00; x00; x00; x01; x00; x00; x00;
   x61; x01; x02].

(** The plan replaced the body by the output of the decompressor. *)
Definition unwrapped (p : MediaFetch.Plan) : bool :=
  MediaFetch.isZipCompressed p
  && match MediaFetch.firstChunk p with None => true | Some _ => false end.

(** The world after the probe of a run that started in [initialWorld]. *)
Definition probedWorld (rs : ServerUtils.Resolved) (method : string)
  (issued : list MediaFetch.Request) : MediaFetch.World :=
  {| MediaFetch.requests := issued;
     MediaFetch.diagnostics :=
       MediaFetch.set_probeMethod method
         (MediaFetch.set_isGoogleDrive (ServerUtils.isGoogleDrive rs)
            MediaFetch.noDiagnostics);
     MediaFetch.cancelled := false |}.

(** Response headers given as a list. *)
Definition headersOf (l : list (string * string)) (name : string) : option string :=
  option_map snd (find (fun kv => (fst kv =? name)%string) l).


(** A server that announces four bytes and, whatever range is asked for,
    sends eight. *)
Definition greedyServer : MediaFetch.Network :=
  fun k _ =>
    match k with
    | 0%nat => inr {| MediaFetch.status := 200;
                      MediaFetch.headers := headersOf [("content-length", "4")];
                      MediaFetch.body := None |}
    | _ => inr {| MediaFetch.status := 200;
                  MediaFetch.headers := headersOf [("content-length", "8")];
                  MediaFetch.body :=
                    Some {| chunks := [[x01; x02; x03; x04; x05; x06; x07; x08]];
                            ending := Closed |} |}
    end.


(** *** Archive layouts *)

(** The byte of value [z mod 256]. *)
Definition byteOf (z : Z) : byte :=
  match Byte.of_N (Z.to_N (z mod 256)) with
  | Some b => b
  | None => x00
  end.


Definition zeros (n : nat) : list byte := repeat x00 n.






(** The digits of an octal number field, most significant first. *)
Definition octalDigit (d : Z) : byte := byteOf (48 + d).

(** A 512-byte header block of the TAR format (POSIX ustar / GNU): the name
    field of 100 bytes, mode, uid and gid (24 bytes), the size field of 12
    bytes, mtime and checksum (20 bytes), the type flag, the link name (100
    bytes), the magic ["ustar"], and the rest up to 512 bytes.  [name] is at
    most 100 bytes and [sizeDigits] at most 11 digits. *)
Definition tarHeader (name : list byte) (typeFlag : byte) (sizeDigits : list Z)
  : list byte :=
  (name ++ zeros (100 - List.length name))
  ++ zeros 24
  ++ (map octalDigit sizeDigits ++ zeros (12 - List.length sizeDigits))
  ++ zeros 20
  ++ [typeFlag]
  ++ zeros 100
  ++ list_byte_of_string "ustar"
  ++ zeros 250.

(** [content] followed by the zero bytes, fewer than 512, that bring it to
    a whole number of 512-byte blocks, as the TAR format stores the data of a
    member. *)
Definition tarPad (content : list byte) : list byte :=
  content ++ zeros (Z.to_nat ((- byteLength content) mod 512)).

Definition longLink : list byte := list_byte_of_string "././@LongLink".

(** A GNU long-name member: the header of type ['L'] named
    [././@LongLink], whose payload is the long name and a terminating zero
    byte; then the header of the real entry, a regular file whose name field
    holds the first 100 bytes of the name; then the file data. *)
Definition gnuLongNameArchive (longName : list byte)
  (longSizeDigits dataSizeDigits : list Z) (data : list byte) : list byte :=
  tarHeader longLink "L"%byte longSizeDigits
  ++ tarPad (longName ++ [x00])
  ++ tarHeader (firstn 100 longName) "0"%byte dataSizeDigits
  ++ tarPad data.


(** A member name of 128 bytes, longer than the name field of a header. *)
Definition sampleLongName : list byte :=
  list_byte_of_string
    "a-very-long-directory-name/another-very-long-directory-name/yet-another-long-directory/Some.Movie.2024.2160p.UHD.BluRay.x265.mkv".

(** *** MediaInfo values *)

Section JsonVocabulary.
Import MediaUtils.
Variable number : Type.

(** Some object of [v], at any depth, carries a defined ['#value']. *)
Fixpoint hasWrapper (v : Json number) : bool :=
  match v with
  | JArray items => existsb hasWrapper items
  | JObject props =>
      match wrappedValue props with Some _ => true | None => false end
      || existsb (fun kv => match kv with (_, x) => hasWrapper x end) props
  | _ => false
  end.

(** Every wrapper that [normalizeMediaInfo] meets in [v] wraps a value that
    holds no wrapper itself. *)
Fixpoint plainPayloads (v : Json number) : bool :=
  match v with
  | JArray items => forallb plainPayloads items
  | JObject props =>
      match wrappedValue props with
      | Some payload => negb (hasWrapper payload)
      | None => forallb (fun kv => match kv with (_, x) => plainPayloads x end)
                        props
      end
  | _ => true
  end.

Definition isPrimitive (v : Json number) : bool :=
  match v with
  | JArray _ | JObject _ => false
  | _ => true
  end.

End JsonVocabulary.

Arguments hasWrapper {number} v.
Arguments plainPayloads {number} v.
Arguments isPrimitive {number} v.

(** A wrapper whose ['#value'] is a wrapper again. *)
Definition nestedWrapper : MediaUtils.Json Z :=
  MediaUtils.JObject
    [("@dt", MediaUtils.JString "binary.base64");
     ("#value",
      MediaUtils.JObject [("@dt", MediaUtils.JString "text");
                          ("#value", MediaUtils.JString "x")])].

(** An object with an own property [__proto__], as [JSON.parse] makes one
    of the text [{"__proto__": ..., "Format": ...}]. *)
Definition protoKeyedTrack : MediaUtils.Json Z :=
  MediaUtils.JObject
    [("__proto__", MediaUtils.JObject [("Format", MediaUtils.JString "HEVC")]);
     ("Format",
      MediaUtils.JObject [("@dt", MediaUtils.JString "text");
                          ("#value", MediaUtils.JString "AVC")])].

(** A track as MediaInfo reports it, with two wrapped fields. *)
Definition sampleTrack : MediaUtils.Json Z :=
  MediaUtils.JObject
    [("@type", MediaUtils.JString "General");
     ("Duration", MediaUtils.JNumber 5400);
     ("Title",
      MediaUtils.JObject [("@dt", MediaUtils.JString "binary.base64");
                          ("#value", MediaUtils.JString "TW92aWU=")]);
     ("extra",
      MediaUtils.JArray
        [MediaUtils.JObject [("#value", MediaUtils.JNull)];
         MediaUtils.JObject [("#value", MediaUtils.JUndefined)]])].



(* ================================================================== *)
(** ** Further array and string primitives *)
(* ================================================================== *)

Module JsLib.

(** [a.pop()]: the last element, [None] ([undefined]) on an empty array. *)
Fixpoint pop {A} (a : list A) : option A :=
  match a with
  | [] => None
  | [x] => Some x
  | _ :: a' => pop a'
  end.

(** [a.includes(x)] on an array of strings. *)
Definition arrayIncludes (a : list string) (x : string) : bool :=
  existsb (String.eqb x) a.

(** [x ?? ''] *)
Definition orEmpty (x : option string) : string :=
  match x with Some s => s | None => EmptyString end.

(** [a.join(sep)] *)
Fixpoint join (sep : string) (a : list string) : string :=
  match a with
  | [] => EmptyString
  | [x] => x
  | x :: a' => x ++ sep ++ join sep a'
  end.

(** [a.findIndex(p)], counted from [i]; [None] is [-1]. *)
Fixpoint findIndexFrom {A} (p : A -> bool) (i : nat) (a : list A) : option nat :=
  match a with
  | [] => None
  | x :: a' => if p x then Some i else findIndexFrom p (S i) a'
  end.

Definition findIndex {A} (p : A -> bool) (a : list A) : option nat :=
  findIndexFrom p 0 a.

(** [a.splice(i, 0, x)] for [i] within the array: [x] inserted at [i]. *)
Definition spliceIn {A} (a : list A) (i : nat) (x : A) : list A :=
  firstn i a ++ [x] ++ skipn i a.

(** [s.trim()]: the white space of [Js.whiteSpaceEncodings] taken off both
    ends. *)
Definition whiteLenEnd (s : string) : option nat :=
  match filter (fun w => Js.endsWith s w) Js.whiteSpaceEncodings with
  | w :: _ => Some (String.length w)
  | [] => None
  end.

Fixpoint trimEnd (fuel : nat) (s : string) : string :=
  match fuel with
  | O => s
  | S fuel' =>
      match whiteLenEnd s with
      | Some n => trimEnd fuel' (String.substring 0 (String.length s - n) s)
      | None => s
      end
  end.

Definition trim (s : string) : string :=
  let t := Js.skipWhite (String.length s) s in
  trimEnd (String.length t) t.

End JsLib.

(* ================================================================== *)
(** ** File names, tracks, chapters and clean-up: [app/lib/media-utils.ts] *)
(* ================================================================== *)

(** [toLowerCase] is [Js.lower] in this part: the folding of the letters
    [A] to [Z].  Outside ASCII, [toLowerCase] yields an ASCII letter for two
    characters only, U+212A (to [k]) and U+0130 (to [i] followed by U+0307);
    none of the texts the code compares a lowered string with holds a [k] or
    ends in [i], so the tests below come out the same. *)

Module MediaNames.

(** Lines 47-55. *)
Definition isAppleTvFilename (filename : string) : bool :=
  let normalized := Js.lower filename in
  Js.includes normalized "aptv"
  || Js.includes normalized "atvp"
  || Js.includes normalized "apple tv+"
  || Js.includes normalized "apple tv".

Definition ARCHIVE_EXTENSIONS : list string :=
  ["zip"; "tar"; "rar"; "7z"; "gz"; "bz2"; "xz"].

(** Lines 604-607 (and [server-utils.ts], lines 105-108): [split] never
    returns an empty array, so [pop()] yields a string. *)
Definition isArchiveExtension (filename : string) : bool :=
  let ext :=
    match option_map Js.lower (JsLib.pop (Js.split "." filename)) with
    | Some e => e
    | None => EmptyString
    end in
  JsLib.arrayIncludes ARCHIVE_EXTENSIONS ext.

(** The fields of [MediaTrackJSON] that the accessibility flags read;
    [None] is a field that is missing. *)
Record MediaTrackJSON := {
  Title : option string;
  Format : option string;
  CodecID : option string;
  ServiceKind : option string;
  File_Name : option string;
  CompleteName : option string
}.

Record AccessibilityFeatures := { hasSDH : bool; hasCC : bool; hasAD : bool }.

(** Lines 112-170. *)
Definition getAccessibilityFeatures
  (audioTracks textTracks : list MediaTrackJSON)
  (generalTrack : option MediaTrackJSON) : AccessibilityFeatures :=
  let hasSDH :=
    existsb (fun t => Js.includes (JsLib.orEmpty (Title t)) "SDH") textTracks in
  let hasCC :=
    existsb
      (fun t =>
         let title := Js.lower (JsLib.orEmpty (Title t)) in
         let format := Js.lower (JsLib.orEmpty (Format t)) in
         Js.includes title "cc"
         || Js.includes title "closed captions"
         || Js.includes format "closed captions")
      textTracks
    || match generalTrack with
       | None => false
       | Some g =>
           let fileName :=
             Js.lower (match File_Name g with
                       | Some s => s
                       | None => JsLib.orEmpty (CompleteName g)
                       end) in
           if negb (isAppleTvFilename fileName) then false
           else
             existsb
               (fun t =>
                  let format := Js.lower (JsLib.orEmpty (Format t)) in
                  let codecID := Js.lower (JsLib.orEmpty (CodecID t)) in
                  Js.includes format "srt"
                  || Js.includes format "subrip"
                  || Js.includes format "timed text"
                  || Js.includes format "utf-8"
                  || Js.includes codecID "tx3g"
                  || Js.includes codecID "utf8")
               textTracks
       end in
  let hasAD :=
    existsb
      (fun a =>
         let title := Js.lower (JsLib.orEmpty (Title a)) in
         let serviceKind := Js.lower (JsLib.orEmpty (ServiceKind a)) in
         Js.includes title "ad"
         || Js.includes title "audio description"
         || Js.includes title "commentary"
         || Js.includes serviceKind "audio description"
         || Js.includes serviceKind "visually impaired")
      audioTracks in
  {| hasSDH := hasSDH; hasCC := hasCC; hasAD := hasAD |}.

(** *** [isValidFilename]: lines 18-42 *)

(** Here a string is the list of its UTF-16 code units, which is what
    [length] counts and [charCodeAt] reads; [None] is [null] or
    [undefined]. *)
Definition suspicious (code : Z) : bool :=
  (code <? 32) || (code =? 127) || (code =? 65533)
  || ((128 <=? code) && (code <=? 159)).

Definition suspiciousCount (str : list Z) : Z :=
  Z.of_nat (List.length (filter suspicious str)).

(** [x / y <= 0.05] for whole numbers [0 <= x] and [0 < y] below [2^53].
    The literal [0.05] is the double [7205759403792794 / 2^57], whose
    significand is even, and the next double is [2^-57] above it.  The
    quotient of two whole numbers below [2^53] is rounded to the nearest
    double, ties to even (IEEE 754, which ECMAScript prescribes); so it
    comes out at most that double exactly when the exact quotient is at most
    the midpoint [14411518807585589 / 2^58] of the two. *)
Definition quotientAtMostLiteral_0_05 (x y : Z) : bool :=
  x * 2 ^ 58 <=? y * 14411518807585589.

Definition isValidFilename (str : option (list Z)) : bool :=
  match str with
  | None => false
  | Some units =>
      if Z.of_nat (List.length units) =? 0 then false
      else quotientAtMostLiteral_0_05 (suspiciousCount units)
                                      (Z.of_nat (List.length units))
  end.

End MediaNames.

(** [Array.prototype.sort(comparefn)]: the order it produces is the
    platform's; [comparefn] returns a number, here its sign. *)
Class ArraySort := {
  sort : forall A : Type, (A -> A -> Z) -> list A -> list A
}.

(** [a.localeCompare(b)]: the collation of the platform's locale. *)
Class Collator := { localeCompare : string -> string -> Z }.

Module MediaData.
Import MediaUtils.

Section Data.

(** The numbers of a report, and [String(v)] for a value [v] that is not a
    string, which renders them. *)
Variable number : Type.
Variable String_ : Json number -> string.

Context `{ArraySort} `{Collator}.

(** *** [parseChapters]: lines 362-391 *)

Record ChapterItem := { time : string; name : string }.

(** The part of a menu track that [parseChapters] reads: its [extra]
    object. *)
Record MenuTrack := { extra : option (list (string * Json number)) }.

(** [timeRegex.test(key)]: an underscore and two digits, three times, then
    an underscore and three digits, and nothing else. *)
Definition timeRegex_test (key : string) : bool :=
  match list_ascii_of_string key with
  | [u0; h1; h2; u1; m1; m2; u2; s1; s2; u3; f1; f2; f3] =>
      Ascii.eqb u0 "_" && Js.isDigit h1 && Js.isDigit h2
      && Ascii.eqb u1 "_" && Js.isDigit m1 && Js.isDigit m2
      && Ascii.eqb u2 "_" && Js.isDigit s1 && Js.isDigit s2
      && Ascii.eqb u3 "_" && Js.isDigit f1 && Js.isDigit f2 && Js.isDigit f3
  | _ => false
  end.

(** [s.replace(/_/g, (match, offset) => offset === 8 ? '.' : ':')], from
    the character at [offset] on.  The keys it is applied to have passed
    [timeRegex]: they are ASCII, and an offset counts the same in bytes and
    in UTF-16 units. *)
Fixpoint replaceUnderscores (offset : nat) (s : string) : string :=
  match s with
  | EmptyString => EmptyString
  | String c s' =>
      (if Ascii.eqb c "_"
       then (if Nat.eqb offset 8 then "." else ":")
       else String c EmptyString)
      ++ replaceUnderscores (S offset) s'
  end.

(** The callback of [map], lines 378-389. *)
Definition chapterOf (entry : string * Json number) : ChapterItem :=
  let (key, value) := entry in
  {| time := replaceUnderscores 0 (Js.drop 1 key);
     name := match value with
             | JString s => s
             | _ => String_ value
             end |}.

Definition parseChapters (menuTrack : option MenuTrack) : list ChapterItem :=
  match menuTrack with
  | None => []
  | Some track =>
      match extra track with
      | None => []
      | Some entries =>
          sort ChapterItem
               (fun a b => localeCompare (time a) (time b))
               (map chapterOf
                    (filter (fun entry => timeRegex_test (fst entry)) entries))
      end
  end.

(** *** [removeEmptyStrings]: lines 398-421 *)

(** [newObj[key] = cleanValue] on an object literal: an own property is
    created under every key but ["__proto__"], which is the accessor that
    [Object.prototype] provides. *)
Definition assigns (key : string) : bool := negb (key =? "__proto__")%string.

Fixpoint removeEmptyStrings (obj : Json number) : Json number :=
  match obj with
  | JString s => if (s =? EmptyString)%string then JUndefined else obj
  | JArray items =>
      JArray (filter (fun item => negb (isUndefined item))
                     (map removeEmptyStrings items))
  | JObject props =>
      JObject
        (flat_map
           (fun kv =>
              match kv with
              | (key, value) =>
                  let cleanValue := removeEmptyStrings value in
                  if negb (isUndefined cleanValue) && assigns key
                  then [(key, cleanValue)]
                  else []
              end)
           props)
  | _ => obj
  end.

End Data.

Arguments extra {number} m.

End MediaData.

(* ================================================================== *)
(** ** The analysis service: [app/services/mediainfo.server.ts], which the
       sources hold as [unnamed/part_000], lines 33-233 *)
(* ================================================================== *)

Module MediaInfoServer.

(** Lines 71-77: the [readChunk] callback handed to MediaInfo, the bytes of
    the fetched buffer from [offset], [size] of them at most.  MediaInfo asks
    with whole numbers. *)
Definition readChunk (fileBuffer : list byte) (size offset : Z) : list byte :=
  if offset >=? byteLength fileBuffer then []
  else
    let end_ := Z.min (offset + size) (byteLength fileBuffer) in
    MediaUtils.subarray fileBuffer offset end_.

Record FormatEntry := { type : string; key : string }.

Definition allFormats : list FormatEntry :=
  [ {| type := "object"; key := "json" |};
    {| type := "Text"; key := "text" |};
    {| type := "XML"; key := "xml" |};
    {| type := "HTML"; key := "html" |} ].

(** Lines 79-102: the formats one call generates, in the order it
    generates them. *)
Definition formatsToGenerate (requestedFormats : list string) : list FormatEntry :=
  let shouldGenerateAll :=
    JsLib.arrayIncludes requestedFormats "all"
    || Nat.eqb (List.length requestedFormats) 0 in
  let selected :=
    filter (fun f =>
              shouldGenerateAll
              || JsLib.arrayIncludes requestedFormats (key f)
              || JsLib.arrayIncludes requestedFormats (Js.lower (type f)))
           allFormats in
  if Nat.eqb (List.length selected) 0
  then selected ++ [ {| type := "object"; key := "json" |} ]
  else selected.

(** Lines 186-211, the text view: when the report names no file, a
    [Complete name] line is put into its [General] section, after the
    [Unique ID] line if the section has one, else at its top. *)
Definition completeNameLine (filename : string) : string :=
  "Complete name" ++ "                            " ++ ": " ++ filename.

(** Lines 194-201: the loop that looks for the place, from line [i] on. *)
Fixpoint insertIndexFrom (i : nat) (rest : list string) (insertIndex : nat) : nat :=
  match rest with
  | [] => insertIndex
  | line :: rest' =>
      if Js.startsWith (JsLib.trim line) "Unique ID" then S i
      else if (JsLib.trim line =? EmptyString)%string then insertIndex
      else insertIndexFrom (S i) rest' insertIndex
  end.

Definition withCompleteName (resultStr filename : string) : string :=
  if negb (Js.includes resultStr "Complete name") then
    let lines := Js.split "010" resultStr in
    match JsLib.findIndex
            (fun l => Js.startsWith (JsLib.trim l) "General") lines with
    | Some generalIndex =>
        let insertIndex :=
          insertIndexFrom (generalIndex + 1) (skipn (generalIndex + 1) lines)
                          (generalIndex + 1) in
        JsLib.join (String "010" EmptyString)
                   (JsLib.spliceIn lines insertIndex (completeNameLine filename))
    | None => resultStr
    end
  else resultStr.

End MediaInfoServer.

(* ================================================================== *)
(** ** The request handler: [app/routes/resource.analyze.ts], lines 8-161 *)
(* ================================================================== *)

Module AnalyzeRoute.

Inductive Severity := INFO | WARNING | ERROR.

(** [validationResult.error.flatten().fieldErrors]: the messages for [url]
    and for [format], each an array or missing. *)
Record FieldErrors := {
  url : option (list string);
  format : option (list string)
}.

(** What [analyzeSchema.safeParse] makes of the search parameters; the
    schema is not part of these sources. *)
Inductive SafeParse :=
| Success (url : string) (format : list string)
| Failure (fieldErrors : FieldErrors).

(** The bindings of the worker that the handler reads. *)
Record Env := {
  ENABLE_TURNSTILE : option string;
  TURNSTILE_SECRET_KEY : option string;
  DEV : bool                              (* [import.meta.env.DEV] *)
}.

(** The request, as far as the handler looks at it: two headers, and the
    outcome of parsing its search parameters. *)
Record IncomingRequest := {
  CF_Turnstile_Response : option string;
  CF_Connecting_IP : option string;
  validationResult : SafeParse
}.

Section Handler.

(** The value of [results], which the handler passes on. *)
Variable Results : Type.

(** The remote sides and the analysis service.  [siteverify secret response
    remoteip] is [outcome.success] of the Turnstile verification, or what the
    request or the reading of its answer throws. *)
Variable siteverify : string -> string -> string -> Result bool.
Variable net : MediaFetch.Network.
Variable analyzeMediaBuffer :
  list byte -> option Js.number -> string -> list string -> Result Results.

Context `{UrlParser} `{UriDecoder} `{Inflater}.

(** The body of a response; the request identifier that accompanies an
    error is left out. *)
Inductive Body :=
| errorBody (error : string)
| resultsBody (results : Results).

Record Response := { status : Z; json : Body }.

(** The event handed to [log] in the [finally] block: its severity and the
    [status] of its [httpRequest]. *)
Record LogEvent := { severity : Severity; httpStatus : Z }.

(** What one call does: the response it returns, the event it logs, and the
    requests that [fetchMediaChunk] has issued for it. *)
Record Handled := {
  response : Response;
  logged : LogEvent;
  issued : list MediaFetch.Request
}.

Definition truthyOpt (x : option string) : bool :=
  match x with Some s => Js.truthy s | None => false end.

(** [fieldErrors.url?.[0]] and the like, as a condition of [||]: the first
    message when there is one and it is not empty. *)
Definition firstMessage (messages : option (list string)) : option string :=
  match messages with
  | Some (m :: _) => if Js.truthy m then Some m else None
  | _ => None
  end.

(** Lines 29-89, the Turnstile check: [inr None] lets the request pass,
    [inr (Some m)] answers it with 403 and the message [m], [inl e] is what
    the verification throws. *)
Definition turnstile (env : Env) (request : IncomingRequest)
  : Result (option string) :=
  let turnstileToken := CF_Turnstile_Response request in
  let secretKey :=
    if DEV env then Some "1x00000000000000000000AA"
    else TURNSTILE_SECRET_KEY env in
  if match ENABLE_TURNSTILE env with
     | Some flag => (flag =? "true")%string
     | None => false
     end && truthyOpt secretKey
  then
    if negb (truthyOpt turnstileToken)
    then inr (Some "Security verification is required. Please complete the check.")
    else if (JsLib.orEmpty turnstileToken =? "localhost-mock-token")%string
            || DEV env
    then inr None
    else
      match siteverify (JsLib.orEmpty secretKey) (JsLib.orEmpty turnstileToken)
                       (JsLib.orEmpty (CF_Connecting_IP request)) with
      | inl e => inl e
      | inr success =>
          if negb success
          then inr (Some "Security check failed. Please refresh and try again.")
          else inr None
      end
  else inr None.

(** Lines 129-145, the [catch]: both kinds of [Thrown] are instances of
    [Error]. *)
Definition caught (e : Thrown) (requests : list MediaFetch.Request) : Handled :=
  {| response := {| status := 500; json := errorBody (message e) |};
     logged := {| severity := ERROR; httpStatus := 500 |};
     issued := requests |}.

Definition refused (code : Z) (error : string) : Handled :=
  {| response := {| status := code; json := errorBody error |};
     logged := {| severity := WARNING; httpStatus := code |};
     issued := [] |}.

Definition loader (env : Env) (request : IncomingRequest) : Handled :=
  match turnstile env request with
  | inl e => caught e []
  | inr (Some error) => refused 403 error
  | inr None =>
      match validationResult request with
      | Failure fieldErrors =>
          let serverError :=
            match firstMessage (url fieldErrors) with
            | Some m => m
            | None =>
                match firstMessage (format fieldErrors) with
                | Some m => m
                | None => "The input provided is invalid."
                end
            end in
          refused 400 serverError
      | Success initialUrl requestedFormats =>
          let (w, fetched) :=
            MediaFetch.fetchMediaChunk net initialUrl
              MediaFetch.defaultChunkSize MediaFetch.initialWorld in
          match fetched with
          | inl e => caught e (MediaFetch.requests w)
          | inr chunk =>
              match analyzeMediaBuffer (MediaFetch.buffer chunk)
                      (MediaFetch.fileSize chunk) (MediaFetch.filename chunk)
                      requestedFormats with
              | inl e => caught e (MediaFetch.requests w)
              | inr results =>
                  {| response := {| status := 200; json := resultsBody results |};
                     logged := {| severity := INFO; httpStatus := 200 |};
                     issued := MediaFetch.requests w |}
              end
          end
      end
  end.

End Handler.

Arguments errorBody {Results} error.
Arguments resultsBody {Results} results.
Arguments status {Results} r.
Arguments json {Results} r.
Arguments response {Results} h.
Arguments logged {Results} h.
Arguments issued {Results} h.

End AnalyzeRoute.

(** Stand-ins for the platform's sort and collation. *)
Module MoreFixtures.

(** Insertion sort by the sign of the comparison; stable. *)
Fixpoint insertBy {A} (cmp : A -> A -> Z) (x : A) (l : list A) : list A :=
  match l with
  | [] => [x]
  | y :: l' => if cmp x y <=? 0 then x :: l else y :: insertBy cmp x l'
  end.

Definition insertionSort (A : Type) (cmp : A -> A -> Z) (l : list A) : list A :=
  fold_right (insertBy cmp) [] l.

#[export] Instance arraySort : ArraySort := {| sort := insertionSort |}.

(** Comparison of the bytes, in order. *)
#[export] Instance collator : Collator :=
  {| localeCompare := fun a b =>
       match String.compare a b with Lt => -1 | Eq => 0 | Gt => 1 end |}.

End MoreFixtures.

(* ================================================================== *)
(** ** Vocabulary of the further statements *)
(* ================================================================== *)

(** The probe as the remote side answers it: the requests it takes, the
    method that is recorded, and the response that is inspected. *)
Definition probeOutcome (net : MediaFetch.Network) (targetUrl : string)
  : Result (list MediaFetch.Request * string * MediaFetch.Response) :=
  match net 0%nat (MediaFetch.headRequest targetUrl) with
  | inl e => inl e
  | inr h =>
      if MediaFetch.status h =? 405
      then
        match net 1%nat (MediaFetch.fallbackRequest targetUrl) with
        | inl e => inl e
        | inr g => inr ([MediaFetch.headRequest targetUrl;
                         MediaFetch.fallbackRequest targetUrl], "GET", g)
        end
      else inr ([MediaFetch.headRequest targetUrl], "HEAD", h)
  end.

(** The response announces an HTML page. *)
Definition isHtml (r : MediaFetch.Response) : bool :=
  match MediaFetch.headers r "content-type" with
  | Some ct => Js.includes ct "text/html"
  | None => false
  end.

(** The address the rewrite produces for a file identifier. *)
Definition downloadUrl (fileId : string) : string :=
  "https://drive.usercontent.google.com/download?id="
  ++ fileId ++ "&export=download&confirm=t".

Definition notColon (c : ascii) : bool := negb (Ascii.eqb c ":").

(** The number that a string of decimal digits denotes. *)
Fixpoint decimalFrom (acc : Z) (s : string) : Z :=
  match s with
  | EmptyString => acc
  | String c s' => decimalFrom (10 * acc + (Z.of_N (N_of_ascii c) - 48)) s'
  end.

Definition decimal (s : string) : Z := decimalFrom 0 s.

Definition notSlash (c : ascii) : bool := negb (Ascii.eqb c "/").
Definition notStar (c : ascii) : bool := negb (Ascii.eqb c "*").

(** A [Content-Disposition] value with a plain, quoted file name, and one
    that carries an encoded name before it (RFC 6266). *)
Definition plainDisposition (plain : string) : string :=
  "attachment; filename=" ++ ServerUtils.dq ++ plain ++ ServerUtils.dq.

Definition encodedDisposition (encoded plain : string) : string :=
  "attachment; filename*=UTF-8''" ++ encoded
  ++ "; filename=" ++ ServerUtils.dq ++ plain ++ ServerUtils.dq.

(** A character of a quoted file name: neither a double quote nor a
    semicolon. *)
Definition isPlainNameChar (c : ascii) : bool :=
  negb (Ascii.eqb c (ascii_of_nat 34)) && negb (Ascii.eqb c ";").

(** A server that serves a direct link: 200 to HEAD with a length of
    [size], then the body as one chunk, whatever status [s] the ranged
    answer carries. *)
Definition plainServer (size : string) (s : Z) (content : list byte)
  : MediaFetch.Network :=
  fun k _ =>
    match k with
    | 0%nat => inr {| MediaFetch.status := 200;
                      MediaFetch.headers := headersOf [("content-length", size)];
                      MediaFetch.body := None |}
    | _ => inr {| MediaFetch.status := s;
                  MediaFetch.headers := headersOf [];
                  MediaFetch.body :=
                    Some {| chunks := [content]; ending := Closed |} |}
    end.

(** A server that answers everything with an HTML page and status 404. *)
Definition htmlNotFound : MediaFetch.Response :=
  {| MediaFetch.status := 404;
     MediaFetch.headers := headersOf [("content-type", "text/html; charset=utf-8")];
     MediaFetch.body := None |}.

Definition htmlErrorServer : MediaFetch.Network := fun _ _ => inr htmlNotFound.

(** A server whose body fails at the first read, with the message of a
    truncated deflate stream. *)
Definition bareOk : MediaFetch.Response :=
  {| MediaFetch.status := 200;
     MediaFetch.headers := headersOf [];
     MediaFetch.body := None |}.

Definition brokenBody : MediaFetch.Response :=
  {| MediaFetch.status := 206;
     MediaFetch.headers := headersOf [];
     MediaFetch.body :=
       Some {| chunks := []; ending := Errored "unexpected end of file" |} |}.

Definition failingBodyServer : MediaFetch.Network :=
  fun k _ => match k with 0%nat => inr bareOk | _ => inr brokenBody end.

(** The start of a deflated entry named [a.mkv]: the 30 bytes of the local
    header and the first byte of the name. *)
Definition cutHeaderChunk : list byte :=
  [x50; x4b; x03; x04; x14; x00; x00; x00; x08; x00;
   x00; x00; x00; x00; x00; x00; x00; x00; x02; x00;
   x00; x00; x02; x00; x00; x00; x05; x00; x00; x00;
   x61].

(** A worker without Turnstile, and a request for a file on the worker's
    own host. *)
Definition openEnv : AnalyzeRoute.Env :=
  {| AnalyzeRoute.ENABLE_TURNSTILE := None;
     AnalyzeRoute.TURNSTILE_SECRET_KEY := None;
     AnalyzeRoute.DEV := false |}.

Definition localRequest : AnalyzeRoute.IncomingRequest :=
  {| AnalyzeRoute.CF_Turnstile_Response := None;
     AnalyzeRoute.CF_Connecting_IP := Some "203.0.113.7";
     AnalyzeRoute.validationResult :=
       AnalyzeRoute.Success "http://localhost:3000/a.mkv" ["json"] |}.

(** A response whose [Content-Range] and [Content-Length] disagree. *)
Definition rangedProbe : MediaFetch.Response :=
  {| MediaFetch.status := 206;
     MediaFetch.headers :=
       headersOf [("content-range", "bytes 0-0/12345"); ("content-length", "1")];
     MediaFetch.body := None |}.

(** A field of [n] bytes holding [content], zero-filled. *)
Definition tarField (n : nat) (content : list byte) : list byte :=
  content ++ zeros (n - List.length content).

(** Two blocks of 512 bytes.  The first is the header of a directory [a/]
    whose size field reads [-2000], minus 1024 in octal; the second holds a
    name field filled to its last byte, which is a slash, and zeros. *)
Definition loopingTar : list byte :=
  (tarField 100 (list_byte_of_string "a/")
   ++ zeros 24
   ++ tarField 12 (list_byte_of_string "-2000")
   ++ zeros 20
   ++ ["5"%byte]
   ++ zeros 100
   ++ list_byte_of_string "ustar"
   ++ zeros 250)
  ++ (repeat "d"%byte 99 ++ ["/"%byte]) ++ zeros 412.

Section JsonCleanliness.
Import MediaUtils.
Variable number : Type.

(** Some string of [v], at any depth, is empty. *)
Fixpoint hasEmptyString (v : Json number) : bool :=
  match v with
  | JString s => (s =? EmptyString)%string
  | JArray items => existsb hasEmptyString items
  | JObject props => existsb (fun kv => hasEmptyString (snd kv)) props
  | _ => false
  end.

(** Some array item or property value of [v], at any depth, is
    [undefined]. *)
Fixpoint hasUndefinedInside (v : Json number) : bool :=
  match v with
  | JArray items =>
      existsb (fun x => isUndefined x || hasUndefinedInside x) items
  | JObject props =>
      existsb (fun kv => isUndefined (snd kv) || hasUndefinedInside (snd kv))
              props
  | _ => false
  end.

(** Some object of [v], at any depth, has an own property [__proto__]. *)
Fixpoint hasProtoKey (v : Json number) : bool :=
  match v with
  | JArray items => existsb hasProtoKey items
  | JObject props =>
      existsb (fun kv => (fst kv =? "__proto__")%string || hasProtoKey (snd kv))
              props
  | _ => false
  end.

End JsonCleanliness.

Arguments hasEmptyString {number} v.
Arguments hasUndefinedInside {number} v.
Arguments hasProtoKey {number} v.

(** The [extra] object of a menu track as MediaInfo reports it: two
    chapters out of order, and a field that is none. *)
Definition sampleMenu : MediaData.MenuTrack Z :=
  {| MediaData.extra :=
       Some [("_00_05_30_000", MediaUtils.JString "Second");
             ("Chapters_Pos_Begin", MediaUtils.JNumber 100);
             ("_00_00_00_000", MediaUtils.JString "First")] |}.

(** [String(v)] for the examples: numbers in decimal. *)
Definition renderZ (v : MediaUtils.Json Z) : string :=
  match v with
  | MediaUtils.JNumber n => Js.numberToString (Js.Num n)
  | _ => EmptyString
  end.

(** The shape [dd:dd:dd.ddd] of a chapter time. *)
Definition isTimestamp (t : string) : bool :=
  match list_ascii_of_string t with
  | [h1; h2; c1; m1; m2; c2; s1; s2; p; f1; f2; f3] =>
      Js.isDigit h1 && Js.isDigit h2 && Ascii.eqb c1 ":"
      && Js.isDigit m1 && Js.isDigit m2 && Ascii.eqb c2 ":"
      && Js.isDigit s1 && Js.isDigit s2 && Ascii.eqb p "."
      && Js.isDigit f1 && Js.isDigit f2 && Js.isDigit f3
  | _ => false
  end.

(** The digits of a string, in order. *)
Fixpoint digitsOf (s : string) : string :=
  match s with
  | EmptyString => EmptyString
  | String c s' => if Js.isDigit c then String c (digitsOf s') else digitsOf s'
  end.

(* ================================================================== *)
(** * Properties *)
(* ================================================================== *)

(** ** Strings *)

Section StringFacts.

Lemma append_nil_r (s : string) : s ++ EmptyString = s.
Proof. induction s as [|c s IH]; simpl; [reflexivity | now rewrite IH]. Qed.

Lemma append_assoc (a b c : string) : (a ++ b) ++ c = a ++ (b ++ c).
Proof. induction a as [|x a IH]; simpl; [reflexivity | now rewrite IH]. Qed.

Lemma prefix_true_iff (p s : string) :
  String.prefix p s = true <-> exists r, s = p ++ r.
Proof.
  revert s; induction p as [|c p IH]; intros s.
  - split; [intros _; exists s; reflexivity | intros _; now destruct s].
  - destruct s as [|d s]; simpl.
    + split; [discriminate | intros [r Hr]; discriminate].
    + destruct (ascii_dec c d) as [->|Hcd].
      * rewrite IH. split; intros [r Hr]; exists r; [now rewrite Hr | now inversion Hr].
      * split; [discriminate | intros [r Hr]; inversion Hr; congruence].
Qed.

Lemma prefix_append (p r : string) : String.prefix p (p ++ r) = true.
Proof. apply prefix_true_iff; now exists r. Qed.

Lemma drop_append (p r : string) : Js.drop (String.length p) (p ++ r) = r.
Proof. induction p as [|c p IH]; simpl; [now destruct r | exact IH]. Qed.

(** [Js.leftmost] finds a suffix on which the attempt succeeds, and fails
    only when the attempt fails on every suffix. *)
Lemma leftmost_Some {A} (f : string -> option A) (s : string) (r : A) :
  Js.leftmost f s = Some r ->
  exists pre post, s = pre ++ post /\ f post = Some r.
Proof.
  induction s as [|c s IH]; simpl.
  - destruct (f EmptyString) eqn:E; [|discriminate].
    intros [= ->]. now exists EmptyString, EmptyString.
  - destruct (f (String c s)) eqn:E.
    + intros [= ->]. now exists EmptyString, (String c s).
    + intros H. destruct (IH H) as (pre & post & -> & Hf).
      now exists (String c pre), post.
Qed.

Lemma leftmost_None {A} (f : string -> option A) (s : string) :
  Js.leftmost f s = None <->
  forall pre post, s = pre ++ post -> f post = None.
Proof.
  induction s as [|c s IH]; simpl.
  - destruct (f EmptyString) eqn:E.
    + split; [discriminate|]. intros H. rewrite (H EmptyString EmptyString eq_refl) in E. discriminate.
    + split; [|reflexivity]. intros _ pre post Hs.
      destruct pre; [|discriminate]. simpl in Hs. now subst.
  - destruct (f (String c s)) eqn:E.
    + split; [discriminate|]. intros H.
      rewrite (H EmptyString (String c s) eq_refl) in E. discriminate.
    + rewrite IH. split.
      * intros H [|d pre] post Hs; simpl in Hs.
        -- now subst.
        -- inversion Hs; subst. now apply (H pre).
      * intros H pre post ->. now apply (H (String c pre)).
Qed.

(** [s.includes(p)] holds exactly when [p] occurs in [s]. *)
Lemma includes_unfold (s p : string) :
  Js.includes s p =
  if String.prefix p s then true
  else match s with
       | EmptyString => false
       | String _ s' => Js.includes s' p
       end.
Proof. destruct s; reflexivity. Qed.

Lemma includes_true_iff (s p : string) : Js.includes s p = true <-> Occurs p s.
Proof.
  induction s as [|c s IH]; rewrite includes_unfold.
  - destruct (String.prefix p EmptyString) eqn:E.
    + split; [|reflexivity]. intros _. apply prefix_true_iff in E as [r Hr].
      now exists EmptyString, r.
    + split; [discriminate|]. intros ([|d pre] & post & Hs); [|discriminate].
      simpl in Hs. assert (String.prefix p EmptyString = true)
        by (apply prefix_true_iff; now exists post). congruence.
  - destruct (String.prefix p (String c s)) eqn:E.
    + split; [|reflexivity]. intros _. apply prefix_true_iff in E as [r Hr].
      now exists EmptyString, r.
    + rewrite IH. split.
      * intros (pre & post & ->). now exists (String c pre), post.
      * intros ([|d pre] & post & Hs); simpl in Hs.
        -- assert (String.prefix p (String c s) = true)
             by (apply prefix_true_iff; now exists post). congruence.
        -- inversion Hs; subst. now exists pre, post.
Qed.

(** A greedy class repetition stops exactly where the class stops. *)
Lemma span_stops (p : ascii -> bool) (a rest : string) :
  allChars p a = true ->
  match rest with EmptyString => True | String c _ => p c = false end ->
  Js.span p (a ++ rest) = (a, rest).
Proof.
  intros Ha Hrest. induction a as [|c a IH]; simpl in *.
  - destruct rest as [|d rest]; [reflexivity | cbn [Js.span]; now rewrite Hrest].
  - apply andb_true_iff in Ha as [Hc Ha]. cbn [Js.span]. now rewrite Hc, (IH Ha).
Qed.

End StringFacts.

(** ** URL guard *)

(** Decides a goal on a cascade of tests whose every open branch ends alike. *)
Ltac settle_ifs :=
  repeat match goal with
         | |- context [if ?b then _ else _] => destruct b; [reflexivity|]
         end;
  try reflexivity.

Section UrlGuard.
Context `{UrlParser}.

(** C5.  [validateUrl] throws the invalid-URL error for every URL whose
    hostname is one of 127.0.0.1, localhost, 10.1.2.3, 192.168.0.5,
    172.20.0.1, 169.254.169.254 and metadata.google.internal, and returns
    normally when the hostname is 172.15.0.1 or 172.32.0.1. *)
Theorem validateUrl_listed_hosts (u host : string) :
  URL_hostname u = Some host ->
  (In host refusedExamples -> isInvalidURL (ServerUtils.validateUrl u) = true)
  /\ (In host allowedExamples -> ServerUtils.validateUrl u = inr tt).
Proof.
  intros Hhost. unfold ServerUtils.validateUrl. rewrite Hhost.
  split; intros Hin; simpl in Hin;
    repeat (destruct Hin as [<- | Hin]; [reflexivity|]); contradiction.
Qed.

End UrlGuard.

Lemma validateUrl_listed_hosts_witness :
  isInvalidURL (@ServerUtils.validateUrl Fixtures.urlParser
                  "http://169.254.169.254/latest/meta-data") = true
  /\ @ServerUtils.validateUrl Fixtures.urlParser "https://172.32.0.1/a.mkv"
     = inr tt.
Proof.
  split.
  - apply (@validateUrl_listed_hosts Fixtures.urlParser
             "http://169.254.169.254/latest/meta-data" "169.254.169.254");
      [reflexivity | simpl; tauto].
  - apply (@validateUrl_listed_hosts Fixtures.urlParser
             "https://172.32.0.1/a.mkv" "172.32.0.1");
      [reflexivity | simpl; tauto].
Defined.

(** The ranges that both listings of [validateUrl] refuse. *)
Lemma validateHost_private_ranges (host : string) :
  Js.startsWith host "10." = true
  \/ Js.startsWith host "192.168." = true
  \/ (Js.startsWith host "172." = true
      /\ exists n, secondOctet host = Js.Num n /\ 16 <= n <= 31)
  \/ host = "::1" ->
  isInvalidURL (ServerUtils.validateHost host) = true
  /\ isInvalidURL (ServerUtilsListing2.validateHost host) = true.
Proof.
  unfold ServerUtils.validateHost, ServerUtilsListing2.validateHost.
  fold (secondOctet host).
  intros [H10 | [H192 | [[H172 (n & Hn & Hlo & Hhi)] | ->]]].
  - rewrite H10. cbn [orb]. split; settle_ifs.
  - rewrite H192, !orb_true_r. cbn [orb]. split; settle_ifs.
  - rewrite H172, Hn. cbn [Js.isNaN Js.geb Js.leb negb].
    replace (16 <=? n) with true by (symmetry; apply Z.leb_le; lia).
    replace (n <=? 31) with true by (symmetry; apply Z.leb_le; lia).
    cbn [andb]. rewrite !orb_true_r. split; settle_ifs.
  - split; reflexivity.
Qed.

(** The two tests that only the second listing makes: the link-local prefix
    and the bracketed loopback literal, which is how [URL.hostname] spells an
    IPv6 address. *)
Lemma validateHost_listing2_link_local (host : string) :
  Js.startsWith host "169.254." = true \/ host = "[::1]" ->
  isInvalidURL (ServerUtilsListing2.validateHost host) = true.
Proof.
  unfold ServerUtilsListing2.validateHost. intros [H | ->]; [|reflexivity].
  rewrite H, !orb_true_r. cbn [orb]. settle_ifs.
Qed.

(** C6.  On a link-local host other than the metadata address, and on the
    bracketed IPv6 loopback literal, the [validateHost] of
    [app/lib/server-utils.ts] returns normally, where the second listing
    throws. *)
Theorem validateHost_link_local_passes :
  ServerUtils.validateHost "169.254.10.10" = inr tt
  /\ ServerUtils.validateHost "[::1]" = inr tt
  /\ isInvalidURL (ServerUtilsListing2.validateHost "169.254.10.10") = true
  /\ isInvalidURL (ServerUtilsListing2.validateHost "[::1]") = true.
Proof. repeat split. Qed.

(** *** The Google Drive rewrite *)

Lemma span_spec (p : ascii -> bool) (s a b : string) :
  Js.span p s = (a, b) -> s = a ++ b /\ allChars p a = true.
Proof.
  revert a b; induction s as [|c s IH]; intros a b; cbn [Js.span].
  - intros [= <- <-]. now split.
  - destruct (p c) eqn:Hc.
    + destruct (Js.span p s) as [a' b'] eqn:E. intros [= <- <-].
      destruct (IH a' b' eq_refl) as [-> Ha]. split; [reflexivity|].
      cbn [allChars]. now rewrite Hc.
    + intros [= <- <-]. now split.
Qed.

Lemma matchHere_sound (s id : string) :
  ServerUtils.matchHere s = Some id ->
  exists post,
    s = ServerUtils.GOOGLE_DRIVE_PREFIX ++ id ++ "/view" ++ post
    /\ id <> EmptyString /\ allChars ServerUtils.isIdChar id = true.
Proof.
  unfold ServerUtils.matchHere.
  destruct (String.prefix ServerUtils.GOOGLE_DRIVE_PREFIX s) eqn:Hp; [|discriminate].
  apply prefix_true_iff in Hp as [r ->]. rewrite drop_append.
  destruct (Js.span ServerUtils.isIdChar r) as [a b] eqn:E.
  apply span_spec in E as [-> Ha].
  destruct a as [|c a]; [discriminate|].
  destruct (String.prefix "/view" b) eqn:Hv; [|discriminate].
  apply prefix_true_iff in Hv as [post ->]. intros [= <-].
  exists post. repeat split; [discriminate | exact Ha].
Qed.

Lemma matchHere_complete (id post : string) :
  id <> EmptyString -> allChars ServerUtils.isIdChar id = true ->
  ServerUtils.matchHere
    (ServerUtils.GOOGLE_DRIVE_PREFIX ++ id ++ "/view" ++ post) = Some id.
Proof.
  intros Hne Hid. unfold ServerUtils.matchHere.
  rewrite prefix_append, drop_append.
  rewrite (span_stops ServerUtils.isIdChar id ("/view" ++ post) Hid)
    by reflexivity.
  destruct id as [|c id]; [contradiction|].
  now rewrite prefix_append.
Qed.

(** The matcher fails exactly on the strings the pattern does not match. *)
Lemma GOOGLE_DRIVE_REGEX_exec_None (u : string) :
  ServerUtils.GOOGLE_DRIVE_REGEX_exec u = None <-> ~ MatchesViewLink u.
Proof.
  unfold ServerUtils.GOOGLE_DRIVE_REGEX_exec. rewrite leftmost_None. split.
  - intros Hnone (pre & id & post & -> & Hne & Hid).
    specialize (Hnone pre _ eq_refl).
    rewrite (matchHere_complete id post Hne Hid) in Hnone. discriminate.
  - intros Hno pre post ->.
    destruct (ServerUtils.matchHere post) as [id|] eqn:E; [|reflexivity].
    exfalso. apply Hno. apply matchHere_sound in E as (post' & -> & Hne & Hid).
    now exists pre, id, post'.
Qed.

(** C7.  The view link of file ABC123 is rewritten into a URL that contains
    [id=ABC123], flagged as the special provider; a URL that neither matches
    the view-link pattern nor contains the direct-download host is returned
    unchanged and not flagged. *)
Theorem resolveGoogleDriveUrl_spec :
  (let r := ServerUtils.resolveGoogleDriveUrl
              "https://drive.google.com/file/d/ABC123/view" in
   Occurs "id=ABC123" (ServerUtils.url r)
   /\ ServerUtils.isGoogleDrive r = true)
  /\ (forall u : string,
        ~ MatchesViewLink u ->
        ~ Occurs "drive.usercontent.google.com" u ->
        ServerUtils.resolveGoogleDriveUrl u
        = {| ServerUtils.url := u; ServerUtils.isGoogleDrive := false |}).
Proof.
  split.
  - split; [|reflexivity].
    now exists "https://drive.usercontent.google.com/download?",
               "&export=download&confirm=t".
  - intros u Hview Hhost. unfold ServerUtils.resolveGoogleDriveUrl.
    apply GOOGLE_DRIVE_REGEX_exec_None in Hview. rewrite Hview.
    destruct (Js.includes u "drive.usercontent.google.com") eqn:E;
      [|reflexivity].
    apply includes_true_iff in E. contradiction.
Qed.

Lemma resolveGoogleDriveUrl_spec_witness :
  ServerUtils.resolveGoogleDriveUrl "https://media.w3.org/2010/05/sintel/trailer.mp4"
  = {| ServerUtils.url := "https://media.w3.org/2010/05/sintel/trailer.mp4";
       ServerUtils.isGoogleDrive := false |}.
Proof.
  apply (proj2 resolveGoogleDriveUrl_spec).
  - apply GOOGLE_DRIVE_REGEX_exec_None. vm_compute. reflexivity.
  - intros Hocc. apply includes_true_iff in Hocc. vm_compute in Hocc.
    discriminate.
Defined.

(** ** The bounded copy *)

Section BoundedCopy.
Import MediaFetch.
Local Open Scope list_scope.

Lemma SAFE_LIMIT_value : SAFE_LIMIT = 10485760.
Proof. reflexivity. Qed.

Lemma gtb_true (n m : Z) : m < n -> (n >? m) = true.
Proof. intros H. rewrite Z.gtb_ltb. now apply Z.ltb_lt. Qed.

Lemma gtb_false (n m : Z) : n <= m -> (n >? m) = false.
Proof. intros H. rewrite Z.gtb_ltb. now apply Z.ltb_ge. Qed.

Lemma gtb_lt_iff (n m : Z) : (n >? m) = true <-> m < n.
Proof. rewrite Z.gtb_ltb. apply Z.ltb_lt. Qed.

Lemma gtb_ge_iff (n m : Z) : (n >? m) = false <-> n <= m.
Proof. rewrite Z.gtb_ltb. apply Z.ltb_ge. Qed.

Lemma byteLength_nonneg (c : list byte) : 0 <= byteLength c.
Proof. unfold byteLength. lia. Qed.

Lemma byteLength_app (a b : list byte) :
  byteLength (a ++ b) = byteLength a + byteLength b.
Proof. unfold byteLength. rewrite length_app. lia. Qed.

Lemma totalLength_cons (v : list byte) (vs : list (list byte)) :
  totalLength (v :: vs) = byteLength v + totalLength vs.
Proof. unfold totalLength. cbn [List.concat]. apply byteLength_app. Qed.

Lemma totalLength_nonneg (vs : list (list byte)) : 0 <= totalLength vs.
Proof. apply byteLength_nonneg. Qed.

Lemma takeZ_firstn {A} (n : Z) (l : list A) : takeZ n l = firstn (Z.to_nat n) l.
Proof.
  revert n; induction l as [|x l IH]; intros n; cbn [takeZ].
  - now rewrite firstn_nil.
  - destruct (0 <? n) eqn:E.
    + apply Z.ltb_lt in E. rewrite IH.
      replace (Z.to_nat n) with (S (Z.to_nat (n - 1))) by lia. reflexivity.
    + apply Z.ltb_ge in E. replace (Z.to_nat n) with 0%nat by lia. reflexivity.
Qed.

Lemma dropZ_skipn {A} (n : Z) (l : list A) : dropZ n l = skipn (Z.to_nat n) l.
Proof.
  revert n; induction l as [|x l IH]; intros n; cbn [dropZ].
  - now rewrite skipn_nil.
  - destruct (0 <? n) eqn:E.
    + apply Z.ltb_lt in E. rewrite IH.
      replace (Z.to_nat n) with (S (Z.to_nat (n - 1))) by lia. reflexivity.
    + apply Z.ltb_ge in E. replace (Z.to_nat n) with 0%nat by lia. reflexivity.
Qed.

Lemma takeZ_fits (n : Z) (a : list byte) : byteLength a <= n -> takeZ n a = a.
Proof.
  unfold byteLength. intros Hfit. rewrite takeZ_firstn. apply firstn_all2. lia.
Qed.

Lemma takeZ_app_fits (n : Z) (a b : list byte) :
  n <= byteLength a -> takeZ n (a ++ b) = takeZ n a.
Proof.
  unfold byteLength. intros Hfit. rewrite !takeZ_firstn, firstn_app.
  replace (Z.to_nat n - List.length a)%nat with 0%nat by lia.
  cbn [firstn]. apply app_nil_r.
Qed.

Lemma takeZ_app_overflow (n : Z) (a v rest : list byte) :
  byteLength a <= n -> n - byteLength a < byteLength v ->
  takeZ n (a ++ v ++ rest) = a ++ takeZ (n - byteLength a) v.
Proof.
  unfold byteLength. intros Ha Hv.
  rewrite !takeZ_firstn, firstn_app, firstn_all2 by lia. f_equal.
  replace (Z.to_nat n - List.length a)%nat
    with (Z.to_nat (n - Z.of_nat (List.length a))) by lia.
  rewrite firstn_app.
  replace (Z.to_nat (n - Z.of_nat (List.length a)) - List.length v)%nat
    with 0%nat by lia.
  cbn [firstn]. apply app_nil_r.
Qed.

Lemma byteLength_takeZ (n : Z) (a : list byte) :
  0 <= n -> byteLength (takeZ n a) = Z.min n (byteLength a).
Proof.
  unfold byteLength. intros Hn. rewrite takeZ_firstn, length_firstn. lia.
Qed.

Lemma byteLength_dropZ (n : Z) (a : list byte) :
  0 <= n -> byteLength (dropZ n a) = Z.max 0 (byteLength a - n).
Proof.
  unfold byteLength. intros Hn. rewrite dropZ_skipn, length_skipn. lia.
Qed.

(** The loop of lines 241-256, from a buffer that is not over the limit:
    it leaves the first [SAFE_LIMIT] bytes of what it was fed, cancels when
    it was fed more, and otherwise meets the ending of the stream. *)
Lemma readRest_spec (values : list (list byte)) (e : Ending) :
  forall buf : list byte,
    byteLength buf <= SAFE_LIMIT ->
    readRest buf values e
    = {| written := takeZ SAFE_LIMIT (buf ++ List.concat values);
         didCancel := byteLength buf + totalLength values >? SAFE_LIMIT;
         failure := if byteLength buf + totalLength values >? SAFE_LIMIT
                    then None else endingError e |}.
Proof.
  induction values as [|v values IH]; intros buf Hbuf; cbn [readRest List.concat].
  - unfold totalLength; cbn [List.concat]. change (byteLength []) with 0.
    rewrite app_nil_r, takeZ_fits by assumption.
    rewrite gtb_false by lia. now destruct e.
  - rewrite totalLength_cons. pose proof (totalLength_nonneg values) as Hnn.
    destruct (byteLength v >? SAFE_LIMIT - byteLength buf) eqn:Hv.
    + apply gtb_lt_iff in Hv. rewrite gtb_true by lia.
      unfold subarrayTo. now rewrite takeZ_app_overflow by lia.
    + apply gtb_ge_iff in Hv.
      rewrite IH by (rewrite byteLength_app; lia).
      rewrite byteLength_app, <- app_assoc, Z.add_assoc. reflexivity.
Qed.

(** *** Reading the local file header *)

Lemma u8_range (c : list byte) (i : nat) : 0 <= u8 c i < 256.
Proof.
  unfold u8. destruct (nth_error c i) as [b|]; [|lia].
  pose proof (Byte.to_N_bounded b). lia.
Qed.

Lemma land_shiftl8 (a b : Z) : 0 <= a < 256 -> Z.land a (Z.shiftl b 8) = 0.
Proof.
  intros Ha. apply Z.bits_inj'; intros n Hn.
  rewrite Z.land_spec, Z.bits_0.
  destruct (Z.lt_ge_cases n 8) as [Hlt|Hge].
  - rewrite Z.shiftl_spec_low by lia. apply andb_false_r.
  - destruct (Z.eq_dec a 0) as [->|Hne]; [now rewrite Z.bits_0|].
    rewrite (Z.bits_above_log2 a n); [reflexivity | lia |].
    assert (Z.log2 a < 8) by (apply Z.log2_lt_pow2; lia). lia.
Qed.

Lemma lor_shiftl8 (a b : Z) :
  0 <= a < 256 -> Z.lor a (Z.shiftl b 8) = a + 256 * b.
Proof.
  intros Ha.
  rewrite <- Z.lxor_lor, <- Z.add_nocarry_lxor by now apply land_shiftl8.
  rewrite Z.shiftl_mul_pow2 by lia. change (2 ^ 8) with 256. lia.
Qed.

Lemma u16le_range (c : list byte) (i : nat) : 0 <= u16le c i < 65536.
Proof.
  unfold u16le. pose proof (u8_range c i). pose proof (u8_range c (S i)). lia.
Qed.

(** [c[i] | (c[i + 1] << 8)] is the little-endian 16-bit number at [i]. *)
Lemma compressionMethod_u16le (c : list byte) :
  compressionMethod c = u16le c 8.
Proof. unfold compressionMethod, u16le. apply lor_shiftl8, u8_range. Qed.

Lemma dataOffset_u16le (c : list byte) :
  dataOffset c = 30 + u16le c 26 + u16le c 28.
Proof.
  unfold dataOffset, u16le. now rewrite !lor_shiftl8 by apply u8_range.
Qed.

Lemma dataOffset_bound (c : list byte) : 30 <= dataOffset c <= 131100.
Proof.
  rewrite dataOffset_u16le. unfold u16le.
  pose proof (u8_range c 26). pose proof (u8_range c 27).
  pose proof (u8_range c 28). pose proof (u8_range c 29). lia.
Qed.

Section Plans.
Context `{Inflater}.

Lemma plan_ok (first : option (list byte)) (reader : Stream) :
  PlanOK (plan first reader).
Proof.
  unfold PlanOK, plan. destruct first as [fc|]; [|discriminate].
  destruct (hasZipSignature fc); [|discriminate].
  destruct (compressionMethod fc =? 8); [|discriminate].
  destruct (byteLength fc >? dataOffset fc) eqn:E; [discriminate|].
  cbn [isZipCompressed firstChunk]. intros _ fc' [= <-]. apply gtb_ge_iff in E.
  pose proof (dataOffset_bound fc). pose proof SAFE_LIMIT_value. lia.
Qed.

End Plans.

(** *** The body of the [try] *)

(** Lines 220-257 as a whole: the buffer holds the first [SAFE_LIMIT] bytes
    of what the loop is fed; [cancel()] is called exactly when more than
    [SAFE_LIMIT] bytes are fed and the first chunk is not [SAFE_LIMIT] bytes
    to the byte; and the ending of the stream is met only when neither
    happens. *)
Lemma copy_spec (p : Plan) :
  PlanOK p ->
  copy p
  = {| written := takeZ SAFE_LIMIT (List.concat (pending p));
       didCancel := (totalLength (pending p) >? SAFE_LIMIT) && negb (firstExact p);
       failure := if (totalLength (pending p) >? SAFE_LIMIT) || firstExact p
                  then None
                  else endingError (ending (finalReader p)) |}.
Proof.
  intros Hok. unfold copy, pending, firstExact, offset.
  pose proof SAFE_LIMIT_value as HL.
  pose proof (totalLength_nonneg (chunks (finalReader p))) as Hnn.
  destruct (firstChunk p) as [fc|] eqn:Hfc.
  - cbn [app]. rewrite totalLength_cons. cbn [List.concat].
    rewrite Z.sub_0_r.
    destruct (byteLength fc >? SAFE_LIMIT) eqn:Hbig.
    + apply gtb_lt_iff in Hbig. cbn [written didCancel failure].
      unfold subarrayTo.
      rewrite byteLength_takeZ, Z.min_l by lia.
      rewrite Z.ltb_irrefl.
      rewrite gtb_true by lia.
      replace (byteLength fc =? SAFE_LIMIT) with false
        by (symmetry; apply Z.eqb_neq; lia).
      cbn [negb andb orb].
      destruct (isZipCompressed p) eqn:Hzip.
      * specialize (Hok Hzip fc Hfc). lia.
      * f_equal. symmetry. apply takeZ_app_fits. lia.
    + apply gtb_ge_iff in Hbig. cbn [written didCancel failure].
      destruct (byteLength fc <? SAFE_LIMIT) eqn:Hlt.
      * apply Z.ltb_lt in Hlt. rewrite readRest_spec by lia.
        cbn [written didCancel failure].
        replace (byteLength fc =? SAFE_LIMIT) with false
          by (symmetry; apply Z.eqb_neq; lia).
        now rewrite andb_true_r, orb_false_r.
      * apply Z.ltb_ge in Hlt.
        replace (byteLength fc =? SAFE_LIMIT) with true
          by (symmetry; apply Z.eqb_eq; lia).
        rewrite andb_false_r, orb_true_r. f_equal.
        rewrite takeZ_app_fits by lia. symmetry. apply takeZ_fits. lia.
  - cbn [app written didCancel failure]. change (byteLength []) with 0.
    replace (0 <? SAFE_LIMIT) with true by (symmetry; apply Z.ltb_lt; lia).
    rewrite readRest_spec by (change (byteLength []) with 0; lia).
    change (byteLength []) with 0. cbn [app written didCancel failure].
    now rewrite andb_true_r, orb_false_r.
Qed.

(** *** The [catch] *)

Lemma settle_inr (c : Copied) (buf : list byte) :
  settle c = inr buf -> buf = written c.
Proof.
  unfold settle. destruct (failure c) as [m|].
  - destruct (_ && _); [|discriminate]. intros [= <-]. reflexivity.
  - intros [= <-]. reflexivity.
Qed.

Lemma settle_no_failure (c : Copied) :
  failure c = None -> settle c = inr (written c).
Proof. unfold settle. intros ->. reflexivity. Qed.

(** *** The cap *)

Section Cap.
Context `{Inflater}.

Lemma readBody_inr (bodyStream : Stream) (c : Copied) (p : Plan) :
  readBody bodyStream = inr (c, p) ->
  c = copy p /\ PlanOK p
  /\ (unwrapped p = false -> pending p = chunks bodyStream).
Proof.
  unfold readBody.
  destruct (readFirst bodyStream) as [err|[first reader]] eqn:E; [discriminate|].
  intros [= <- <-]. split; [reflexivity|]. split; [apply plan_ok|].
  unfold readFirst in E. destruct bodyStream as [[|v rest] e]; cbn [chunks ending] in *.
  - destruct e; [|discriminate]. injection E as <- <-. reflexivity.
  - injection E as <- <-. unfold plan, pending, unwrapped.
    destruct (hasZipSignature v); [|reflexivity].
    destruct (compressionMethod v =? 8); [|reflexivity].
    destruct (byteLength v >? dataOffset v); [discriminate | reflexivity].
Qed.

(** After an unwrap the copy loop is fed the output of the decompressor,
    which was given the first chunk past the local header and then the later
    chunks. *)
Lemma readBody_unwrapped (bodyStream : Stream) (c : Copied) (p : Plan) :
  readBody bodyStream = inr (c, p) ->
  unwrapped p = true ->
  exists fc rest,
    chunks bodyStream = fc :: rest
    /\ pending p
       = chunks (inflateRaw (compressedPayload fc rest (ending bodyStream))).
Proof.
  unfold readBody.
  destruct (readFirst bodyStream) as [err|[first reader]] eqn:E; [discriminate|].
  intros [= _ <-]. unfold readFirst in E.
  destruct bodyStream as [[|v rest] e]; cbn [chunks ending] in *.
  - destruct e; [|discriminate]. injection E as <- <-. discriminate.
  - injection E as <- <-. unfold plan, pending, unwrapped.
    destruct (hasZipSignature v); [|discriminate].
    destruct (compressionMethod v =? 8); [|discriminate].
    destruct (byteLength v >? dataOffset v) eqn:Hdata; [|discriminate].
    intros _. exists v, rest. split; [reflexivity|].
    cbn [firstChunk finalReader app]. do 2 f_equal.
    unfold rawCompressedStream, compressedPayload, subarrayFrom.
    apply gtb_lt_iff in Hdata. pose proof (dataOffset_bound v).
    rewrite gtb_true by (rewrite byteLength_dropZ; lia).
    now rewrite dataOffset_u16le.
Qed.

(** C1 (amended).  The bytes written never exceed [SAFE_LIMIT], and the
    buffer that is returned holds the bytes written.  When the chunks fed to
    the copy loop (the body chunks, or the output of the decompressor after a
    ZIP unwrap) amount to [SAFE_LIMIT] bytes or more, the buffer is exactly
    their first [SAFE_LIMIT] bytes; when they amount to more, the call
    returns that buffer whatever the rest of the stream holds: the remaining
    input is discarded.  For a body whose first chunk does not fill the
    buffer to the byte: when the chunks amount to more than [SAFE_LIMIT], the
    reader is cancelled; when they amount to [SAFE_LIMIT] exactly, no cancel
    is issued and the stream is read on to its ending.  Whether the reader is
    cancelled, or read again, after a first chunk of [SAFE_LIMIT] bytes to
    the byte is not part of the statement. *)
Theorem bounded_copy (bodyStream : Stream) (c : Copied) (p : Plan) :
  readBody bodyStream = inr (c, p) ->
  byteLength (written c) <= SAFE_LIMIT
  /\ (forall buf, settle c = inr buf -> buf = written c)
  /\ (unwrapped p = false -> pending p = chunks bodyStream)
  /\ (unwrapped p = true ->
      exists fc rest,
        chunks bodyStream = fc :: rest
        /\ pending p
           = chunks (inflateRaw (compressedPayload fc rest (ending bodyStream))))
  /\ (SAFE_LIMIT <= totalLength (pending p) ->
      written c = takeZ SAFE_LIMIT (List.concat (pending p))
      /\ offset c = SAFE_LIMIT)
  /\ (SAFE_LIMIT < totalLength (pending p) -> settle c = inr (written c))
  /\ (firstExact p = false ->
      (SAFE_LIMIT < totalLength (pending p) -> didCancel c = true)
      /\ (totalLength (pending p) = SAFE_LIMIT ->
          didCancel c = false
          /\ failure c = endingError (ending (finalReader p)))).
Proof.
  intros Hread. pose proof (readBody_unwrapped _ _ _ Hread) as Hunwrapped.
  apply readBody_inr in Hread as (-> & Hok & Hplain).
  split; [|split; [intros buf Hbuf; exact (settle_inr _ _ Hbuf)|]].
  all: rewrite (copy_spec p Hok); unfold offset, settle;
    cbn [written didCancel failure];
    pose proof SAFE_LIMIT_value as HL;
    assert (Hlen : byteLength (takeZ SAFE_LIMIT (List.concat (pending p)))
                   = Z.min SAFE_LIMIT (totalLength (pending p)))
      by (apply byteLength_takeZ; lia);
    rewrite ?Hlen.
  - lia.
  - split; [exact Hplain|]. split; [exact Hunwrapped|]. split; [|split].
    + intros Hfull. split; [reflexivity | lia].
    + intros Hover. now rewrite gtb_true by lia.
    + intros Hfirst. split.
      * intros Hover. now rewrite gtb_true, Hfirst by lia.
      * intros Hfull. rewrite gtb_false, Hfirst by lia. now split.
Qed.

(** C4.  When a read fails in the copy loop with message [m], after chunks
    that all fitted (the first of them short of [SAFE_LIMIT], or the loop is
    not entered), every byte that was fed is in the buffer, and the call
    returns these bytes exactly when there is at least one of them and [m]
    contains ["incomplete data"] or ["unexpected end of file"]; in every other
    case, and so whenever no byte was fed, it throws an error whose message
    is ["Stream reading failed: "] followed by [m]. *)
Theorem stream_failure_handling (p : Plan) (m : string) :
  PlanOK p ->
  ending (finalReader p) = Errored m ->
  totalLength (pending p) <= SAFE_LIMIT ->
  firstExact p = false ->
  let c := copy p in
  let expected :=
    Occurs "incomplete data" m \/ Occurs "unexpected end of file" m in
  failure c = Some m
  /\ written c = List.concat (pending p)
  /\ offset c = totalLength (pending p)
  /\ (settle c = inr (List.concat (pending p))
      <-> 0 < totalLength (pending p) /\ expected)
  /\ (~ (0 < totalLength (pending p) /\ expected) ->
      settle c = inl (Error ("Stream reading failed: " ++ m)%string)
      /\ Js.startsWith (message (Error ("Stream reading failed: " ++ m)%string))
                       "Stream reading failed: " = true).
Proof.
  intros Hok Hend Hfit Hexact c expected. subst c expected.
  rewrite (copy_spec p Hok). unfold settle, offset.
  cbn [written didCancel failure].
  rewrite gtb_false, Hexact, Hend by lia. cbn [orb endingError].
  rewrite takeZ_fits by (unfold totalLength in Hfit; lia).
  fold (totalLength (pending p)).
  assert (Hexp : isExpectedEnd m = true
                 <-> Occurs "incomplete data" m
                     \/ Occurs "unexpected end of file" m).
  { unfold isExpectedEnd. rewrite orb_true_iff, !includes_true_iff. tauto. }
  split; [reflexivity|]. split; [reflexivity|]. split; [reflexivity|].
  destruct (totalLength (pending p) >? 0) eqn:Hpos;
    [apply gtb_lt_iff in Hpos | apply gtb_ge_iff in Hpos];
    (destruct (isExpectedEnd m) eqn:Hm; cbn [andb]).
  - split; [split; [intros _; split; [exact Hpos | now apply Hexp]
                   | reflexivity]|].
    intros Hnot. exfalso. apply Hnot. split; [exact Hpos | now apply Hexp].
  - split; [split; [discriminate|]|].
    + intros [_ Hocc]. apply Hexp in Hocc. discriminate Hocc.
    + intros _. split; [reflexivity|].
      unfold Js.startsWith, message. apply prefix_append.
  - split; [split; [discriminate | intros [Hlt _]; lia]|].
    intros _. split; [reflexivity|].
    unfold Js.startsWith, message. apply prefix_append.
  - split; [split; [discriminate | intros [Hlt _]; lia]|].
    intros _. split; [reflexivity|].
    unfold Js.startsWith, message. apply prefix_append.
Qed.

End Cap.

(** A first chunk of [SAFE_LIMIT] bytes to the byte is copied whole by the
    [else] branch of line 233; the loop of line 240 is skipped, and the
    reader is neither read again nor cancelled, whatever follows. *)
Lemma first_chunk_exact_fit (fc : list byte) (rest : list (list byte))
  (e : Ending) :
  byteLength fc = SAFE_LIMIT ->
  hasZipSignature fc = false ->
  exists p,
    @readBody Fixtures.inflater {| chunks := fc :: rest; ending := e |}
    = inr ({| written := fc; didCancel := false; failure := None |}, p).
Proof.
  intros Hlen Hsig. unfold readBody, readFirst. cbn [chunks ending].
  unfold plan. rewrite Hsig. eexists. do 2 f_equal.
  unfold copy, offset. cbn [firstChunk written].
  rewrite Z.sub_0_r, gtb_false by lia.
  cbn [written]. rewrite Hlen, Z.ltb_irrefl. reflexivity.
Qed.

(** A one-byte chunk and a chunk of [SAFE_LIMIT - 1] bytes fill the buffer
    to the byte; the next read meets the end of the stream. *)
Lemma exact_fit_general (big : list byte) :
  byteLength big = SAFE_LIMIT - 1 ->
  ~ @CapAsStated Fixtures.inflater {| chunks := [[x00]; big]; ending := Closed |}.
Proof.
  intros Hbig Hclaim.
  pose (p0 := {| firstChunk := Some [x00]; isZipCompressed := false;
                 finalReader := {| chunks := [big]; ending := Closed |} |}).
  assert (Htotal : totalLength [[x00]; big] = SAFE_LIMIT).
  { rewrite !totalLength_cons, Hbig. unfold totalLength, byteLength.
    cbn [List.concat List.length]. lia. }
  destruct (Hclaim (copy p0) p0 eq_refl) as [_ Hfull].
  cbn [chunks] in Hfull. rewrite Htotal in Hfull.
  destruct (Hfull (Z.le_refl _)) as [_ Hcancel].
  assert (Hok : PlanOK p0) by (intros Hzip; discriminate Hzip).
  rewrite (copy_spec p0 Hok) in Hcancel. cbn [didCancel] in Hcancel.
  change (pending p0) with [[x00]; big] in Hcancel.
  rewrite Htotal, gtb_false in Hcancel by lia.
  discriminate Hcancel.
Qed.

(** C1, refuted as stated: a body of exactly [SAFE_LIMIT] bytes, delivered
    as a chunk of one byte and a chunk of the rest, fills the buffer, and the
    loop then reads the end of the stream; nothing is cancelled. *)
Lemma exact_fit_is_not_cancelled : ~ @CapAsStated Fixtures.inflater exactFitBody.
Proof.
  apply exact_fit_general. unfold byteLength. rewrite repeat_length.
  pose proof SAFE_LIMIT_value. lia.
Qed.

(** The body of one byte more than [SAFE_LIMIT] and what is fed from it. *)
Lemma overflowingBody_read :
  @readBody Fixtures.inflater overflowingBody
  = inr (copy overflowingPlan, overflowingPlan).
Proof. reflexivity. Qed.

Lemma overflowingPlan_total :
  totalLength (pending overflowingPlan) = SAFE_LIMIT + 1.
Proof.
  change (pending overflowingPlan)
    with [[x00]; repeat x00 (Z.to_nat SAFE_LIMIT)].
  generalize (repeat_length x00 (Z.to_nat SAFE_LIMIT)).
  generalize (repeat x00 (Z.to_nat SAFE_LIMIT)). intros big Hbig.
  rewrite !totalLength_cons. unfold totalLength, byteLength.
  cbn [List.concat List.length]. rewrite Hbig.
  pose proof SAFE_LIMIT_value. lia.
Qed.

Lemma bounded_copy_witness :
  offset (copy overflowingPlan) = SAFE_LIMIT
  /\ didCancel (copy overflowingPlan) = true
  /\ settle (copy overflowingPlan) = inr (written (copy overflowingPlan)).
Proof.
  destruct (@bounded_copy Fixtures.inflater overflowingBody
              (copy overflowingPlan) overflowingPlan overflowingBody_read)
    as (_ & _ & _ & _ & Hfull & Hret & Hcancel).
  pose proof overflowingPlan_total as Htotal.
  destruct Hfull as [_ Hlen]; [lia|].
  destruct (Hcancel eq_refl) as [Hover _].
  exact (conj Hlen (conj (Hover ltac:(lia)) (Hret ltac:(lia)))).
Defined.

(** *** The ZIP unwrap *)

Lemma byte_is (b k : byte) :
  (Z.of_N (Byte.to_N b) =? Z.of_N (Byte.to_N k)) = true <-> b = k.
Proof.
  rewrite Z.eqb_eq. split; [|now intros ->].
  intros E. apply N2Z.inj in E.
  pose proof (Byte.of_to_N b) as Hb. rewrite E, Byte.of_to_N in Hb.
  now injection Hb.
Qed.

Lemma hasZipSignature_iff (fc : list byte) :
  hasZipSignature fc = true
  <-> 30 < byteLength fc /\ firstn 4 fc = zipSignature.
Proof.
  unfold hasZipSignature, u8_is, ZIP_SIG, zipSignature.
  rewrite !andb_true_iff, gtb_lt_iff.
  destruct fc as [|b0 [|b1 [|b2 [|b3 fc]]]];
    cbn [nth_error nth firstn];
    try (split; [intros [[[[_ ?] ?] ?] ?]; discriminate
                | intros [_ ?]; discriminate]).
  change 80 with (Z.of_N (Byte.to_N x50)).
  change 75 with (Z.of_N (Byte.to_N x4b)).
  change 3 with (Z.of_N (Byte.to_N x03)).
  change 4 with (Z.of_N (Byte.to_N x04)).
  rewrite !byte_is. split.
  - intros [[[[Hlen ->] ->] ->] ->]. now split.
  - intros [Hlen [= -> -> -> ->]]. repeat split. exact Hlen.
Qed.

Section Unwrap.
Context `{Inflater}.

(** C3.  A first chunk that starts with the signature 50 4B 03 04, is longer
    than 30 bytes, carries method 8 in the little-endian 16-bit field at
    offset 8 and is longer than [dataOffset = 30 + filename length + extra
    field length] is unwrapped: the buffer holds the first [SAFE_LIMIT] bytes
    of what the raw-deflate decoder makes of the first chunk past
    [dataOffset] followed by the later chunks, and the call returns it when
    the decoder closes its output or gives more than [SAFE_LIMIT] bytes.
    When the signature does not match or the method is 0, nothing is
    unwrapped: the first chunk is copied as it is, ahead of the later
    chunks. *)
Theorem zip_unwrap (fc : list byte) (rest : list (list byte)) (e : Ending) :
  let bodyStream := {| chunks := fc :: rest; ending := e |} in
  (firstn 4 fc = zipSignature -> 30 < byteLength fc -> u16le fc 8 = 8 ->
   30 + u16le fc 26 + u16le fc 28 < byteLength fc ->
   let inflated := inflateRaw (compressedPayload fc rest e) in
   exists c p,
     readBody bodyStream = inr (c, p)
     /\ pending p = chunks inflated
     /\ written c = takeZ SAFE_LIMIT (List.concat (chunks inflated))
     /\ (forall buf, settle c = inr buf -> buf = written c)
     /\ (ending inflated = Closed \/ SAFE_LIMIT < totalLength (chunks inflated) ->
         settle c = inr (written c)))
  /\ (firstn 4 fc <> zipSignature \/ u16le fc 8 = 0 ->
      exists c p,
        readBody bodyStream = inr (c, p)
        /\ firstChunk p = Some fc
        /\ finalReader p = {| chunks := rest; ending := e |}
        /\ written c = takeZ SAFE_LIMIT (fc ++ List.concat rest)).
Proof.
  intros bodyStream. split.
  - intros Hsig Hlen Hmethod Hdata inflated.
    assert (Hzip : hasZipSignature fc = true)
      by (apply hasZipSignature_iff; now split).
    assert (Hplan : plan (Some fc) {| chunks := rest; ending := e |}
                    = {| firstChunk := None; isZipCompressed := true;
                         finalReader := inflated |}).
    { unfold plan. rewrite Hzip, compressionMethod_u16le, Hmethod.
      cbn [Z.eqb Pos.eqb]. rewrite dataOffset_u16le, gtb_true by lia.
      unfold inflated, compressedPayload, rawCompressedStream, subarrayFrom.
      rewrite gtb_true; [reflexivity|].
      pose proof (u16le_range fc 26). pose proof (u16le_range fc 28).
      rewrite byteLength_dropZ; lia. }
    eexists _, _. unfold readBody, bodyStream, readFirst.
    cbn [chunks ending]. rewrite Hplan. split; [reflexivity|].
    rewrite copy_spec by (intros _ fc' Hfc; discriminate Hfc).
    unfold pending, firstExact.
    cbn [written didCancel failure firstChunk finalReader app].
    rewrite orb_false_r. split; [reflexivity|]. split; [reflexivity|]. split.
    + intros buf Hbuf. apply settle_inr in Hbuf. exact Hbuf.
    + intros Hend. apply settle_no_failure. cbn [failure].
      destruct Hend as [Hclosed | Hover].
      * rewrite Hclosed. cbn [endingError]. destruct (_ >? _); reflexivity.
      * rewrite gtb_true by lia. reflexivity.
  - intros Hplain.
    assert (Hplan : plan (Some fc) {| chunks := rest; ending := e |}
                    = {| firstChunk := Some fc; isZipCompressed := false;
                         finalReader := {| chunks := rest; ending := e |} |}).
    { unfold plan. destruct (hasZipSignature fc) eqn:Hzip; [|reflexivity].
      apply hasZipSignature_iff in Hzip as [_ Hsig].
      destruct Hplain as [Hno | Hmethod]; [contradiction|].
      rewrite compressionMethod_u16le, Hmethod. reflexivity. }
    eexists _, _. unfold readBody, bodyStream, readFirst.
    cbn [chunks ending]. rewrite Hplan.
    split; [reflexivity|]. split; [reflexivity|]. split; [reflexivity|].
    rewrite copy_spec by (intros Hz; discriminate Hz). reflexivity.
Qed.

End Unwrap.

Lemma zip_unwrap_witness :
  exists c p,
    @readBody Fixtures.inflater
      {| chunks := [deflatedEntryChunk; [x03]]; ending := Closed |} = inr (c, p)
    /\ written c = [x01; x01; x02; x02; x03; x03].
Proof.
  destruct (proj1 (@zip_unwrap Fixtures.inflater deflatedEntryChunk [[x03]] Closed))
    as (c & p & Hread & _ & Hwritten & _);
    [reflexivity | reflexivity | reflexivity | reflexivity |].
  exists c, p. split; [exact Hread|]. rewrite Hwritten. reflexivity.
Defined.

Lemma stream_failure_handling_witness :
  settle (copy partialBodyPlan) = inr [x01; x02]
  /\ settle (copy truncatedEntryPlan)
     = inl (Error "Stream reading failed: unexpected end of file").
Proof.
  split.
  - destruct (stream_failure_handling partialBodyPlan "incomplete data")
      as (_ & _ & _ & Hiff & _).
    + intros Hzip. discriminate Hzip.
    + reflexivity.
    + vm_compute. discriminate.
    + reflexivity.
    + apply (proj2 Hiff). split; [reflexivity|].
      left. exists EmptyString, EmptyString. reflexivity.
  - destruct (stream_failure_handling truncatedEntryPlan
                "unexpected end of file")
      as (_ & _ & _ & _ & Hthrow).
    + intros Hzip fc Hfc. discriminate Hfc.
    + reflexivity.
    + vm_compute. discriminate.
    + reflexivity.
    + apply Hthrow. intros [Hpos _]. vm_compute in Hpos. discriminate Hpos.
Defined.

End BoundedCopy.

(** ** The probe *)

Section Probe.
Import MediaFetch.
Context `{UrlParser} `{UriDecoder} `{Inflater}.



End Probe.


(** ** The requested range *)

Section Range.
Import MediaFetch.
Context `{UrlParser} `{UriDecoder} `{Inflater}.




End Range.



(** ** Archive peek *)

Section ArchiveFacts.
Import MediaUtils.
Local Open Scope list_scope.

Lemma byteOf_value (z : Z) : Z.of_N (Byte.to_N (byteOf z)) = z mod 256.
Proof.
  unfold byteOf. pose proof (Z.mod_pos_bound z 256 eq_refl) as Hz.
  destruct (Byte.of_N (Z.to_N (z mod 256))) as [b|] eqn:E.
  - apply Byte.to_of_N in E. rewrite E. lia.
  - apply Byte.of_N_None_iff in E. lia.
Qed.

Lemma byteOf_small (z : Z) : 0 <= z < 256 -> Z.of_N (Byte.to_N (byteOf z)) = z.
Proof. intros Hz. rewrite byteOf_value. now apply Z.mod_small. Qed.


Lemma at_cons_pos (b : byte) (l : list byte) (i : Z) :
  0 < i -> at_ (b :: l) i = at_ l (i - 1).
Proof.
  intros Hi. unfold at_.
  replace (i <? 0) with false by (symmetry; apply Z.ltb_ge; lia).
  replace (i - 1 <? 0) with false by (symmetry; apply Z.ltb_ge; lia).
  replace (Z.to_nat i) with (S (Z.to_nat (i - 1))) by lia. reflexivity.
Qed.


Lemma at_app_l (pre rest : list byte) (i : Z) :
  0 <= i < byteLength pre -> at_ (pre ++ rest) i = at_ pre i.
Proof.
  unfold at_, byteLength. intros Hi.
  replace (i <? 0) with false by (symmetry; apply Z.ltb_ge; lia).
  rewrite nth_error_app1 by lia. reflexivity.
Qed.

Lemma at_range (buffer : list byte) (i v : Z) :
  at_ buffer i = Some v -> 0 <= v < 256.
Proof.
  unfold at_. destruct (i <? 0); [discriminate|].
  destruct (nth_error buffer (Z.to_nat i)) as [b|]; [|discriminate].
  intros [= <-]. pose proof (Byte.to_N_bounded b). lia.
Qed.

Lemma byteOr0_range (buffer : list byte) (i : Z) : 0 <= byteOr0 buffer i < 256.
Proof.
  unfold byteOr0. destruct (at_ buffer i) as [v|] eqn:E; [|lia].
  now apply at_range in E.
Qed.




(** [subarray] between two positions inside the buffer. *)
Lemma subarray_inside (buffer : list byte) (a b : Z) :
  0 <= a <= b -> b <= byteLength buffer ->
  subarray buffer a b = takeZ (b - a) (dropZ a buffer).
Proof.
  intros Hab Hb. unfold subarray.
  replace (a <? 0) with false by (symmetry; apply Z.ltb_ge; lia).
  replace (b <? 0) with false by (symmetry; apply Z.ltb_ge; lia).
  now rewrite !Z.min_l by lia.
Qed.



(** *** ZIP *)












Lemma getUint16_nonneg (buffer : list byte) (i : Z) : 0 <= getUint16 buffer i.
Proof.
  unfold getUint16. pose proof (byteOr0_range buffer i).
  pose proof (byteOr0_range buffer (i + 1)). lia.
Qed.

Lemma getUint32_nonneg (buffer : list byte) (i : Z) : 0 <= getUint32 buffer i.
Proof.
  unfold getUint32. pose proof (byteOr0_range buffer i).
  pose proof (byteOr0_range buffer (i + 1)).
  pose proof (byteOr0_range buffer (i + 2)).
  pose proof (byteOr0_range buffer (i + 3)). lia.
Qed.

Section Zip.
Context `{Utf8Decoder}.




(** The ZIP walk returns: every turn moves forward by 30 bytes at least, so
    one unit of fuel for each 30 bytes left, and one more, is enough; the fuel
    of [extractFirstFileFromZip] is. *)
Lemma zipWalk_returns (buffer : list byte) :
  forall (fuel : nat) (offset : Z),
    0 <= offset ->
    byteLength buffer - offset < 30 * Z.of_nat fuel ->
    (1 <= fuel)%nat ->
    zipWalk fuel buffer offset <> None.
Proof.
  induction fuel as [|fuel IH]; intros offset Hoff Hfuel Hone; [lia|].
  cbn [zipWalk].
  destruct (offset + 30 <=? byteLength buffer) eqn:Hguard; cbn [negb];
    [|discriminate].
  apply Z.leb_le in Hguard.
  destruct (_ || _); [discriminate|].
  destruct (_ >? _); [discriminate|].
  destruct (negb (Js.endsWith _ _)); [discriminate|].
  pose proof (getUint16_nonneg buffer (offset + 26)).
  pose proof (getUint16_nonneg buffer (offset + 28)).
  pose proof (getUint32_nonneg buffer (offset + 18)).
  apply IH;
    destruct (negb (Z.land (getUint16 buffer (offset + 6)) 8 =? 0)); lia.
Qed.

Lemma extractFirstFileFromZip_returns (buffer : list byte) :
  extractFirstFileFromZip buffer <> None.
Proof.
  unfold extractFirstFileFromZip. apply zipWalk_returns; unfold byteLength; lia.
Qed.




End Zip.

(** *** TAR *)

Lemma byteLength_zeros (n : nat) : byteLength (zeros n) = Z.of_nat n.
Proof. unfold byteLength, zeros. now rewrite repeat_length. Qed.


Lemma byteLength_padded (field : list byte) (n : nat) :
  (List.length field <= n)%nat ->
  byteLength (field ++ zeros (n - List.length field)) = Z.of_nat n.
Proof.
  intros Hn. rewrite byteLength_app, byteLength_zeros. unfold byteLength. lia.
Qed.


(** The padded content is the shortest whole number of blocks that holds
    the content. *)
Lemma tarPad_blocks (content : list byte) :
  byteLength (tarPad content) mod 512 = 0
  /\ byteLength content <= byteLength (tarPad content) < byteLength content + 512.
Proof.
  unfold tarPad. rewrite byteLength_app, byteLength_zeros.
  pose proof (Z.mod_pos_bound (- byteLength content) 512 eq_refl) as Hpad.
  rewrite Z2Nat.id by lia. split; [|lia].
  pose proof (Z.div_mod (- byteLength content) 512).
  replace (byteLength content + (- byteLength content) mod 512)
    with (- ((- byteLength content) / 512) * 512) by lia.
  apply Z.mod_mul. discriminate.
Qed.

















Section Tar.
Context `{Utf8Decoder}.




(** More fuel does not change what a walk that returned has returned. *)
Lemma tarWalk_more_fuel (buffer : list byte) (r : option string) :
  forall (fuel : nat) (offset : Z) (override : option string),
    tarWalk fuel buffer offset override = Some r ->
    tarWalk (S fuel) buffer offset override = Some r.
Proof.
  induction fuel as [|fuel IH]; intros offset override; [discriminate|].
  intros Hrun. cbn [tarWalk] in Hrun.
  remember (S fuel) as fuel1 eqn:Hfuel1. cbn [tarWalk]. subst fuel1.
  repeat match goal with
         | H : context [if ?b then _ else _] |- _ => destruct b
         end;
    try exact Hrun; now apply IH.
Qed.


End Tar.

Section Peek.
Context `{Utf8Decoder}.


End Peek.

End ArchiveFacts.



(** ** MediaInfo normalisation *)

Section NormalizeFacts.
Import MediaUtils.
Variable number : Type.
Local Open Scope list_scope.

(** Induction on a value and, inside it, on its items and properties. *)
Lemma Json_induction (P : Json number -> Prop) :
  P JUndefined -> P JNull -> (forall b, P (JBoolean b)) ->
  (forall n, P (JNumber n)) -> (forall s, P (JString s)) ->
  (forall items, Forall P items -> P (JArray items)) ->
  (forall props, Forall (fun kv => P (snd kv)) props -> P (JObject props)) ->
  forall v, P v.
Proof.
  intros Hu Hn Hb Hnum Hs Ha Ho.
  fix IH 1. intros [| |b|n|s|items|props].
  - exact Hu.
  - exact Hn.
  - apply Hb.
  - apply Hnum.
  - apply Hs.
  - apply Ha. induction items as [|x items IHitems]; constructor;
      [apply IH | exact IHitems].
  - apply Ho. induction props as [|[k x] props IHprops]; constructor;
      [apply IH | exact IHprops].
Qed.

(** What [normalizeMediaInfo] makes of the properties of an object without
    wrapper: each is normalised, and the ones whose key is not [__proto__]
    are kept, in their order. *)
Lemma normalized_properties (props : list (string * Json number)) :
  flat_map (fun kv => match kv with
                      | (key, v) =>
                          if createsProperty key
                          then [(key, normalizeMediaInfo v)]
                          else []
                      end) props
  = map (fun kv => (fst kv, normalizeMediaInfo (snd kv)))
        (filter (fun kv => negb (fst kv =? "__proto__")%string) props).
Proof.
  induction props as [|[k x] props IH]; [reflexivity|].
  cbn [flat_map filter fst snd]. unfold createsProperty at 1.
  destruct (k =? "__proto__")%string; cbn [negb app map fst snd];
    now rewrite IH.
Qed.

Lemma wrappedValue_normalized (props : list (string * Json number)) :
  wrappedValue props = None ->
  wrappedValue (map (fun kv => (fst kv, normalizeMediaInfo (snd kv)))
                    (filter (fun kv => negb (fst kv =? "__proto__")%string)
                            props)) = None.
Proof.
  unfold wrappedValue.
  induction props as [|[k x] props IH]; cbn [filter property fst]; [reflexivity|].
  destruct (k =? "#value")%string eqn:Hk.
  - apply String.eqb_eq in Hk. subst k.
    cbn [String.eqb Ascii.eqb Bool.eqb negb map property fst snd].
    destruct x; cbn [isUndefined]; try discriminate. reflexivity.
  - intros Hw. destruct (k =? "__proto__")%string; cbn [negb]; [exact (IH Hw)|].
    cbn [map property fst snd]. rewrite Hk. exact (IH Hw).
Qed.

(** C10 (amended).  [normalizeMediaInfo] returns a primitive as it is, maps
    itself over the items of an array, returns the ['#value'] of an object
    that carries a defined one, as it is, and otherwise maps itself over the
    properties of the object, which it keeps in their order under their keys
    (this for an object none of whose own keys is [__proto__]; what becomes
    of such a key is not part of the statement); so the result holds no
    object with a defined ['#value'], at any depth, whenever the wrapped
    values it meets hold none. *)
Theorem normalizeMediaInfo_spec :
  (forall v : Json number, isPrimitive v = true -> normalizeMediaInfo v = v)
  /\ (forall items : list (Json number),
        normalizeMediaInfo (JArray items)
        = JArray (map normalizeMediaInfo items))
  /\ (forall (props : list (string * Json number)) (payload : Json number),
        wrappedValue props = Some payload ->
        normalizeMediaInfo (JObject props) = payload)
  /\ (forall props : list (string * Json number),
        wrappedValue props = None ->
        existsb (fun kv => (fst kv =? "__proto__")%string) props = false ->
        normalizeMediaInfo (JObject props)
        = JObject (map (fun kv => (fst kv, normalizeMediaInfo (snd kv))) props))
  /\ (forall v : Json number,
        plainPayloads v = true -> hasWrapper (normalizeMediaInfo v) = false).
Proof.
  split. { intros [| | | | | |]; try reflexivity; discriminate. }
  split. { reflexivity. }
  split. { intros props payload Hw. cbn [normalizeMediaInfo]. now rewrite Hw. }
  split.
  { intros props Hw Hkeys. cbn [normalizeMediaInfo]. rewrite Hw. f_equal.
    rewrite normalized_properties. f_equal. clear Hw.
    induction props as [|[k x] props IH]; [reflexivity|].
    cbn [existsb fst] in Hkeys. apply orb_false_iff in Hkeys as [Hk Hkeys].
    cbn [filter fst]. rewrite Hk. cbn [negb]. f_equal. exact (IH Hkeys). }
  intros v. induction v as [| |b|n|s|items IH|props IH] using Json_induction;
    try reflexivity.
  - cbn [plainPayloads normalizeMediaInfo hasWrapper].
    induction IH as [|x items Hx _ IHitems]; [reflexivity|].
    cbn [forallb map existsb]. intros Hall.
    apply andb_true_iff in Hall as [Hx' Hall].
    now rewrite (Hx Hx'), (IHitems Hall).
  - cbn [plainPayloads normalizeMediaInfo].
    destruct (wrappedValue props) as [payload|] eqn:Hw.
    + intros Hplain. now apply negb_true_iff in Hplain.
    + rewrite normalized_properties. cbn [hasWrapper].
      rewrite (wrappedValue_normalized props Hw). cbn [orb].
      clear Hw. induction IH as [|[k x] props Hx _ IHprops]; [reflexivity|].
      cbn [forallb filter fst snd] in *. intros Hall.
      apply andb_true_iff in Hall as [Hx' Hall].
      destruct (k =? "__proto__")%string; cbn [negb]; [exact (IHprops Hall)|].
      cbn [map existsb fst snd]. now rewrite (Hx Hx'), (IHprops Hall).
Qed.

End NormalizeFacts.

(** C10, refuted as stated: the ['#value'] of a wrapper is returned without
    being normalised, so a wrapper inside it is still there. *)
Lemma nested_wrapper_survives :
  MediaUtils.normalizeMediaInfo nestedWrapper
  = MediaUtils.JObject [("@dt", MediaUtils.JString "text");
                        ("#value", MediaUtils.JString "x")]
  /\ hasWrapper (MediaUtils.normalizeMediaInfo nestedWrapper) = true.
Proof. split; reflexivity. Qed.

(** An own property [__proto__] of the value is not among the properties
    of the result: the assignment of line 89 has stored nothing under that
    key. *)
Lemma proto_key_is_not_copied :
  MediaUtils.normalizeMediaInfo protoKeyedTrack
  = MediaUtils.JObject [("Format", MediaUtils.JString "AVC")].
Proof. reflexivity. Qed.

Lemma normalizeMediaInfo_spec_witness :
  MediaUtils.normalizeMediaInfo sampleTrack
  = MediaUtils.JObject
      [("@type", MediaUtils.JString "General");
       ("Duration", MediaUtils.JNumber 5400);
       ("Title", MediaUtils.JString "TW92aWU=");
       ("extra",
        MediaUtils.JArray
          [MediaUtils.JNull;
           MediaUtils.JObject [("#value", MediaUtils.JUndefined)]])]
  /\ hasWrapper (MediaUtils.normalizeMediaInfo sampleTrack) = false.
Proof.
  destruct (normalizeMediaInfo_spec Z) as (_ & _ & _ & Hobject & Hclean).
  split.
  - unfold sampleTrack. rewrite Hobject by reflexivity. reflexivity.
  - apply Hclean. reflexivity.
Defined.

(* ================================================================== *)
(** * Further properties *)
(* ================================================================== *)

(** ** File names *)

Section NameFacts.

Lemma lowerChar_idempotent (c : ascii) :
  Js.lowerChar (Js.lowerChar c) = Js.lowerChar c.
Proof. destruct c as [[] [] [] [] [] [] [] []]; reflexivity. Qed.

Lemma lower_idempotent (s : string) : Js.lower (Js.lower s) = Js.lower s.
Proof.
  induction s as [|c s IH]; cbn [Js.lower]; [reflexivity|].
  now rewrite lowerChar_idempotent, IH.
Qed.

Lemma Occurs_left (p q s : string) : Occurs (p ++ q) s -> Occurs p s.
Proof.
  intros (pre & post & ->). exists pre, (q ++ post).
  now rewrite append_assoc.
Qed.

(** X21.  A file name counts as an Apple TV name exactly when its lower-cased
    text holds [aptv], [atvp] or [apple tv]; the test for [apple tv+] adds
    nothing, and the case of the letters does not matter. *)
Theorem isAppleTvFilename_markers (filename : string) :
  (MediaNames.isAppleTvFilename filename = true
   <-> Occurs "aptv" (Js.lower filename)
       \/ Occurs "atvp" (Js.lower filename)
       \/ Occurs "apple tv" (Js.lower filename))
  /\ MediaNames.isAppleTvFilename (Js.lower filename)
     = MediaNames.isAppleTvFilename filename.
Proof.
  split.
  - unfold MediaNames.isAppleTvFilename. cbv zeta.
    rewrite !orb_true_iff, !includes_true_iff. split.
    + intros [[[Ha|Hb]|Hc]|Hd]; auto.
      right; right. exact (Occurs_left "apple tv" "+" _ Hc).
    + intros [Ha|[Hb|Hd]]; auto.
  - unfold MediaNames.isAppleTvFilename. now rewrite lower_idempotent.
Qed.

Lemma split_nonempty (sep : ascii) (s : string) : Js.split sep s <> [].
Proof.
  induction s as [|c s IH]; cbn [Js.split]; [discriminate|].
  destruct (Ascii.eqb c sep); [discriminate|].
  destruct (Js.split sep s); discriminate.
Qed.

Lemma split_app_sep (sep : ascii) (a b : string) :
  Js.split sep (a ++ String sep b) = (Js.split sep a ++ Js.split sep b)%list.
Proof.
  induction a as [|c a IH]; cbn [append Js.split].
  - now rewrite Ascii.eqb_refl.
  - destruct (Ascii.eqb c sep); rewrite IH; [reflexivity|].
    pose proof (split_nonempty sep a).
    destruct (Js.split sep a); [congruence | reflexivity].
Qed.

Lemma split_no_sep (sep : ascii) (s : string) :
  allChars (fun c => negb (Ascii.eqb c sep)) s = true ->
  Js.split sep s = [s].
Proof.
  induction s as [|c s IH]; cbn [allChars Js.split]; [reflexivity|].
  intros H. apply andb_true_iff in H as [Hc Hs].
  apply negb_true_iff in Hc. now rewrite Hc, (IH Hs).
Qed.

Lemma pop_app {A} (l1 l2 : list A) :
  l2 <> [] -> JsLib.pop (l1 ++ l2)%list = JsLib.pop l2.
Proof.
  intros Hl2. induction l1 as [|x l1 IH]; [reflexivity|].
  cbn [app]. change (JsLib.pop (x :: (l1 ++ l2)%list))
    with (match (l1 ++ l2)%list with [] => Some x | _ :: _ => JsLib.pop (l1 ++ l2)%list end).
  destruct (l1 ++ l2)%list eqn:E; [|exact IH].
  apply app_eq_nil in E as [_ E]. congruence.
Qed.

(** X22.  Whether a name has an archive extension depends on nothing but
    the text after its last dot, lower-cased; a name without any dot is
    taken for its own extension. *)
Theorem isArchiveExtension_last_piece (name ext : string) :
  allChars (fun c => negb (Ascii.eqb c ".")) ext = true ->
  MediaNames.isArchiveExtension (name ++ "." ++ ext)
  = JsLib.arrayIncludes MediaNames.ARCHIVE_EXTENSIONS (Js.lower ext)
  /\ MediaNames.isArchiveExtension ext
     = JsLib.arrayIncludes MediaNames.ARCHIVE_EXTENSIONS (Js.lower ext)
  /\ MediaNames.isArchiveExtension (name ++ "." ++ Js.lower ext)
     = MediaNames.isArchiveExtension (name ++ "." ++ ext).
Proof.
  intros Hext.
  assert (Hpiece : forall e, allChars (fun c => negb (Ascii.eqb c ".")) e = true ->
            MediaNames.isArchiveExtension (name ++ "." ++ e)
            = JsLib.arrayIncludes MediaNames.ARCHIVE_EXTENSIONS (Js.lower e)).
  { intros e He. unfold MediaNames.isArchiveExtension. cbv zeta.
    change (name ++ "." ++ e) with (name ++ String "." e).
    rewrite split_app_sep, pop_app by apply split_nonempty.
    now rewrite (split_no_sep _ _ He). }
  split; [now apply Hpiece|]. split.
  - unfold MediaNames.isArchiveExtension. cbv zeta.
    now rewrite (split_no_sep _ _ Hext).
  - rewrite !Hpiece, ?lower_idempotent; [reflexivity | exact Hext |].
    clear Hpiece. induction ext as [|c ext IH]; [reflexivity|].
    cbn [allChars Js.lower] in *. apply andb_true_iff in Hext as [Hc Hext].
    rewrite (IH Hext), andb_true_r.
    destruct c as [[] [] [] [] [] [] [] []]; try reflexivity; discriminate.
Qed.

End NameFacts.

Lemma isArchiveExtension_last_piece_witness :
  MediaNames.isArchiveExtension "Some.Movie.2024.TAR" = true.
Proof.
  exact (eq_trans
           (proj1 (isArchiveExtension_last_piece "Some.Movie.2024" "TAR" eq_refl))
           eq_refl).
Defined.

(** ** The Google Drive rewrite, again *)

Section RewriteFacts.

Lemma allChars_app (p : ascii -> bool) (a b : string) :
  allChars p (a ++ b) = allChars p a && allChars p b.
Proof.
  induction a as [|c a IH]; cbn [append allChars]; [reflexivity|].
  now rewrite IH, andb_assoc.
Qed.

Lemma allChars_weaken (p q : ascii -> bool) (s : string) :
  (forall c, p c = true -> q c = true) ->
  allChars p s = true -> allChars q s = true.
Proof.
  intros Hpq. induction s as [|c s IH]; cbn [allChars]; [reflexivity|].
  intros H. apply andb_true_iff in H as [Hc Hs].
  now rewrite (Hpq c Hc), (IH Hs).
Qed.

Lemma isIdChar_notColon (c : ascii) :
  ServerUtils.isIdChar c = true -> notColon c = true.
Proof. destruct c as [[] [] [] [] [] [] [] []]; try reflexivity; discriminate. Qed.

(** The pattern holds a colon: it matches nowhere in a text without one. *)
Lemma matchHere_needs_colon (s : string) :
  allChars notColon s = true -> ServerUtils.matchHere s = None.
Proof.
  intros Hs. unfold ServerUtils.matchHere.
  destruct (String.prefix ServerUtils.GOOGLE_DRIVE_PREFIX s) eqn:E; [|reflexivity].
  apply prefix_true_iff in E as [r ->].
  rewrite allChars_app in Hs. apply andb_true_iff in Hs as [Hs _].
  discriminate.
Qed.

Lemma exec_needs_colon (s : string) :
  allChars notColon s = true -> ServerUtils.GOOGLE_DRIVE_REGEX_exec s = None.
Proof.
  intros Hs. apply leftmost_None. intros pre post ->.
  rewrite allChars_app in Hs. apply andb_true_iff in Hs as [_ Hs].
  now apply matchHere_needs_colon.
Qed.

Lemma exec_downloadUrl (fileId : string) :
  allChars ServerUtils.isIdChar fileId = true ->
  ServerUtils.GOOGLE_DRIVE_REGEX_exec (downloadUrl fileId) = None.
Proof.
  intros Hid.
  assert (Htail : allChars notColon (fileId ++ "&export=download&confirm=t") = true).
  { rewrite allChars_app, (allChars_weaken _ _ _ isIdChar_notColon Hid).
    reflexivity. }
  unfold ServerUtils.GOOGLE_DRIVE_REGEX_exec, downloadUrl.
  set (tail := fileId ++ "&export=download&confirm=t") in *.
  assert (Hrest : Js.leftmost ServerUtils.matchHere tail = None)
    by now apply exec_needs_colon.
  cbn -[tail]. exact Hrest.
Qed.

(** X12.  A view link is rewritten to the download address of the very
    identifier it carries, whatever follows the link. *)
Theorem resolveGoogleDriveUrl_view_link (fileId rest : string) :
  fileId <> EmptyString ->
  allChars ServerUtils.isIdChar fileId = true ->
  ServerUtils.resolveGoogleDriveUrl
    (ServerUtils.GOOGLE_DRIVE_PREFIX ++ fileId ++ "/view" ++ rest)
  = {| ServerUtils.url := downloadUrl fileId;
       ServerUtils.isGoogleDrive := true |}.
Proof.
  intros Hne Hid. unfold ServerUtils.resolveGoogleDriveUrl,
    ServerUtils.GOOGLE_DRIVE_REGEX_exec.
  assert (Hhere : Js.leftmost ServerUtils.matchHere
                    (ServerUtils.GOOGLE_DRIVE_PREFIX ++ fileId ++ "/view" ++ rest)
                  = Some fileId).
  { pose proof (matchHere_complete fileId rest Hne Hid) as Hm.
    destruct (ServerUtils.GOOGLE_DRIVE_PREFIX ++ fileId ++ "/view" ++ rest);
      cbn [Js.leftmost]; now rewrite Hm. }
  now rewrite Hhere.
Qed.

(** X13.  Rewriting is idempotent: the address it produces is recognised as a
    Google Drive address and is not rewritten again; and an address is
    changed only when it is flagged as Google Drive. *)
Theorem resolveGoogleDriveUrl_idempotent (u : string) :
  let r := ServerUtils.resolveGoogleDriveUrl u in
  ServerUtils.resolveGoogleDriveUrl (ServerUtils.url r) = r
  /\ (ServerUtils.url r = u \/ ServerUtils.isGoogleDrive r = true).
Proof.
  cbv zeta.
  destruct (ServerUtils.GOOGLE_DRIVE_REGEX_exec u) as [fileId|] eqn:Hexec.
  - assert (Hr : ServerUtils.resolveGoogleDriveUrl u
                 = {| ServerUtils.url := downloadUrl fileId;
                      ServerUtils.isGoogleDrive := true |})
      by (unfold ServerUtils.resolveGoogleDriveUrl; now rewrite Hexec).
    rewrite Hr. cbn [ServerUtils.url ServerUtils.isGoogleDrive].
    split; [|now right].
    apply leftmost_Some in Hexec as (pre & post & _ & Hm).
    apply matchHere_sound in Hm as (_ & _ & _ & Hid).
    unfold ServerUtils.resolveGoogleDriveUrl.
    rewrite (exec_downloadUrl fileId Hid).
    replace (Js.includes (downloadUrl fileId) "drive.usercontent.google.com")
      with true; [reflexivity|].
    symmetry. apply includes_true_iff.
    exists "https://", ("/download?id=" ++ fileId ++ "&export=download&confirm=t").
    reflexivity.
  - assert (Hr : ServerUtils.resolveGoogleDriveUrl u
                 = {| ServerUtils.url := u;
                      ServerUtils.isGoogleDrive :=
                        Js.includes u "drive.usercontent.google.com" |})
      by (unfold ServerUtils.resolveGoogleDriveUrl; rewrite Hexec;
          now destruct (Js.includes u _)).
    rewrite Hr. cbn [ServerUtils.url]. split; [exact Hr | now left].
Qed.

End RewriteFacts.

Lemma resolveGoogleDriveUrl_view_link_witness :
  ServerUtils.resolveGoogleDriveUrl
    "https://drive.google.com/file/d/1a-B_c9/view?usp=sharing"
  = {| ServerUtils.url := downloadUrl "1a-B_c9";
       ServerUtils.isGoogleDrive := true |}.
Proof.
  apply (resolveGoogleDriveUrl_view_link "1a-B_c9" "?usp=sharing");
    [discriminate | reflexivity].
Defined.

(** ** The two listings of the URL guard *)

Section GuardFacts.

(** The tests of the first listing, as one condition. *)
Lemma validateHost_refuses (host : string) :
  let refuses :=
    (host =? "localhost")%string || Js.startsWith host "127."
    || (host =? "::1")%string || (host =? "127.0.0.1")%string
    || (host =? "metadata.google.internal")%string
    || (host =? "169.254.169.254")%string
    || Js.startsWith host "10." || Js.startsWith host "192.168."
    || (Js.startsWith host "172."
        && match secondOctet host with
           | Js.Num n => (16 <=? n) && (n <=? 31)
           | Js.NaN => false
           end) in
  isInvalidURL (ServerUtils.validateHost host) = refuses
  /\ (ServerUtils.validateHost host = inr tt <-> refuses = false).
Proof.
  cbv zeta. unfold ServerUtils.validateHost, ServerUtils.has,
    ServerUtils.LOCALHOST_IPS, ServerUtils.META_DATA_HOSTS, secondOctet.
  cbn [existsb].
  destruct (host =? "localhost")%string; [now split|].
  destruct (Js.startsWith host "127."); [now split|].
  destruct (host =? "::1")%string; [now split|].
  destruct (host =? "127.0.0.1")%string; [now split|].
  destruct (host =? "metadata.google.internal")%string; [now split|].
  destruct (host =? "169.254.169.254")%string; [now split|].
  destruct (Js.startsWith host "10."); [now split|].
  destruct (Js.startsWith host "192.168."); [now split|].
  destruct (Js.startsWith host "172."); [|now split].
  destruct (Js.parseIntOpt _ 10) as [|n]; cbn; [now split|].
  destruct (16 <=? n); cbn; [|now split].
  destruct (n <=? 31); now split.
Qed.

Lemma validateHost_listing2_refuses (host : string) :
  let refuses :=
    (host =? "localhost")%string || Js.startsWith host "127."
    || (host =? "[::1]")%string || (host =? "::1")%string
    || Js.startsWith host "10." || Js.startsWith host "192.168."
    || Js.startsWith host "169.254."
    || (Js.startsWith host "172."
        && match secondOctet host with
           | Js.Num n => (16 <=? n) && (n <=? 31)
           | Js.NaN => false
           end)
    || (host =? "metadata.google.internal")%string
    || (host =? "169.254.169.254")%string in
  isInvalidURL (ServerUtilsListing2.validateHost host) = refuses
  /\ (ServerUtilsListing2.validateHost host = inr tt <-> refuses = false).
Proof.
  cbv zeta. unfold ServerUtilsListing2.validateHost, secondOctet.
  destruct (host =? "localhost")%string; [now split|].
  destruct (Js.startsWith host "127."); [now split|].
  destruct (host =? "[::1]")%string; [now split|].
  destruct (host =? "::1")%string; [now split|].
  destruct (Js.startsWith host "10."); [now split|].
  destruct (Js.startsWith host "192.168."); [now split|].
  destruct (Js.startsWith host "169.254."); [now split|].
  destruct (Js.startsWith host "172.").
  - destruct (Js.parseIntOpt _ 10) as [|n]; cbn.
    + destruct (host =? "metadata.google.internal")%string; [now split|].
      destruct (host =? "169.254.169.254")%string; now split.
    + destruct (16 <=? n); cbn.
      * destruct (n <=? 31); cbn; [now split|].
        destruct (host =? "metadata.google.internal")%string; [now split|].
        destruct (host =? "169.254.169.254")%string; now split.
      * destruct (host =? "metadata.google.internal")%string; [now split|].
        destruct (host =? "169.254.169.254")%string; now split.
  - cbn. destruct (host =? "metadata.google.internal")%string; [now split|].
    destruct (host =? "169.254.169.254")%string; now split.
Qed.

(** X11.  The two listings of [validateUrl] compared, host by host: what the
    current one refuses the earlier one refuses too, and the hosts that only
    the earlier one refuses are [[::1]] and the link-local hosts [169.254.*]
    other than the metadata address.  Neither throws anything but an
    [Invalid URL] error. *)
Theorem validateHost_listings_compared (host : string) :
  (isInvalidURL (ServerUtils.validateHost host) = true ->
   isInvalidURL (ServerUtilsListing2.validateHost host) = true)
  /\ (ServerUtils.validateHost host = inr tt
      /\ isInvalidURL (ServerUtilsListing2.validateHost host) = true
      <-> host = "[::1]"
          \/ (Js.startsWith host "169.254." = true /\ host <> "169.254.169.254"))
  /\ (ServerUtils.validateHost host = inr tt
      \/ isInvalidURL (ServerUtils.validateHost host) = true)
  /\ (ServerUtilsListing2.validateHost host = inr tt
      \/ isInvalidURL (ServerUtilsListing2.validateHost host) = true).
Proof.
  destruct (validateHost_refuses host) as [H1 H1'].
  destruct (validateHost_listing2_refuses host) as [H2 H2'].
  cbv zeta in *. rewrite H1, H2, H1'. rewrite H2'. clear H1 H2 H1' H2'.
  assert (Hdec : forall b : bool, b = false \/ b = true)
    by (intros []; auto).
  destruct (host =? "[::1]")%string eqn:Ebr.
  { apply String.eqb_eq in Ebr. subst host. cbn.
    split; [reflexivity|]. split; [|split; apply Hdec].
    split; [now left | now split]. }
  destruct (host =? "169.254.169.254")%string eqn:Emeta.
  { apply String.eqb_eq in Emeta. subst host. cbn.
    split; [reflexivity|]. split; [|split; apply Hdec].
    split; [intros [? _]; discriminate|].
    intros [?|[_ ?]]; [discriminate | congruence]. }
  assert (Hne1 : host <> "[::1]") by now apply String.eqb_neq.
  assert (Hne2 : host <> "169.254.169.254") by now apply String.eqb_neq.
  destruct (Js.startsWith host "169.254.") eqn:Ell.
  { unfold Js.startsWith in Ell. apply prefix_true_iff in Ell as [r ->].
    cbn. split; [discriminate|]. split; [|split; apply Hdec].
    split; [now right | now split]. }
  destruct (host =? "127.0.0.1")%string eqn:Eloop.
  { apply String.eqb_eq in Eloop. subst host. cbn.
    split; [reflexivity|]. split; [|split; apply Hdec].
    split; [intros [? _]; discriminate|].
    intros [?|[? _]]; discriminate. }
  rewrite !orb_false_r.
  set (c := Js.startsWith host "172." && _).
  split; [|split; [|split; apply Hdec]].
  - destruct (host =? "localhost")%string, (Js.startsWith host "127."),
      (host =? "::1")%string,
      (host =? "metadata.google.internal")%string,
      (Js.startsWith host "10."), (Js.startsWith host "192.168."), c;
      cbn; intros; (reflexivity || discriminate).
  - split.
    + destruct (host =? "localhost")%string, (Js.startsWith host "127."),
        (host =? "::1")%string,
        (host =? "metadata.google.internal")%string,
        (Js.startsWith host "10."), (Js.startsWith host "192.168."), c;
        cbn; intros [Ha Hb]; discriminate.
    + intros [?|[? _]]; [congruence | discriminate].
Qed.

End GuardFacts.

(** ** The run of [fetchMediaChunk] *)

Section RunFacts.
Import MediaFetch.
Context `{UrlParser} `{UriDecoder} `{Inflater}.
Local Open Scope list_scope.

(** The run up to the inspection of the probe response. *)
Lemma fetchMediaChunk_after_probe (net : Network) (initialUrl : string)
  (chunkSize : Z) (reqs : list Request) (method : string) (h : Response) :
  let rs := ServerUtils.resolveGoogleDriveUrl initialUrl in
  ServerUtils.validateUrl (ServerUtils.url rs) = inr tt ->
  probeOutcome net (ServerUtils.url rs) = inr (reqs, method, h) ->
  fetchMediaChunk net initialUrl chunkSize initialWorld
  = inspectAndFetch net rs h chunkSize (probedWorld rs method reqs).
Proof.
  intros rs Hvalid Hprobe. unfold fetchMediaChunk. fold rs.
  unfold bind at 1. cbn [updDiagnostics initialWorld requests diagnostics cancelled].
  unfold bind at 1, lift. rewrite Hvalid.
  unfold bind at 1, probe. unfold bind at 1. unfold bind at 1, fetch at 1.
  cbn [requests diagnostics cancelled List.length app].
  unfold probeOutcome in Hprobe.
  destruct (net 0%nat (headRequest (ServerUtils.url rs))) as [e|h0]; [discriminate|].
  destruct (status h0 =? 405).
  - unfold bind at 1, fetch.
    cbn [requests diagnostics cancelled List.length app].
    destruct (net 1%nat (fallbackRequest (ServerUtils.url rs))) as [e|g];
      [discriminate|].
    injection Hprobe as <- <- <-. reflexivity.
  - injection Hprobe as <- <- <-. reflexivity.
Qed.

(** The run from the inspection on, when the probe response passes it. *)
Lemma inspectAndFetch_passes (net : Network) (rs : ServerUtils.Resolved)
  (h : Response) (chunkSize : Z) (w : World) (response : Response) :
  isHtml h = false -> ok h = true ->
  let targetUrl := ServerUtils.url rs in
  let rq := rangeRequest targetUrl (determineFileSize h) chunkSize in
  net (List.length (requests w)) rq = inr response ->
  let d := set_responseStatus (status response)
             (set_resolvedFilename (determineFilename targetUrl h)
                                   (diagnostics w)) in
  let world cancel := {| requests := requests w ++ [rq]; diagnostics := d;
                         cancelled := cancel |} in
  inspectAndFetch net rs h chunkSize w
  = match body response with
    | None => (world (cancelled w),
               inl (Error "Failed to retrieve response body stream"))
    | Some bodyStream =>
        match readBody bodyStream with
        | inl e => (world (cancelled w), inl e)
        | inr (c, p) =>
            let w' := world (if didCancel c then true else cancelled w) in
            match settle c with
            | inl e => (w', inl e)
            | inr fileBuffer =>
                (w', inr {| buffer := fileBuffer;
                            filename := determineFilename targetUrl h;
                            fileSize := determineFileSize h;
                            resultDiagnostics := d |})
            end
        end
    end.
Proof.
  intros Hhtml Hok targetUrl rq Hnet d world.
  unfold inspectAndFetch. fold targetUrl. fold rq.
  unfold bind at 1, checkProbe. unfold isHtml in Hhtml. rewrite Hhtml, Hok.
  cbn [negb ret]. unfold bind at 1. cbn [updDiagnostics].
  unfold bind at 1, fetch at 1. cbn [requests diagnostics cancelled].
  rewrite Hnet. unfold bind at 1. cbn [updDiagnostics requests diagnostics cancelled].
  fold d. destruct (body response) as [bodyStream|]; [|reflexivity].
  unfold bind at 1, lift at 1.
  destruct (readBody bodyStream) as [e|[c p]]; [reflexivity|].
  cbn [fst]. unfold bind at 1.
  destruct (didCancel c); cbn [cancelReader ret requests diagnostics cancelled];
    unfold bind at 1, lift;
    (destruct (settle c) as [e|fileBuffer]; [reflexivity|]);
    reflexivity.
Qed.

(** Whatever comes of the inspection, one request at most is issued after
    the probe, the ranged one. *)
Lemma inspectAndFetch_requests (net : Network) (rs : ServerUtils.Resolved)
  (h : Response) (chunkSize : Z) (w : World) :
  let rq := rangeRequest (ServerUtils.url rs) (determineFileSize h) chunkSize in
  exists more,
    requests (fst (inspectAndFetch net rs h chunkSize w)) = requests w ++ more
    /\ (more = [] \/ more = [rq]).
Proof.
  intros rq. unfold inspectAndFetch. fold rq.
  assert (Hnone : forall l : list Request,
            exists more, l = l ++ more /\ (more = [] \/ more = [rq]))
    by (intros l; exists []; rewrite app_nil_r; auto).
  assert (Hone : forall l : list Request,
            exists more, l ++ [rq] = l ++ more /\ (more = [] \/ more = [rq]))
    by (intros l; exists [rq]; auto).
  unfold bind at 1, checkProbe.
  destruct (match headers h "content-type" with
            | Some ct => Js.includes ct "text/html"
            | None => false
            end).
  { destruct (ServerUtils.isGoogleDrive rs); apply Hnone. }
  destruct (negb (ok h)).
  { destruct (status h =? 404); [apply Hnone|].
    destruct (status h =? 403); apply Hnone. }
  cbn [ret]. unfold bind at 1. cbn [updDiagnostics].
  unfold bind at 1, fetch at 1. cbn [requests diagnostics cancelled].
  destruct (net _ rq) as [e|response]; [apply Hone|].
  unfold bind at 1. cbn [updDiagnostics requests diagnostics cancelled].
  destruct (body response) as [bodyStream|]; [|apply Hone].
  unfold bind at 1, lift at 1.
  destruct (readBody bodyStream) as [e|[c p]]; [apply Hone|].
  cbn [fst]. unfold bind at 1.
  destruct (didCancel c); cbn [cancelReader ret requests diagnostics cancelled];
    unfold bind at 1, lift;
    (destruct (settle c) as [e|fileBuffer]; apply Hone).
Qed.

(** A refusal of the guard ends the run before any request. *)
Lemma fetchMediaChunk_refused (net : Network) (initialUrl : string)
  (chunkSize : Z) (e : Thrown) :
  let rs := ServerUtils.resolveGoogleDriveUrl initialUrl in
  let run := fetchMediaChunk net initialUrl chunkSize initialWorld in
  ServerUtils.validateUrl (ServerUtils.url rs) = inl e ->
  snd run = inl e /\ requests (fst run) = [].
Proof.
  intros rs run Hvalid. unfold run, fetchMediaChunk. fold rs.
  unfold bind at 1. cbn [updDiagnostics initialWorld requests diagnostics cancelled].
  unfold bind at 1, lift. rewrite Hvalid. now split.
Qed.

(** X1.  A URL that [validateUrl] refuses is never fetched: the run throws
    what [validateUrl] threw, before any request is issued. *)
Theorem refused_url_issues_no_request (net : Network) (initialUrl : string)
  (chunkSize : Z) (e : Thrown) :
  let rs := ServerUtils.resolveGoogleDriveUrl initialUrl in
  let run := fetchMediaChunk net initialUrl chunkSize initialWorld in
  ServerUtils.validateUrl (ServerUtils.url rs) = inl e ->
  snd run = inl e /\ requests (fst run) = [].
Proof. exact (fetchMediaChunk_refused net initialUrl chunkSize e). Qed.

(** X2.  Every request of a run, however the run ends, goes to the
    resolved URL, which has passed [validateUrl]; the first is the HEAD
    probe, and there are three at most: the probe, its GET retry, the ranged
    request. *)
Theorem requests_target_resolved_url (net : Network) (initialUrl : string)
  (chunkSize : Z) :
  let rs := ServerUtils.resolveGoogleDriveUrl initialUrl in
  let issued :=
    requests (fst (fetchMediaChunk net initialUrl chunkSize initialWorld)) in
  Forall (fun rq => reqUrl rq = ServerUtils.url rs
                    /\ ServerUtils.validateUrl (ServerUtils.url rs) = inr tt)
         issued
  /\ (List.length issued <= 3)%nat
  /\ (issued = [] \/ exists rest, issued = headRequest (ServerUtils.url rs) :: rest).
Proof.
  intros rs issued.
  destruct (ServerUtils.validateUrl (ServerUtils.url rs)) as [e|[]] eqn:Hvalid.
  { destruct (fetchMediaChunk_refused net initialUrl chunkSize e Hvalid)
      as [_ Hnone].
    unfold issued. rewrite Hnone. split; [constructor|]. split; [cbn; lia | now left]. }
  destruct (probeOutcome net (ServerUtils.url rs)) as [e|[[reqs method] h]] eqn:Hprobe.
  - (* the probe itself fails *)
    assert (Hrun : exists l, issued = l
                   /\ (l = [headRequest (ServerUtils.url rs)]
                       \/ l = [headRequest (ServerUtils.url rs);
                               fallbackRequest (ServerUtils.url rs)])).
    { unfold issued, fetchMediaChunk. fold rs.
      unfold bind at 1. cbn [updDiagnostics initialWorld requests diagnostics cancelled].
      unfold bind at 1, lift. rewrite Hvalid.
      unfold bind at 1, probe. unfold bind at 1. unfold bind at 1, fetch at 1.
      cbn [requests diagnostics cancelled List.length app].
      unfold probeOutcome in Hprobe.
      destruct (net 0%nat (headRequest (ServerUtils.url rs))) as [e0|h0];
        [eexists; split; [reflexivity | now left]|].
      destruct (status h0 =? 405); [|discriminate].
      unfold bind at 1, fetch.
      cbn [requests diagnostics cancelled List.length app].
      destruct (net 1%nat (fallbackRequest (ServerUtils.url rs))) as [e1|g];
        [eexists; split; [reflexivity | now right] | discriminate]. }
    destruct Hrun as (l & Hl & Hrun). rewrite Hl.
    destruct Hrun as [-> | ->]; (split; [repeat constructor|]);
      (split; [cbn; lia | right; eexists; reflexivity]).
  - assert (Hreqs : reqs = [headRequest (ServerUtils.url rs)]
                    \/ reqs = [headRequest (ServerUtils.url rs);
                               fallbackRequest (ServerUtils.url rs)]).
    { unfold probeOutcome in Hprobe.
      destruct (net 0%nat _) as [e0|h0]; [discriminate|].
      destruct (status h0 =? 405).
      - destruct (net 1%nat _) as [e1|g]; [discriminate|].
        injection Hprobe as <- _ _. now right.
      - injection Hprobe as <- _ _. now left. }
    unfold issued.
    rewrite (fetchMediaChunk_after_probe net initialUrl chunkSize reqs method h
               Hvalid Hprobe).
    fold rs.
    destruct (inspectAndFetch_requests net rs h chunkSize
                (probedWorld rs method reqs)) as (more & -> & Hmore);
      cbn [probedWorld requests];
      destruct Hmore as [-> | ->]; destruct Hreqs as [-> | ->]; cbn [app];
      (split; [repeat constructor|]);
      (split; [cbn; lia | right; eexists; reflexivity]).
Qed.

(** X3.  A probe response that announces an HTML page, or whose status is
    outside 2xx, ends the run with an error and without the ranged request.
    The HTML test comes first: an HTML error page is reported as a web page
    (or, behind a Google Drive address, as rate limiting), whatever its
    status. *)
Theorem rejected_probe_stops_run (net : Network) (initialUrl : string)
  (chunkSize : Z) (reqs : list Request) (method : string) (h : Response) :
  let rs := ServerUtils.resolveGoogleDriveUrl initialUrl in
  let run := fetchMediaChunk net initialUrl chunkSize initialWorld in
  ServerUtils.validateUrl (ServerUtils.url rs) = inr tt ->
  probeOutcome net (ServerUtils.url rs) = inr (reqs, method, h) ->
  isHtml h = true \/ ok h = false ->
  requests (fst run) = reqs
  /\ snd run
     = inl (Error
              (if isHtml h then
                 if ServerUtils.isGoogleDrive rs
                 then "Google Drive file is rate-limited. Try again in 24 hours."
                 else "URL links to a webpage, not a media file. Provide a direct link."
               else if status h =? 404 then "Media file not found. Check the URL."
               else if status h =? 403
               then "Access denied. The link may have expired or requires authentication."
               else "Unable to access file (HTTP "
                    ++ Js.numberToString (Js.Num (status h)) ++ ").")).
Proof.
  intros rs run Hvalid Hprobe Hbad. unfold run.
  rewrite (fetchMediaChunk_after_probe net initialUrl chunkSize reqs method h
             Hvalid Hprobe).
  fold rs. unfold inspectAndFetch, bind at 1, checkProbe.
  unfold isHtml in *.
  destruct (match headers h "content-type" with
            | Some ct => Js.includes ct "text/html"
            | None => false
            end).
  - destruct (ServerUtils.isGoogleDrive rs); now split.
  - destruct Hbad as [Hbad|Hbad]; [discriminate|]. rewrite Hbad. cbn [negb].
    destruct (status h =? 404); [now split|].
    destruct (status h =? 403); now split.
Qed.

(** X4.  A run whose probe response passes the inspection, whose ranged
    request is answered with a body, and whose copy settles, returns: the
    buffer is what the copy settled on, the file name and the size are those
    read from the probe response, and the diagnostics record the probe
    method, that file name and the status of the ranged response.  That
    status is recorded and nothing else: the run returns the body of the
    ranged response whatever its status. *)
Theorem successful_run (net : Network) (initialUrl : string)
  (chunkSize : Z) (reqs : list Request) (method : string)
  (h response : Response) (bodyStream : Stream) (c : Copied) (p : Plan)
  (fileBuffer : list byte) :
  let rs := ServerUtils.resolveGoogleDriveUrl initialUrl in
  let targetUrl := ServerUtils.url rs in
  let rq := rangeRequest targetUrl (determineFileSize h) chunkSize in
  ServerUtils.validateUrl targetUrl = inr tt ->
  probeOutcome net targetUrl = inr (reqs, method, h) ->
  isHtml h = false -> ok h = true ->
  net (List.length reqs) rq = inr response ->
  body response = Some bodyStream ->
  readBody bodyStream = inr (c, p) ->
  settle c = inr fileBuffer ->
  let d := {| isGoogleDrive := Some (ServerUtils.isGoogleDrive rs);
              probeMethod := Some method;
              resolvedFilename := Some (determineFilename targetUrl h);
              responseStatus := Some (status response) |} in
  fetchMediaChunk net initialUrl chunkSize initialWorld
  = ({| requests := reqs ++ [rq]; diagnostics := d;
        cancelled := didCancel c |},
     inr {| buffer := fileBuffer;
            filename := determineFilename targetUrl h;
            fileSize := determineFileSize h;
            resultDiagnostics := d |}).
Proof.
  intros rs targetUrl rq Hvalid Hprobe Hhtml Hok Hnet Hbody Hread Hsettle d.
  rewrite (fetchMediaChunk_after_probe net initialUrl chunkSize reqs method h
             Hvalid Hprobe).
  fold rs.
  rewrite (inspectAndFetch_passes net rs h chunkSize (probedWorld rs method reqs)
             response Hhtml Hok Hnet).
  cbv zeta. rewrite Hbody, Hread, Hsettle.
  cbn [probedWorld requests diagnostics cancelled].
  now destruct (didCancel c).
Qed.

(** X5.  Past the probe, three things end the run with an error that is
    not one of the copy loop's: a ranged response without body; a first
    read that is rejected, whose error is thrown as it is, neither wrapped
    nor swallowed, since that read sits before the [try]; and a rejection of
    the ranged request itself. *)
Theorem body_failures (net : Network) (initialUrl : string)
  (chunkSize : Z) (reqs : list Request) (method : string) (h : Response) :
  let rs := ServerUtils.resolveGoogleDriveUrl initialUrl in
  let targetUrl := ServerUtils.url rs in
  let rq := rangeRequest targetUrl (determineFileSize h) chunkSize in
  let run := fetchMediaChunk net initialUrl chunkSize initialWorld in
  ServerUtils.validateUrl targetUrl = inr tt ->
  probeOutcome net targetUrl = inr (reqs, method, h) ->
  isHtml h = false -> ok h = true ->
  (forall e, net (List.length reqs) rq = inl e -> snd run = inl e)
  /\ (forall response,
        net (List.length reqs) rq = inr response ->
        (body response = None ->
         snd run = inl (Error "Failed to retrieve response body stream"))
        /\ (forall m,
              body response = Some {| chunks := []; ending := Errored m |} ->
              snd run = inl (Error m))
        /\ (body response = Some {| chunks := []; ending := Closed |} ->
            exists res, snd run = inr res /\ buffer res = [])).
Proof.
  intros rs targetUrl rq run Hvalid Hprobe Hhtml Hok. unfold run.
  rewrite (fetchMediaChunk_after_probe net initialUrl chunkSize reqs method h
             Hvalid Hprobe).
  fold rs. split.
  - intros e Hnet. unfold inspectAndFetch. fold targetUrl. fold rq.
    unfold bind at 1, checkProbe. unfold isHtml in Hhtml. rewrite Hhtml, Hok.
    cbn [negb ret]. unfold bind at 1. cbn [updDiagnostics].
    unfold bind at 1, fetch at 1.
    cbn [probedWorld requests diagnostics cancelled].
    fold rq. now rewrite Hnet.
  - intros response Hnet.
    rewrite (inspectAndFetch_passes net rs h chunkSize
               (probedWorld rs method reqs) response Hhtml Hok Hnet).
    cbv zeta. split; [|split].
    + now intros ->.
    + now intros m ->.
    + intros ->. cbn. eexists; split; reflexivity.
Qed.

End RunFacts.

Lemma refused_url_issues_no_request_witness :
  snd (@MediaFetch.fetchMediaChunk Fixtures.urlParser Fixtures.uriDecoder
         Fixtures.inflater greedyServer "http://127.0.0.1:8080/a.mkv"
         MediaFetch.defaultChunkSize MediaFetch.initialWorld)
  = inl (Error "Invalid URL: Access to local resources is denied.")
  /\ MediaFetch.requests
       (fst (@MediaFetch.fetchMediaChunk Fixtures.urlParser Fixtures.uriDecoder
               Fixtures.inflater greedyServer "http://127.0.0.1:8080/a.mkv"
               MediaFetch.defaultChunkSize MediaFetch.initialWorld))
     = [].
Proof.
  exact (@refused_url_issues_no_request Fixtures.urlParser Fixtures.uriDecoder
           Fixtures.inflater greedyServer "http://127.0.0.1:8080/a.mkv"
           MediaFetch.defaultChunkSize _ eq_refl).
Defined.

Lemma rejected_probe_stops_run_witness :
  snd (@MediaFetch.fetchMediaChunk Fixtures.urlParser Fixtures.uriDecoder
         Fixtures.inflater htmlErrorServer "https://example.com/a.mkv"
         MediaFetch.defaultChunkSize MediaFetch.initialWorld)
  = inl (Error "URL links to a webpage, not a media file. Provide a direct link.").
Proof.
  exact (proj2 (@rejected_probe_stops_run Fixtures.urlParser Fixtures.uriDecoder
                  Fixtures.inflater htmlErrorServer "https://example.com/a.mkv"
                  MediaFetch.defaultChunkSize
                  [MediaFetch.headRequest "https://example.com/a.mkv"]
                  "HEAD" htmlNotFound eq_refl eq_refl (or_introl eq_refl))).
Defined.

Lemma successful_run_witness :
  snd (@MediaFetch.fetchMediaChunk Fixtures.urlParser Fixtures.uriDecoder
         Fixtures.inflater (plainServer "2" 500 [x1a; x45])
         "https://example.com/a.mkv"
         MediaFetch.defaultChunkSize MediaFetch.initialWorld)
  = inr {| MediaFetch.buffer := [x1a; x45];
           MediaFetch.filename := "https://example.com/a.mkv";
           MediaFetch.fileSize := Some (Js.Num 2);
           MediaFetch.resultDiagnostics :=
             {| MediaFetch.isGoogleDrive := Some false;
                MediaFetch.probeMethod := Some "HEAD";
                MediaFetch.resolvedFilename := Some "https://example.com/a.mkv";
                MediaFetch.responseStatus := Some 500 |} |}.
Proof.
  exact (f_equal snd
           (@successful_run Fixtures.urlParser Fixtures.uriDecoder
              Fixtures.inflater (plainServer "2" 500 [x1a; x45])
              "https://example.com/a.mkv" MediaFetch.defaultChunkSize
              [MediaFetch.headRequest "https://example.com/a.mkv"] "HEAD"
              {| MediaFetch.status := 200;
                 MediaFetch.headers := headersOf [("content-length", "2")];
                 MediaFetch.body := None |}
              {| MediaFetch.status := 500;
                 MediaFetch.headers := headersOf [];
                 MediaFetch.body :=
                   Some {| chunks := [[x1a; x45]]; ending := Closed |} |}
              {| chunks := [[x1a; x45]]; ending := Closed |}
              {| MediaFetch.written := [x1a; x45];
                 MediaFetch.didCancel := false;
                 MediaFetch.failure := None |}
              {| MediaFetch.firstChunk := Some [x1a; x45];
                 MediaFetch.isZipCompressed := false;
                 MediaFetch.finalReader := {| chunks := []; ending := Closed |} |}
              [x1a; x45]
              eq_refl eq_refl eq_refl eq_refl eq_refl eq_refl eq_refl eq_refl)).
Defined.

Lemma body_failures_witness :
  snd (@MediaFetch.fetchMediaChunk Fixtures.urlParser Fixtures.uriDecoder
         Fixtures.inflater failingBodyServer "https://example.com/a.mkv"
         MediaFetch.defaultChunkSize MediaFetch.initialWorld)
  = inl (Error "unexpected end of file").
Proof.
  exact (proj1 (proj2 (proj2 (@body_failures Fixtures.urlParser Fixtures.uriDecoder
                  Fixtures.inflater failingBodyServer "https://example.com/a.mkv"
                  MediaFetch.defaultChunkSize
                  [MediaFetch.headRequest "https://example.com/a.mkv"]
                  "HEAD" bareOk
                  eq_refl eq_refl eq_refl eq_refl) brokenBody eq_refl))
               "unexpected end of file" eq_refl).
Defined.

(** ** The headers of the probe response *)

Section HeaderFacts.
Import MediaFetch.

Lemma whiteLen_digit (c : ascii) (s : string) :
  Js.isDigit c = true -> Js.whiteLen (String c s) = None.
Proof.
  destruct c as [[] [] [] [] [] [] [] []]; try discriminate; reflexivity.
Qed.

Lemma digits_decimal (s : string) :
  allChars Js.isDigit s = true ->
  forall acc, Js.digits 10 (Some acc) s = Some (decimalFrom acc s).
Proof.
  induction s as [|c s IH]; intros Hs acc; [reflexivity|].
  cbn [allChars] in Hs. apply andb_true_iff in Hs as [Hc Hs].
  cbn [Js.digits decimalFrom].
  assert (Hv : Js.digitValue 10 c = Some (Z.of_N (N_of_ascii c) - 48))
    by (destruct c as [[] [] [] [] [] [] [] []]; try discriminate; reflexivity).
  rewrite Hv. apply IH, Hs.
Qed.

(** [parseInt] on a string of decimal digits. *)
Lemma parseInt_decimal (s : string) :
  s <> EmptyString -> allChars Js.isDigit s = true ->
  Js.parseInt s 10 = Js.Num (decimal s).
Proof.
  intros Hne Hs. destruct s as [|c s]; [contradiction|].
  pose proof Hs as Hs'. cbn [allChars] in Hs'.
  apply andb_true_iff in Hs' as [Hc _].
  unfold Js.parseInt. cbn [String.length Js.skipWhite].
  rewrite (whiteLen_digit c s Hc).
  assert (Hsign : match String c s with
                  | String "-"%char u => (-1, u)
                  | String "+"%char u => (1, u)
                  | _ => (1, String c s)
                  end = (1, String c s))
    by (destruct c as [[] [] [] [] [] [] [] []]; try discriminate; reflexivity).
  rewrite Hsign. cbn [Js.digits].
  assert (Hv : Js.digitValue 10 c = Some (Z.of_N (N_of_ascii c) - 48))
    by (destruct c as [[] [] [] [] [] [] [] []]; try discriminate; reflexivity).
  rewrite Hv.
  cbn [allChars] in Hs. apply andb_true_iff in Hs as [_ Hs].
  rewrite (digits_decimal s Hs). unfold decimal. cbn [decimalFrom].
  destruct (decimalFrom _ s); reflexivity.
Qed.

Lemma allDigits_true (s : string) :
  s <> EmptyString -> allChars Js.isDigit s = true -> allDigits s = true.
Proof.
  intros Hne Hs. unfold allDigits.
  pose proof (span_stops Js.isDigit s EmptyString Hs I) as Hspan.
  rewrite append_nil_r in Hspan. rewrite Hspan.
  destruct s; [contradiction | reflexivity].
Qed.

Lemma allDigits_no_slash (a b : string) : allDigits (a ++ "/" ++ b) = false.
Proof.
  unfold allDigits.
  destruct (Js.span Js.isDigit (a ++ "/" ++ b)) as [x y] eqn:Hspan.
  apply span_spec in Hspan as [Heq Hx].
  destruct x as [|c x]; [reflexivity|].
  destruct y as [|d y]; [|reflexivity].
  rewrite append_nil_r in Heq. rewrite <- Heq, allChars_app in Hx.
  apply andb_true_iff in Hx as [_ Hx]. discriminate.
Qed.

(** The total of a [Content-Range] value is what follows its last slash,
    when that is a number. *)
Lemma contentRangeTotal_last (pre ds : string) :
  ds <> EmptyString -> allChars Js.isDigit ds = true ->
  contentRangeTotal (pre ++ "/" ++ ds) = Some ds.
Proof.
  intros Hne Hds. unfold contentRangeTotal.
  induction pre as [|c pre IH].
  - cbn [append Js.leftmost]. now rewrite (allDigits_true ds Hne Hds).
  - cbn [append Js.leftmost].
    replace (match String c (pre ++ String "/" ds) with
             | String "/"%char r => if allDigits r then Some r else None
             | _ => None
             end) with (@None string); [exact IH|].
    destruct (Ascii.eqb c "/") eqn:Hc.
    + apply Ascii.eqb_eq in Hc. subst c.
      change (pre ++ String "/" ds) with (pre ++ "/" ++ ds).
      now rewrite allDigits_no_slash.
    + destruct c as [[] [] [] [] [] [] [] []]; try reflexivity; discriminate.
Qed.

Lemma determineFileSize_without_range (h : Response) :
  headers h "content-range" = None ->
  determineFileSize h
  = match headers h "content-length" with
    | Some cl => if Js.truthy cl then Some (Js.parseInt cl 10) else None
    | None => None
    end.
Proof. intros Hcr. unfold determineFileSize. now rewrite Hcr. Qed.

(** X6.  The total size is the number after the last slash of
    [Content-Range] when there is one and it is not zero, whatever
    [Content-Length] says (for a total of at most [2^53], which a JavaScript
    number holds exactly); otherwise it is what [parseInt] makes of
    [Content-Length], be it [NaN]; and it is unknown only when neither header
    gives anything. *)
Theorem content_range_total_has_priority (h : Response) :
  (forall pre ds,
      headers h "content-range" = Some (pre ++ "/" ++ ds) ->
      ds <> EmptyString -> allChars Js.isDigit ds = true ->
      (decimal ds <> 0 -> decimal ds <= 2 ^ 53 ->
       determineFileSize h = Some (Js.Num (decimal ds)))
      /\ (decimal ds = 0 ->
          determineFileSize h
          = match headers h "content-length" with
            | Some cl => if Js.truthy cl then Some (Js.parseInt cl 10)
                         else Some (Js.Num 0)
            | None => Some (Js.Num 0)
            end))
  /\ (headers h "content-range" = None ->
      determineFileSize h
      = match headers h "content-length" with
        | Some cl => if Js.truthy cl then Some (Js.parseInt cl 10) else None
        | None => None
        end).
Proof.
  split.
  - intros pre ds Hcr Hne Hds. unfold determineFileSize. rewrite Hcr.
    assert (Htruthy : Js.truthy (pre ++ "/" ++ ds) = true)
      by (destruct pre; reflexivity).
    rewrite Htruthy, (contentRangeTotal_last pre ds Hne Hds),
      (parseInt_decimal ds Hne Hds).
    cbn [Js.falsy]. split; [intros Hz _ | intros Hz].
    + now rewrite (proj2 (Z.eqb_neq _ _) Hz).
    + rewrite Hz. cbn [Z.eqb]. reflexivity.
  - apply determineFileSize_without_range.
Qed.

(** X7.  The range that is asked for when the size is degenerate: without
    any size, the first [chunkSize] bytes; with a [Content-Length] that is
    not a number, [bytes=0-NaN]; with a [Content-Length] of zero,
    [bytes=0--1]. *)
Theorem degenerate_size_range_header (h : Response) (chunkSize : Z) :
  headers h "content-range" = None ->
  0 < chunkSize ->
  (headers h "content-length" = None ->
   rangeHeader (determineFileSize h) chunkSize
   = "bytes=0-" ++ Js.numberToString (Js.Num (chunkSize - 1)))
  /\ (forall cl, headers h "content-length" = Some cl -> cl <> EmptyString ->
        (Js.parseInt cl 10 = Js.NaN ->
         rangeHeader (determineFileSize h) chunkSize = "bytes=0-NaN")
        /\ (Js.parseInt cl 10 = Js.Num 0 ->
            rangeHeader (determineFileSize h) chunkSize = "bytes=0--1")).
Proof.
  intros Hcr Hsize.
  pose proof (determineFileSize_without_range h Hcr) as Hfs.
  split.
  - intros Hcl. rewrite Hfs, Hcl. reflexivity.
  - intros cl Hcl Hne. rewrite Hfs, Hcl.
    assert (Htruthy : Js.truthy cl = true) by (destruct cl; [contradiction | reflexivity]).
    rewrite Htruthy. split; intros ->.
    + reflexivity.
    + unfold rangeHeader, fetchEnd. cbn [Js.pred Js.min].
      replace (Z.min (chunkSize - 1) (0 - 1)) with (-1) by lia. reflexivity.
Qed.

End HeaderFacts.

Lemma degenerate_size_range_header_witness :
  MediaFetch.rangeHeader
    (MediaFetch.determineFileSize
       {| MediaFetch.status := 200;
          MediaFetch.headers := headersOf [("content-length", "unknown")];
          MediaFetch.body := None |})
    MediaFetch.defaultChunkSize
  = "bytes=0-NaN".
Proof.
  refine (proj1 (proj2 (degenerate_size_range_header
                          {| MediaFetch.status := 200;
                             MediaFetch.headers := headersOf [("content-length", "unknown")];
                             MediaFetch.body := None |}
                          MediaFetch.defaultChunkSize eq_refl eq_refl)
                   "unknown" eq_refl _)
                eq_refl).
  discriminate.
Defined.

Section FilenameFacts.
Import MediaFetch.
Context `{UriDecoder}.

Lemma lowerChar_star (c : ascii) :
  Ascii.eqb "*" (Js.lowerChar c) = true -> c = "*"%char.
Proof. destruct c as [[] [] [] [] [] [] [] []]; try discriminate; reflexivity. Qed.

(** The encoded form is announced by [filename*=]: a text without a star
    holds none. *)
Lemma starPrefix_needs_star (t : string) :
  allChars notStar t = true ->
  Js.stripPrefixCI "filename*=utf-8''" t = None.
Proof.
  intros Ht.
  do 8 (destruct t as [|? t]; [reflexivity|];
        cbn [Js.stripPrefixCI];
        match goal with
        | |- (if ?b then _ else _) = _ => destruct b; [|reflexivity]
        end;
        cbn [allChars] in Ht; apply andb_true_iff in Ht as [_ Ht]).
  destruct t as [|c t]; [reflexivity|]. cbn [Js.stripPrefixCI].
  destruct (Ascii.eqb "*" (Js.lowerChar c)) eqn:Hc; [|reflexivity].
  apply lowerChar_star in Hc. subst c. discriminate.
Qed.

Lemma starMatch_needs_star (t : string) :
  allChars notStar t = true -> starMatch t = None.
Proof.
  intros Ht. unfold starMatch. apply leftmost_None. intros pre post ->.
  rewrite allChars_app in Ht. apply andb_true_iff in Ht as [_ Ht].
  now rewrite (starPrefix_needs_star post Ht).
Qed.

Lemma capture_run (class : ascii -> bool) (a rest : string) :
  a <> EmptyString -> allChars class a = true ->
  match rest with EmptyString => True | String c _ => class c = false end ->
  capture class (a ++ rest) = Some a.
Proof.
  intros Hne Ha Hrest. unfold capture.
  rewrite (span_stops class a rest Ha Hrest). cbn [fst].
  destruct a; [contradiction | reflexivity].
Qed.

(** X8.  A plain quoted file name comes back without its quotes; an
    encoded name that precedes it is preferred, and when the encoded name
    does not decode, the file name is the URL, not the plain name; without
    [Content-Disposition], it is the URL. *)
Theorem filename_from_disposition (targetUrl : string) (h : Response) :
  (headers h "content-disposition" = None ->
   determineFilename targetUrl h = targetUrl)
  /\ (forall plain,
        headers h "content-disposition" = Some (plainDisposition plain) ->
        plain <> EmptyString ->
        allChars isPlainNameChar plain = true ->
        allChars notStar plain = true ->
        determineFilename targetUrl h = plain)
  /\ (forall encoded plain,
        headers h "content-disposition"
        = Some (encodedDisposition encoded plain) ->
        encoded <> EmptyString ->
        allChars notSemicolon encoded = true ->
        determineFilename targetUrl h
        = match decodeURIComponent encoded with
          | Some decoded => decoded
          | None => targetUrl
          end).
Proof.
  split; [|split].
  - intros Hcd. unfold determineFilename. now rewrite Hcd.
  - intros plain Hcd Hne Hplain Hstar. unfold determineFilename. rewrite Hcd.
    change (Js.truthy (plainDisposition plain)) with true. cbv iota.
    assert (Hnostar : starMatch (plainDisposition plain) = None).
    { apply starMatch_needs_star. unfold plainDisposition.
      rewrite !allChars_app, Hstar. reflexivity. }
    rewrite Hnostar.
    assert (Hnormal : normalMatch (plainDisposition plain) = Some plain).
    { unfold normalMatch, plainDisposition.
      set (tail := plain ++ ServerUtils.dq).
      assert (Hcap : capture notQuoteNorSemicolon tail = Some plain)
        by (apply capture_run; [exact Hne | exact Hplain | reflexivity]).
      cbn -[tail capture]. now rewrite Hcap. }
    now rewrite Hnormal.
  - intros encoded plain Hcd Hne Henc. unfold determineFilename. rewrite Hcd.
    change (Js.truthy (encodedDisposition encoded plain)) with true. cbv iota.
    assert (Hstar : starMatch (encodedDisposition encoded plain) = Some encoded).
    { unfold starMatch, encodedDisposition.
      set (tail := encoded ++ "; filename=" ++ ServerUtils.dq ++ plain ++ ServerUtils.dq).
      assert (Hcap : capture notSemicolon tail = Some encoded)
        by (apply capture_run; [exact Hne | exact Henc | reflexivity]).
      cbn -[tail capture]. now rewrite Hcap. }
    now rewrite Hstar.
Qed.

End FilenameFacts.

Lemma filename_from_disposition_witness :
  @MediaFetch.determineFilename Fixtures.uriDecoder "https://example.com/dl?id=7"
    {| MediaFetch.status := 200;
       MediaFetch.headers :=
         headersOf [("content-disposition", plainDisposition "Some Movie (2024).mkv")];
       MediaFetch.body := None |}
  = "Some Movie (2024).mkv".
Proof.
  refine (proj1 (proj2 (@filename_from_disposition Fixtures.uriDecoder
                          "https://example.com/dl?id=7"
                          {| MediaFetch.status := 200;
                             MediaFetch.headers :=
                               headersOf [("content-disposition",
                                            plainDisposition "Some Movie (2024).mkv")];
                             MediaFetch.body := None |}))
                "Some Movie (2024).mkv" eq_refl _ eq_refl eq_refl).
  discriminate.
Defined.

(** ** The copy below the cap *)

Section SmallBodies.
Import MediaFetch.
Context `{Inflater}.
Local Open Scope list_scope.

Lemma readBody_ending (bodyStream : Stream) (c : Copied) (p : Plan) :
  readBody bodyStream = inr (c, p) ->
  unwrapped p = false ->
  ending (finalReader p) = ending bodyStream.
Proof.
  unfold readBody, readFirst.
  destruct (chunks bodyStream) as [|fc rest] eqn:Hchunks.
  - destruct (ending bodyStream) eqn:Hend; [|discriminate].
    intros [= <- <-] _. cbn. exact Hend.
  - intros [= <- <-]. unfold plan, unwrapped.
    destruct (hasZipSignature fc); [|reflexivity].
    destruct (compressionMethod fc =? 8); [|reflexivity].
    destruct (byteLength fc >? dataOffset fc); [discriminate | reflexivity].
Qed.

(** X9.  A body of [SAFE_LIMIT] bytes at most that is not unwrapped and
    closes is returned whole: the buffer is the concatenation of its chunks,
    in order, and the reader is not cancelled. *)
Theorem small_body_returned_whole (bodyStream : Stream) (c : Copied) (p : Plan) :
  readBody bodyStream = inr (c, p) ->
  unwrapped p = false ->
  ending bodyStream = Closed ->
  totalLength (chunks bodyStream) <= SAFE_LIMIT ->
  settle c = inr (List.concat (chunks bodyStream))
  /\ didCancel c = false.
Proof.
  intros Hread Hraw Hclosed Hsmall.
  pose proof (readBody_ending _ _ _ Hread Hraw) as Hend.
  destruct (readBody_inr _ _ _ Hread) as (-> & Hok & Hpending).
  specialize (Hpending Hraw).
  rewrite (copy_spec p Hok), Hpending, Hend, Hclosed.
  rewrite gtb_false by lia. cbn [andb orb endingError].
  unfold settle. cbn [failure written didCancel].
  replace (if firstExact p then None else None) with (@None string)
    by now destruct (firstExact p).
  split; [|reflexivity]. f_equal. apply takeZ_fits. exact Hsmall.
Qed.

(** X10.  A first chunk that announces a deflated ZIP entry but ends inside
    the local header is not unwrapped: the decompressor is not used, and the
    bytes of the body are copied as they are. *)
Theorem incomplete_zip_header_is_copied_raw (fc : list byte)
  (rest : list (list byte)) (e : Ending) :
  hasZipSignature fc = true ->
  compressionMethod fc = 8 ->
  byteLength fc <= dataOffset fc ->
  exists c p,
    readBody {| chunks := fc :: rest; ending := e |} = inr (c, p)
    /\ firstChunk p = Some fc
    /\ finalReader p = {| chunks := rest; ending := e |}
    /\ written c = takeZ SAFE_LIMIT (fc ++ List.concat rest).
Proof.
  intros Hsig Hmethod Hshort.
  unfold readBody, readFirst. cbn [chunks ending].
  eexists _, _. split; [reflexivity|].
  assert (Hplan : plan (Some fc) {| chunks := rest; ending := e |}
                  = {| firstChunk := Some fc; isZipCompressed := true;
                       finalReader := {| chunks := rest; ending := e |} |}).
  { unfold plan. rewrite Hsig, Hmethod. cbn [Z.eqb Pos.eqb].
    now rewrite gtb_false by lia. }
  rewrite Hplan. cbn [firstChunk finalReader]. split; [reflexivity|].
  split; [reflexivity|].
  rewrite copy_spec by (rewrite <- Hplan; apply plan_ok).
  reflexivity.
Qed.

End SmallBodies.

Lemma small_body_returned_whole_witness :
  MediaFetch.settle
    {| MediaFetch.written := [x1a; x45; xdf; xa3];
       MediaFetch.didCancel := false; MediaFetch.failure := None |}
  = inr (List.concat [[x1a; x45]; [xdf; xa3]])
  /\ MediaFetch.didCancel
       {| MediaFetch.written := [x1a; x45; xdf; xa3];
          MediaFetch.didCancel := false; MediaFetch.failure := None |}
     = false.
Proof.
  eapply (@small_body_returned_whole Fixtures.inflater
            {| chunks := [[x1a; x45]; [xdf; xa3]]; ending := Closed |}
            {| MediaFetch.written := [x1a; x45; xdf; xa3];
               MediaFetch.didCancel := false; MediaFetch.failure := None |});
    [reflexivity | reflexivity | reflexivity | discriminate].
Defined.

Lemma incomplete_zip_header_is_copied_raw_witness :
  exists c p,
    @MediaFetch.readBody Fixtures.inflater
      {| chunks := [cutHeaderChunk; [x2e; x6d]]; ending := Closed |}
    = inr (c, p)
    /\ MediaFetch.firstChunk p = Some cutHeaderChunk
    /\ MediaFetch.finalReader p = {| chunks := [[x2e; x6d]]; ending := Closed |}
    /\ MediaFetch.written c
       = takeZ MediaFetch.SAFE_LIMIT (cutHeaderChunk ++ List.concat [[x2e; x6d]]).
Proof.
  apply (@incomplete_zip_header_is_copied_raw Fixtures.inflater
           cutHeaderChunk [[x2e; x6d]] Closed);
    [reflexivity | reflexivity | discriminate].
Defined.

(** ** The archive walks on arbitrary buffers *)

Section WalkFacts.
Import MediaUtils.
Local Open Scope list_scope.

Section OneDecoder.
Context `{Utf8Decoder}.

Lemma zipWalk_file_name (buffer : list byte) (name : string) :
  forall (fuel : nat) (offset : Z),
    0 <= offset ->
    zipWalk fuel buffer offset = Some (Some name) ->
    Js.endsWith name "/" = false
    /\ exists start stop,
         30 <= start /\ start <= stop <= byteLength buffer
         /\ name = decode (subarray buffer start stop).
Proof.
  induction fuel as [|fuel IH]; intros offset Hoff; [discriminate|].
  cbn [zipWalk].
  destruct (offset + 30 <=? byteLength buffer) eqn:Hguard; cbn [negb];
    [|discriminate].
  destruct (_ || _); [discriminate|].
  destruct (_ >? _) eqn:Hfits; [discriminate|].
  pose proof (getUint16_nonneg buffer (offset + 26)).
  pose proof (getUint16_nonneg buffer (offset + 28)).
  pose proof (getUint32_nonneg buffer (offset + 18)).
  match goal with
  | |- context [negb (Js.endsWith ?n "/")] =>
      destruct (Js.endsWith n "/") eqn:Hdir
  end; cbn [negb].
  - intros Hrun. apply IH in Hrun; [exact Hrun|].
    destruct (negb (Z.land (getUint16 buffer (offset + 6)) 8 =? 0)); lia.
  - intros [= <-]. split; [exact Hdir|].
    exists (offset + 30), (offset + 30 + getUint16 buffer (offset + 26)).
    apply gtb_ge_iff in Hfits. split; [lia|]. split; [lia | reflexivity].
Qed.

(** X14.  The ZIP walk returns on every buffer, and what it returns is
    [null] or the decoded text of a slice of the buffer that does not end in
    a slash: never the name of a directory entry. *)
Theorem zip_peek_total (buffer : list byte) :
  exists r,
    extractFirstFileFromZip buffer = Some r
    /\ forall name, r = Some name ->
         Js.endsWith name "/" = false
         /\ exists start stop,
              30 <= start /\ start <= stop <= byteLength buffer
              /\ name = decode (subarray buffer start stop).
Proof.
  destruct (extractFirstFileFromZip buffer) as [r|] eqn:Hrun.
  - exists r. split; [reflexivity|]. intros name ->.
    apply (zipWalk_file_name buffer name (S (List.length buffer)) 0);
      [lia | exact Hrun].
  - now apply extractFirstFileFromZip_returns in Hrun.
Qed.

Lemma tarWalk_file_name (buffer : list byte) (name : string) :
  forall (fuel : nat) (offset : Z) (override : option string),
    tarWalk fuel buffer offset override = Some (Some name) ->
    name <> EmptyString /\ Js.endsWith name "/" = false.
Proof.
  induction fuel as [|fuel IH]; intros offset override; [discriminate|].
  cbn [tarWalk].
  destruct (negb (offset + 512 <=? byteLength buffer)); [discriminate|].
  destruct (is_ buffer offset 0 && isZeroBlock buffer offset); [apply IH|].
  destruct (byteOr0 buffer (offset + 156) =? 76); [apply IH|].
  match goal with
  | |- (if ?c then Some ?n else _) = _ -> _ =>
      destruct c eqn:Hc; [|apply IH]; destruct n as [s|] eqn:Hn
  end.
  - intros [= <-].
    apply andb_true_iff in Hc as [Hc Hslash].
    apply andb_true_iff in Hc as [_ Htruthy].
    apply negb_true_iff in Hslash. apply negb_true_iff in Htruthy.
    cbn [noName] in Htruthy. apply negb_false_iff in Htruthy.
    split; [|exact Hslash].
    intros ->. discriminate Htruthy.
  - discriminate.
Qed.

(** X15.  Whenever the TAR walk returns a name, the name is not empty and
    does not end in a slash. *)
Theorem tar_peek_file_name (fuel : nat) (buffer : list byte) (name : string) :
  extractFirstFileFromTar fuel buffer = Some (Some name) ->
  name <> EmptyString /\ Js.endsWith name "/" = false.
Proof. apply tarWalk_file_name. Qed.

End OneDecoder.

Lemma forallb_takeZ {A} (p : A -> bool) (l : list A) :
  forallb p l = true -> forall n, forallb p (takeZ n l) = true.
Proof.
  induction l as [|x l IH]; intros Hl n; [reflexivity|].
  cbn [forallb] in Hl. apply andb_true_iff in Hl as [Hx Hl].
  cbn [takeZ]. destruct (0 <? n); [|reflexivity].
  cbn [forallb]. now rewrite Hx, IH.
Qed.

Lemma forallb_dropZ {A} (p : A -> bool) (l : list A) :
  forallb p l = true -> forall n, forallb p (dropZ n l) = true.
Proof.
  induction l as [|x l IH]; intros Hl n; [reflexivity|].
  pose proof Hl as Hl'. cbn [forallb] in Hl'.
  apply andb_true_iff in Hl' as [Hx Hl'].
  cbn [dropZ]. destruct (0 <? n); [now apply IH | exact Hl].
Qed.

Lemma subarray_ascii (buffer : list byte) (a b : Z) :
  forallb isAsciiByte buffer = true ->
  forallb isAsciiByte (subarray buffer a b) = true.
Proof.
  intros Hb. unfold subarray. now apply forallb_takeZ, forallb_dropZ.
Qed.

Lemma trimTrailingZeros_ascii (bs : list byte) :
  forallb isAsciiByte bs = true ->
  forallb isAsciiByte (trimTrailingZeros bs) = true.
Proof.
  induction bs as [|b bs IH]; intros Hbs; [reflexivity|].
  cbn [forallb] in Hbs. apply andb_true_iff in Hbs as [Hb Hbs].
  cbn [trimTrailingZeros]. specialize (IH Hbs).
  destruct (trimTrailingZeros bs) as [|t ts].
  - destruct (Byte.to_N b =? 0)%N; [reflexivity|]. cbn [forallb]. now rewrite Hb.
  - cbn [forallb] in *. now rewrite Hb, IH.
Qed.

(** On a buffer of ASCII bytes the TAR walk does not depend on the
    decoder. *)
Lemma tarWalk_ascii (D D' : Utf8Decoder) (buffer : list byte) :
  forallb isAsciiByte buffer = true ->
  forall (fuel : nat) (offset : Z) (override : option string),
    @tarWalk D fuel buffer offset override
    = @tarWalk D' fuel buffer offset override.
Proof.
  intros Hascii. induction fuel as [|fuel IH]; intros offset override;
    [reflexivity|].
  cbn [tarWalk].
  rewrite !(@decode_ascii D), !(@decode_ascii D')
    by auto using subarray_ascii, trimTrailingZeros_ascii.
  rewrite !IH. reflexivity.
Qed.

Lemma loopingTar_turns (fuel : nat) :
  @tarWalk Fixtures.utf8Decoder (S fuel) loopingTar 0 None
  = @tarWalk Fixtures.utf8Decoder fuel loopingTar (-512) None
  /\ @tarWalk Fixtures.utf8Decoder (S fuel) loopingTar (-512) None
     = @tarWalk Fixtures.utf8Decoder fuel loopingTar 0 None.
Proof.
  cbn [tarWalk].
  generalize (@tarWalk Fixtures.utf8Decoder fuel loopingTar). intros walk.
  split; vm_compute; reflexivity.
Qed.

Lemma loopingTar_never_returns :
  forall (fuel : nat),
    @tarWalk Fixtures.utf8Decoder fuel loopingTar 0 None = None
    /\ @tarWalk Fixtures.utf8Decoder fuel loopingTar (-512) None = None.
Proof.
  induction fuel as [|fuel [IH0 IH1]]; [now split|].
  destruct (loopingTar_turns fuel) as [H0 H1].
  split; [exact (eq_trans H0 IH1) | exact (eq_trans H1 IH0)].
Qed.

(** X16.  The TAR walk does not return on every buffer.  A size field may
    hold a negative number, which moves the offset backwards; on
    [loopingTar], a buffer of 1024 bytes that passes the [ustar] test, two
    turns of the loop bring it back to offset 0 in the state it started
    from, so no number of turns is enough. *)
Theorem tar_walk_can_run_forever `{Utf8Decoder} :
  (forall fuel : nat,
      tarWalk (S (S fuel)) loopingTar 0 None = tarWalk fuel loopingTar 0 None)
  /\ (forall fuel : nat, extractFirstFileFromArchive fuel loopingTar = None).
Proof.
  assert (Hascii : forallb isAsciiByte loopingTar = true) by reflexivity.
  split; intros fuel.
  - rewrite (tarWalk_ascii _ Fixtures.utf8Decoder loopingTar Hascii (S (S fuel))),
      (tarWalk_ascii _ Fixtures.utf8Decoder loopingTar Hascii fuel).
    exact (eq_trans (proj1 (loopingTar_turns (S fuel)))
                    (proj2 (loopingTar_turns fuel))).
  - unfold extractFirstFileFromArchive, extractFirstFileFromTar.
    rewrite decode_ascii by now apply subarray_ascii.
    replace ((byteLength loopingTar >? 4)
             && is_ loopingTar 0 80 && is_ loopingTar 1 75
             && is_ loopingTar 2 3 && is_ loopingTar 3 4) with false
      by reflexivity.
    replace ((byteLength loopingTar >? 262)
             && (string_of_list_byte (subarray loopingTar 257 262) =? "ustar")%string)
      with true by reflexivity.
    rewrite (tarWalk_ascii _ Fixtures.utf8Decoder loopingTar Hascii).
    apply loopingTar_never_returns.
Qed.

End WalkFacts.

Lemma tar_peek_file_name_witness :
  string_of_list_byte sampleLongName <> EmptyString
  /\ Js.endsWith (string_of_list_byte sampleLongName) "/" = false.
Proof.
  refine (@tar_peek_file_name Fixtures.utf8Decoder 4
            (gnuLongNameArchive sampleLongName [2; 0; 1] [3] [x01; x02; x03])
            (string_of_list_byte sampleLongName) _).
  vm_compute. reflexivity.
Defined.

(** ** Clean-up of a report *)

Section CleanFacts.
Import MediaUtils MediaData.
Variable number : Type.
Local Open Scope list_scope.

Local Abbreviation clean := (removeEmptyStrings number).

Lemma clean_array (items : list (Json number)) :
  Forall (fun v => hasEmptyString (clean v) = false
                   /\ hasUndefinedInside (clean v) = false
                   /\ hasProtoKey (clean v) = false) items ->
  let kept := filter (fun item => negb (isUndefined item)) (map clean items) in
  existsb hasEmptyString kept = false
  /\ existsb (fun x => isUndefined x || hasUndefinedInside x) kept = false
  /\ existsb hasProtoKey kept = false.
Proof.
  cbv zeta. induction 1 as [|v items (He & Hu & Hp) _ (IHe & IHu & IHp)];
    [now repeat split|].
  cbn [map filter]. destruct (isUndefined (clean v)) eqn:Hv; cbn [negb];
    [now repeat split|].
  cbn [existsb]. now rewrite He, Hu, Hp, Hv, IHe, IHu, IHp.
Qed.

Lemma clean_object (props : list (string * Json number)) :
  Forall (fun kv => hasEmptyString (clean (snd kv)) = false
                    /\ hasUndefinedInside (clean (snd kv)) = false
                    /\ hasProtoKey (clean (snd kv)) = false) props ->
  let kept :=
    flat_map (fun kv => match kv with
                        | (key, value) =>
                            if negb (isUndefined (clean value)) && assigns key
                            then [(key, clean value)] else []
                        end) props in
  existsb (fun kv => hasEmptyString (snd kv)) kept = false
  /\ existsb (fun kv => isUndefined (snd kv) || hasUndefinedInside (snd kv))
             kept = false
  /\ existsb (fun kv => (fst kv =? "__proto__")%string || hasProtoKey (snd kv))
             kept = false.
Proof.
  cbv zeta. induction 1 as [|[k v] props (He & Hu & Hp) _ (IHe & IHu & IHp)];
    [now repeat split|].
  cbn [snd] in He, Hu, Hp. cbn [flat_map].
  destruct (isUndefined (clean v)) eqn:Hv; cbn [negb andb app];
    [now repeat split|].
  change (assigns k) with (negb (k =? "__proto__")%string).
  destruct (k =? "__proto__")%string eqn:Hk; cbn [negb app];
    [now repeat split|].
  cbn [existsb fst snd]. now rewrite He, Hu, Hp, Hv, Hk, IHe, IHu, IHp.
Qed.

Lemma removeEmptyStrings_leaves_clean (v : Json number) :
  hasEmptyString (clean v) = false
  /\ hasUndefinedInside (clean v) = false
  /\ hasProtoKey (clean v) = false.
Proof.
  induction v as [| |b|n|s|items IH|props IH] using Json_induction;
    try (now repeat split).
  - cbn [removeEmptyStrings]. destruct (s =? EmptyString)%string eqn:Hs;
      [now repeat split|].
    cbn [hasEmptyString hasUndefinedInside hasProtoKey]. now rewrite Hs.
  - cbn [removeEmptyStrings hasEmptyString hasUndefinedInside hasProtoKey].
    exact (clean_array items IH).
  - cbn [removeEmptyStrings hasEmptyString hasUndefinedInside hasProtoKey].
    exact (clean_object props IH).
Qed.

(** X17.  What [removeEmptyStrings] returns holds no empty string at any
    depth, no [undefined] among the items of an array or the values of an
    object, and no own property [__proto__]; only the result as a whole may
    be [undefined]. *)
Theorem removeEmptyStrings_clean (v : Json number) :
  hasEmptyString (clean v) = false
  /\ hasUndefinedInside (clean v) = false
  /\ hasProtoKey (clean v) = false.
Proof. exact (removeEmptyStrings_leaves_clean v). Qed.

(** A value that is clean already is left as it is. *)
Lemma removeEmptyStrings_fixed (v : Json number) :
  hasEmptyString v = false -> hasUndefinedInside v = false ->
  hasProtoKey v = false ->
  clean v = v.
Proof.
  induction v as [| |b|n|s|items IH|props IH] using Json_induction;
    try reflexivity.
  - cbn [hasEmptyString removeEmptyStrings]. now intros ->.
  - cbn [hasEmptyString hasUndefinedInside hasProtoKey removeEmptyStrings].
    intros He Hu Hp. f_equal.
    induction IH as [|x items Hx _ IHitems]; [reflexivity|].
    cbn [existsb] in He, Hu, Hp.
    apply orb_false_iff in He as [He1 He2].
    apply orb_false_iff in Hu as [Hu1 Hu2].
    apply orb_false_iff in Hu1 as [Hu0 Hu1].
    apply orb_false_iff in Hp as [Hp1 Hp2].
    cbn [map filter]. rewrite (Hx He1 Hu1 Hp1), Hu0. cbn [negb].
    now rewrite (IHitems He2 Hu2 Hp2).
  - cbn [hasEmptyString hasUndefinedInside hasProtoKey removeEmptyStrings].
    intros He Hu Hp. f_equal.
    induction IH as [|[k x] props Hx _ IHprops]; [reflexivity|].
    cbn [existsb fst snd] in He, Hu, Hp, Hx.
    apply orb_false_iff in He as [He1 He2].
    apply orb_false_iff in Hu as [Hu1 Hu2].
    apply orb_false_iff in Hu1 as [Hu0 Hu1].
    apply orb_false_iff in Hp as [Hp1 Hp2].
    apply orb_false_iff in Hp1 as [Hk Hp1].
    cbn [flat_map]. rewrite (Hx He1 Hu1 Hp1), Hu0.
    change (assigns k) with (negb (k =? "__proto__")%string).
    rewrite Hk. cbn [negb andb app].
    now rewrite (IHprops He2 Hu2 Hp2).
Qed.

(** X18.  [removeEmptyStrings] is idempotent, and it changes nothing in a
    value that holds no empty string, no [undefined] inside and no
    [__proto__] key. *)
Theorem removeEmptyStrings_idempotent :
  (forall v : Json number, clean (clean v) = clean v)
  /\ (forall v : Json number,
        hasEmptyString v = false -> hasUndefinedInside v = false ->
        hasProtoKey v = false ->
        clean v = v).
Proof.
  split; [|exact removeEmptyStrings_fixed].
  intros v. destruct (removeEmptyStrings_leaves_clean v) as (He & Hu & Hp).
  now apply removeEmptyStrings_fixed.
Qed.

End CleanFacts.

Lemma removeEmptyStrings_idempotent_witness :
  MediaData.removeEmptyStrings Z
    (MediaUtils.JObject [("Title", MediaUtils.JString "Movie");
                         ("Tracks", MediaUtils.JArray [MediaUtils.JNumber 1])])
  = MediaUtils.JObject [("Title", MediaUtils.JString "Movie");
                        ("Tracks", MediaUtils.JArray [MediaUtils.JNumber 1])].
Proof.
  apply (proj2 (removeEmptyStrings_idempotent Z)); reflexivity.
Defined.

(** ** Chapters *)

Lemma insertBy_permutation {A} (cmp : A -> A -> Z) (x : A) (l : list A) :
  Permutation (MoreFixtures.insertBy cmp x l) (x :: l).
Proof.
  induction l as [|y l IH]; cbn [MoreFixtures.insertBy]; [reflexivity|].
  destruct (cmp x y <=? 0); [reflexivity|].
  rewrite IH. apply perm_swap.
Qed.

Lemma insertionSort_permutation (A : Type) (cmp : A -> A -> Z) (l : list A) :
  Permutation (MoreFixtures.insertionSort A cmp l) l.
Proof.
  induction l as [|x l IH]; [reflexivity|].
  unfold MoreFixtures.insertionSort. cbn [fold_right].
  rewrite insertBy_permutation. now constructor.
Qed.

Section ChapterFacts.
Import MediaUtils MediaData.
Variable number : Type.
Variable String_ : Json number -> string.
Context `{ArraySort} `{Collator}.
Local Open Scope list_scope.

(** [sort] rearranges: it neither loses nor adds an element. *)
Hypothesis sort_permutes :
  forall (A : Type) (cmp : A -> A -> Z) (l : list A),
    Permutation (sort A cmp l) l.

Lemma isDigit_not_underscore (c : ascii) :
  Js.isDigit c = true -> Ascii.eqb c "_" = false.
Proof. destruct c as [[] [] [] [] [] [] [] []]; try discriminate; reflexivity. Qed.

(** A key that passes [timeRegex] becomes a time of the shape
    [dd:dd:dd.ddd], with the digits of the key. *)
Lemma chapter_time_shape (key : string) :
  timeRegex_test key = true ->
  isTimestamp (replaceUnderscores 0 (Js.drop 1 key)) = true
  /\ digitsOf (replaceUnderscores 0 (Js.drop 1 key)) = digitsOf key.
Proof.
  unfold timeRegex_test.
  do 13 (destruct key as [|? key]; [discriminate|]).
  destruct key; [|discriminate].
  cbn [list_ascii_of_string]. intros Hkey.
  repeat match goal with
         | H : _ && _ = true |- _ => apply andb_true_iff in H as [H ?]
         end.
  repeat match goal with
         | H : Ascii.eqb _ "_" = true |- _ => apply Ascii.eqb_eq in H; subst
         end.
  cbn [Js.drop replaceUnderscores Nat.eqb].
  repeat match goal with
         | H : Js.isDigit ?c = true |- _ =>
             rewrite (isDigit_not_underscore c H); revert H
         end.
  intros. cbn [Ascii.eqb Bool.eqb append].
  unfold isTimestamp. cbn [list_ascii_of_string digitsOf].
  repeat match goal with
         | H : Js.isDigit ?c = true |- _ => rewrite H; clear H
         end.
  split; reflexivity.
Qed.

(** X19.  [parseChapters] returns nothing for a track without [extra]; for
    the others, one chapter for each key of the shape [_dd_dd_dd_ddd] and
    none for any other key; the time of a chapter has the shape
    [dd:dd:dd.ddd], with the digits of its key, and its name is the string
    stored under the key. *)
Theorem parseChapters_chapters (entries : list (string * Json number)) :
  let chapters :=
    parseChapters number String_ (Some {| extra := Some entries |}) in
  parseChapters number String_ None = []
  /\ parseChapters number String_ (Some {| extra := None |}) = []
  /\ List.length chapters
     = List.length (filter (fun entry => timeRegex_test (fst entry)) entries)
  /\ (forall key value,
        In (key, value) entries -> timeRegex_test key = true ->
        In (chapterOf number String_ (key, value)) chapters)
  /\ (forall c,
        In c chapters ->
        isTimestamp (time c) = true
        /\ exists key value,
             In (key, value) entries
             /\ timeRegex_test key = true
             /\ digitsOf (time c) = digitsOf key
             /\ (forall s, value = JString s -> name c = s)).
Proof.
  intros chapters.
  assert (Hperm : Permutation chapters
            (map (chapterOf number String_)
                 (filter (fun entry => timeRegex_test (fst entry)) entries)))
    by apply sort_permutes.
  split; [reflexivity|]. split; [reflexivity|]. split; [|split].
  - rewrite (Permutation_length Hperm). apply length_map.
  - intros key value Hin Hkey.
    apply (Permutation_in _ (Permutation_sym Hperm)).
    apply in_map. apply filter_In. now split.
  - intros c Hc. apply (Permutation_in _ Hperm) in Hc.
    apply in_map_iff in Hc as ([key value] & <- & Hin).
    apply filter_In in Hin as [Hin Hkey]. cbn [fst] in Hkey.
    destruct (chapter_time_shape key Hkey) as [Hshape Hdigits].
    cbn [chapterOf time name]. split; [exact Hshape|].
    exists key, value. repeat split; try assumption.
    now intros s ->.
Qed.

End ChapterFacts.

Lemma parseChapters_chapters_witness :
  In {| MediaData.time := "00:05:30.000"; MediaData.name := "Second" |}
     (@MediaData.parseChapters Z renderZ MoreFixtures.arraySort
        MoreFixtures.collator (Some sampleMenu)).
Proof.
  apply (proj1 (proj2 (proj2 (proj2
           (@parseChapters_chapters Z renderZ MoreFixtures.arraySort
              MoreFixtures.collator insertionSort_permutation
              [("_00_05_30_000", MediaUtils.JString "Second");
               ("Chapters_Pos_Begin", MediaUtils.JNumber 100);
               ("_00_00_00_000", MediaUtils.JString "First")]))))
         "_00_05_30_000" (MediaUtils.JString "Second"));
    [now left | reflexivity].
Defined.

(** ** Accessibility flags *)

Section TrackFacts.
Import MediaNames.
Local Open Scope list_scope.

Lemma existsb_Permutation {A} (p : A -> bool) (l l' : list A) :
  Permutation l l' -> existsb p l = existsb p l'.
Proof.
  induction 1 as [|x l l' _ IH|x y l|l l' l'' _ IH1 _ IH2]; cbn [existsb].
  - reflexivity.
  - now rewrite IH.
  - now destruct (p x), (p y).
  - now rewrite IH1.
Qed.

(** X23.  The accessibility flags depend on which tracks there are, not on
    their order; tracks that are added never clear a flag; and without text
    tracks there is neither SDH nor CC, whatever the name of the file, as
    there is no AD without audio tracks. *)
Theorem accessibility_flags (audio text : list MediaTrackJSON)
  (general : option MediaTrackJSON) :
  let flags := getAccessibilityFeatures audio text general in
  (forall audio' text',
      Permutation audio audio' -> Permutation text text' ->
      getAccessibilityFeatures audio' text' general = flags)
  /\ (forall moreAudio moreText,
        let more := getAccessibilityFeatures (audio ++ moreAudio)
                                             (text ++ moreText) general in
        (hasSDH flags = true -> hasSDH more = true)
        /\ (hasCC flags = true -> hasCC more = true)
        /\ (hasAD flags = true -> hasAD more = true))
  /\ (text = [] -> hasSDH flags = false /\ hasCC flags = false)
  /\ (audio = [] -> hasAD flags = false).
Proof.
  intros flags. split; [|split; [|split]].
  - intros audio' text' Ha Ht. unfold flags, getAccessibilityFeatures.
    cbv zeta.
    rewrite !(existsb_Permutation _ _ _ Ha), !(existsb_Permutation _ _ _ Ht).
    reflexivity.
  - intros moreAudio moreText more. unfold more, flags, getAccessibilityFeatures.
    cbv zeta. cbn [hasSDH hasCC hasAD]. rewrite !existsb_app.
    split; [|split].
    + intros ->. reflexivity.
    + intros Hcc. apply orb_true_iff in Hcc as [Hcc|Hcc].
      * rewrite Hcc. reflexivity.
      * destruct general as [g|]; [|discriminate].
        destruct (negb (isAppleTvFilename _)); [discriminate|].
        rewrite Hcc. cbn [orb]. apply orb_true_r.
    + intros ->. reflexivity.
  - intros ->. unfold flags, getAccessibilityFeatures. cbv zeta.
    cbn [hasSDH hasCC existsb orb]. split; [reflexivity|].
    destruct general as [g|]; [|reflexivity].
    now destruct (negb (isAppleTvFilename _)).
  - intros ->. reflexivity.
Qed.

End TrackFacts.

(** ** The analysis service *)

Section ServiceFacts.
Import MediaInfoServer.
Local Open Scope list_scope.

Lemma firstn_plus {A} (a b : nat) (l : list A) :
  firstn a l ++ firstn b (skipn a l) = firstn (a + b) l.
Proof.
  revert l. induction a as [|a IH]; intros l; [reflexivity|].
  destruct l as [|x l]; cbn [firstn skipn Nat.add app].
  - now rewrite firstn_nil.
  - now rewrite IH.
Qed.

Lemma readChunk_firstn (fileBuffer : list byte) (size offset : Z) :
  0 <= offset -> 0 <= size ->
  readChunk fileBuffer size offset
  = firstn (Z.to_nat size) (skipn (Z.to_nat offset) fileBuffer).
Proof.
  intros Hoff Hsize. unfold readChunk.
  destruct (offset >=? byteLength fileBuffer) eqn:Hpast.
  - apply Z.geb_le in Hpast. unfold byteLength in Hpast.
    rewrite skipn_all2 by lia. now rewrite firstn_nil.
  - assert (Hin : offset < byteLength fileBuffer).
    { destruct (Z.geb_spec offset (byteLength fileBuffer)); [discriminate | lia]. }
    cbv zeta. rewrite subarray_inside by lia.
    rewrite takeZ_firstn, dropZ_skipn.
    unfold byteLength in *.
    destruct (Z.le_ge_cases (offset + size) (Z.of_nat (List.length fileBuffer)))
      as [Hfit|Hover].
    + rewrite Z.min_l by lia. f_equal. lia.
    + rewrite Z.min_r by lia. rewrite !firstn_all2; [reflexivity | |];
        rewrite length_skipn; lia.
Qed.

(** X24.  [readChunk] hands out the bytes of the fetched buffer from
    [offset] on, [size] of them at most, and nothing from beyond its end;
    reading on where a read stopped yields what one longer read would
    have. *)
Theorem readChunk_window (fileBuffer : list byte) (size offset : Z) :
  0 <= offset -> 0 <= size ->
  readChunk fileBuffer size offset
  = firstn (Z.to_nat size) (skipn (Z.to_nat offset) fileBuffer)
  /\ byteLength (readChunk fileBuffer size offset)
     = Z.max 0 (Z.min size (byteLength fileBuffer - offset))
  /\ (forall more,
        0 <= more ->
        readChunk fileBuffer size offset
        ++ readChunk fileBuffer more (offset + size)
        = readChunk fileBuffer (size + more) offset).
Proof.
  intros Hoff Hsize. split; [now apply readChunk_firstn|]. split.
  - rewrite readChunk_firstn by assumption. unfold byteLength.
    rewrite length_firstn, length_skipn. lia.
  - intros more Hmore. rewrite !readChunk_firstn by lia.
    replace (Z.to_nat (offset + size)) with (Z.to_nat size + Z.to_nat offset)%nat
      by lia.
    rewrite <- skipn_skipn.
    replace (Z.to_nat (size + more)) with (Z.to_nat size + Z.to_nat more)%nat
      by lia.
    apply firstn_plus.
Qed.

(** X25.  The formats of one call: never none; always taken from the four
    known ones, each once, in the fixed order JSON, text, XML, HTML, whatever
    the order of the request; all four when the request is empty or names
    [all]; and every format the request names by its key. *)
Theorem formatsToGenerate_spec (requestedFormats : list string) :
  let formats := formatsToGenerate requestedFormats in
  (exists f rest, formats = f :: rest)
  /\ (exists keep, formats = filter keep allFormats)
  /\ (requestedFormats = [] \/ In "all" requestedFormats ->
      formats = allFormats)
  /\ (forall f, In f allFormats -> In (key f) requestedFormats ->
                In f formats).
Proof.
  intros formats.
  assert (Hin : forall x, In x requestedFormats
                          <-> JsLib.arrayIncludes requestedFormats x = true).
  { intros x. unfold JsLib.arrayIncludes. rewrite existsb_exists. split.
    - intros Hx. exists x. split; [exact Hx | apply String.eqb_refl].
    - intros (y & Hy & Heq). apply String.eqb_eq in Heq. now subst. }
  assert (Hshape :
    let all := JsLib.arrayIncludes requestedFormats "all"
               || Nat.eqb (List.length requestedFormats) 0 in
    let keep (f : FormatEntry) :=
      all || JsLib.arrayIncludes requestedFormats (key f)
      || JsLib.arrayIncludes requestedFormats (Js.lower (type f)) in
    formats = filter keep allFormats
    \/ (formats = [ {| type := "object"; key := "json" |} ]
        /\ filter keep allFormats = [])).
  { cbv zeta. unfold formats, formatsToGenerate. cbv zeta.
    destruct (filter _ allFormats) as [|f rest] eqn:Hfilter.
    - right. now split.
    - left. reflexivity. }
  cbv zeta in Hshape. split; [|split; [|split]].
  - destruct Hshape as [Hshape|[Hshape _]]; rewrite Hshape; [|eauto].
    unfold formats, formatsToGenerate in *. cbv zeta in *.
    destruct (filter _ allFormats) as [|f rest] eqn:Hfilter; [|eauto].
    cbn in Hshape. discriminate.
  - destruct Hshape as [Hshape|[Hshape _]]; rewrite Hshape; [eauto|].
    exists (fun f => (key f =? "json")%string). reflexivity.
  - intros Hall.
    assert (Htrue : JsLib.arrayIncludes requestedFormats "all"
                    || Nat.eqb (List.length requestedFormats) 0 = true).
    { destruct Hall as [->|Hall]; [reflexivity|].
      apply Hin in Hall. now rewrite Hall. }
    destruct Hshape as [Hshape|[_ Hshape]]; rewrite Htrue in Hshape.
    + rewrite Hshape. reflexivity.
    + discriminate.
  - intros f Hf Hkey. apply Hin in Hkey.
    destruct Hshape as [Hshape|[_ Hshape]].
    + rewrite Hshape. apply filter_In. split; [exact Hf|].
      rewrite Hkey. now rewrite orb_true_r.
    + assert (Hkept : In f (filter
                (fun f => JsLib.arrayIncludes requestedFormats "all"
                          || Nat.eqb (List.length requestedFormats) 0
                          || JsLib.arrayIncludes requestedFormats (key f)
                          || JsLib.arrayIncludes requestedFormats
                               (Js.lower (type f))) allFormats)).
      { apply filter_In. split; [exact Hf|]. rewrite Hkey.
        now rewrite orb_true_r. }
      rewrite Hshape in Hkept. contradiction.
Qed.

End ServiceFacts.

Lemma readChunk_window_witness :
  MediaInfoServer.readChunk [x01; x02; x03; x04; x05] 4 3
  = firstn (Z.to_nat 4) (skipn (Z.to_nat 3) [x01; x02; x03; x04; x05]).
Proof.
  apply (proj1 (readChunk_window [x01; x02; x03; x04; x05] 4 3
                  ltac:(discriminate) ltac:(discriminate))).
Defined.

(** ** The request handler *)

Section HandlerFacts.
Import AnalyzeRoute.
Variable Results : Type.
Variable siteverify : string -> string -> string -> Result bool.
Variable net : MediaFetch.Network.
Variable analyzeMediaBuffer :
  list byte -> option Js.number -> string -> list string -> Result Results.
Context `{UrlParser} `{UriDecoder} `{Inflater}.
Local Open Scope list_scope.

Local Abbreviation handle :=
  (loader Results siteverify net analyzeMediaBuffer).

(** X27.  Whatever happens inside the handler, the event it logs carries
    the status of the response it returns: INFO with 200 and the results,
    WARNING with 400 or 403, ERROR with 500; and the media URL is fetched
    only after the Turnstile check has passed and the parameters have been
    accepted. *)
Theorem loader_log_matches_response (env : Env) (request : IncomingRequest) :
  let h := handle env request in
  httpStatus (logged h) = status (response h)
  /\ ((severity (logged h) = INFO /\ status (response h) = 200
       /\ exists results, json (response h) = resultsBody results)
      \/ (severity (logged h) = WARNING
          /\ (status (response h) = 400 \/ status (response h) = 403)
          /\ exists error, json (response h) = errorBody error)
      \/ (severity (logged h) = ERROR /\ status (response h) = 500
          /\ exists error, json (response h) = errorBody error))
  /\ (issued h <> [] ->
      turnstile siteverify env request = inr None
      /\ exists initialUrl requestedFormats,
           validationResult request = Success initialUrl requestedFormats).
Proof.
  cbv zeta. unfold loader.
  destruct (turnstile siteverify env request) as [e|[error|]].
  - cbn. split; [reflexivity|]. split; [|now intros []].
    right; right. eauto.
  - cbn. split; [reflexivity|]. split; [|now intros []].
    right; left. eauto.
  - destruct (validationResult request) as [initialUrl requestedFormats|fieldErrors].
    + destruct (MediaFetch.fetchMediaChunk net initialUrl _ _) as [w [e|chunk]].
      * cbn. split; [reflexivity|]. split; [right; right; eauto|]. eauto.
      * destruct (analyzeMediaBuffer _ _ _ _) as [e|results]; cbn;
          (split; [reflexivity|]); (split; [|eauto]).
        -- right; right. eauto.
        -- left. eauto.
    + cbn. split; [reflexivity|]. split; [|now intros []].
      right; left. eauto.
Qed.

(** X28.  A URL that the guard refuses is answered with status 500 and the
    message of the guard, logged as an ERROR, and no request is issued for
    it. *)
Theorem loader_refused_url (env : Env) (request : IncomingRequest)
  (initialUrl : string) (requestedFormats : list string) (e : Thrown) :
  turnstile siteverify env request = inr None ->
  validationResult request = Success initialUrl requestedFormats ->
  ServerUtils.validateUrl
    (ServerUtils.url (ServerUtils.resolveGoogleDriveUrl initialUrl)) = inl e ->
  handle env request
  = {| response := {| status := 500; json := errorBody (message e) |};
       logged := {| severity := ERROR; httpStatus := 500 |};
       issued := [] |}.
Proof.
  intros Hgate Hvalid Hrefused. unfold loader. rewrite Hgate, Hvalid.
  destruct (fetchMediaChunk_refused net initialUrl
              MediaFetch.defaultChunkSize e Hrefused) as [Hthrown Hnone].
  destruct (MediaFetch.fetchMediaChunk net initialUrl _ _) as [w fetched].
  cbn [fst snd] in Hthrown, Hnone. subst fetched. unfold caught.
  now rewrite Hnone.
Qed.

End HandlerFacts.

(** ** Valid file names *)

Section ValidNameFacts.
Import MediaNames.
Local Open Scope list_scope.

Lemma suspiciousCount_bounds (str : list Z) :
  0 <= suspiciousCount str <= Z.of_nat (List.length str).
Proof.
  unfold suspiciousCount. pose proof (filter_length_le suspicious str). lia.
Qed.

(** X20.  A string shorter than [2^52] code units is a valid file name
    exactly when it is not empty and its control characters, DEL, C1
    controls and replacement characters make up one twentieth of it at most;
    [null], [undefined] and the empty string are not valid. *)
Theorem isValidFilename_threshold (str : list Z) :
  Z.of_nat (List.length str) < 2 ^ 52 ->
  (isValidFilename (Some str) = true
   <-> str <> [] /\ 20 * suspiciousCount str <= Z.of_nat (List.length str))
  /\ isValidFilename None = false
  /\ isValidFilename (Some []) = false.
Proof.
  intros Hlen. split; [|split; reflexivity].
  pose proof (suspiciousCount_bounds str) as Hcount.
  unfold isValidFilename, quotientAtMostLiteral_0_05.
  destruct (Z.of_nat (List.length str) =? 0) eqn:Hempty.
  - apply Z.eqb_eq in Hempty. split; [discriminate|].
    intros [Hne _]. destruct str; [contradiction | cbn in Hempty; lia].
  - apply Z.eqb_neq in Hempty. rewrite Z.leb_le.
    change (2 ^ 58) with 288230376151711744.
    change (2 ^ 52) with 4503599627370496 in Hlen.
    split.
    + intros Hq. split; [intros ->; now apply Hempty | lia].
    + intros [_ Hq]. lia.
Qed.

End ValidNameFacts.

Lemma isValidFilename_threshold_witness :
  MediaNames.isValidFilename (Some [77; 111; 118; 105; 101; 46; 109; 107; 118]) = true
  <-> [77; 111; 118; 105; 101; 46; 109; 107; 118] <> (@nil Z)
      /\ 20 * MediaNames.suspiciousCount [77; 111; 118; 105; 101; 46; 109; 107; 118]
         <= Z.of_nat (List.length [77; 111; 118; 105; 101; 46; 109; 107; 118]).
Proof.
  apply (proj1 (isValidFilename_threshold
                  [77; 111; 118; 105; 101; 46; 109; 107; 118] eq_refl)).
Defined.

(** ** The text view *)

Section TextFacts.
Import MediaInfoServer.
Local Open Scope list_scope.

Lemma join_middle (sep : string) (a b : list string) (x : string) :
  exists pre post, JsLib.join sep (a ++ x :: b) = (pre ++ x ++ post)%string.
Proof.
  induction a as [|y a (pre & post & IH)].
  - destruct b as [|z b].
    + exists EmptyString, EmptyString. cbn. now rewrite append_nil_r.
    + exists EmptyString, (sep ++ JsLib.join sep (z :: b))%string. reflexivity.
  - exists (y ++ sep ++ pre)%string, post.
    change ((y :: a) ++ x :: b) with (y :: (a ++ x :: b)).
    destruct (a ++ x :: b) as [|z rest] eqn:E.
    + now destruct a.
    + change (JsLib.join sep (y :: z :: rest))
        with (y ++ sep ++ JsLib.join sep (z :: rest))%string.
      rewrite IH, !append_assoc. reflexivity.
Qed.

Lemma findIndexFrom_bound {A} (p : A -> bool) (a : list A) :
  forall i g, JsLib.findIndexFrom p i a = Some g ->
              (i <= g < i + List.length a)%nat.
Proof.
  induction a as [|x a IH]; intros i g; cbn [JsLib.findIndexFrom List.length];
    [discriminate|].
  destruct (p x).
  - intros [= <-]. lia.
  - intros Hg. apply IH in Hg. lia.
Qed.

Lemma insertIndexFrom_bound (rest : list string) :
  forall i d,
    insertIndexFrom i rest d = d
    \/ (i < insertIndexFrom i rest d <= i + List.length rest)%nat.
Proof.
  induction rest as [|line rest IH]; intros i d;
    cbn [insertIndexFrom List.length]; [now left|].
  destruct (Js.startsWith _ "Unique ID"); [right; lia|].
  destruct (_ =? _)%string; [now left|].
  destruct (IH (S i) d) as [->|Hin]; [now left | right; lia].
Qed.

(** X26.  The text view is left as it is when it names the file already or
    has no [General] line; otherwise one line is added to it, the
    [Complete name] line, somewhere after the [General] line, and nothing
    else is changed.  Doing it twice is doing it once. *)
Theorem withCompleteName_spec (resultStr filename : string) :
  let out := withCompleteName resultStr filename in
  let lines := Js.split "010" resultStr in
  let general :=
    JsLib.findIndex (fun l => Js.startsWith (JsLib.trim l) "General") lines in
  (Js.includes resultStr "Complete name" = true -> out = resultStr)
  /\ (general = None -> out = resultStr)
  /\ (forall g,
        Js.includes resultStr "Complete name" = false -> general = Some g ->
        exists i,
          (g < i <= List.length lines)%nat
          /\ out = JsLib.join (String "010" EmptyString)
                     (firstn i lines ++ [completeNameLine filename]
                      ++ skipn i lines)
          /\ Js.includes out "Complete name" = true)
  /\ withCompleteName out filename = out.
Proof.
  intros out lines general.
  assert (Hkeep : Js.includes resultStr "Complete name" = true ->
                  out = resultStr).
  { intros Hinc. unfold out, withCompleteName. now rewrite Hinc. }
  assert (Hnone : general = None -> out = resultStr).
  { intros Hg. unfold out, withCompleteName. fold lines. fold general.
    rewrite Hg. now destruct (negb _). }
  assert (Hadd : forall g,
            Js.includes resultStr "Complete name" = false -> general = Some g ->
            exists i,
              (g < i <= List.length lines)%nat
              /\ out = JsLib.join (String "010" EmptyString)
                         (firstn i lines ++ [completeNameLine filename]
                          ++ skipn i lines)
              /\ Js.includes out "Complete name" = true).
  { intros g Hinc Hg.
    assert (Hout : out = JsLib.join (String "010" EmptyString)
                     (JsLib.spliceIn lines
                        (insertIndexFrom (g + 1) (skipn (g + 1) lines) (g + 1))
                        (completeNameLine filename))).
    { unfold out, withCompleteName. fold lines. fold general.
      now rewrite Hinc, Hg. }
    set (i := insertIndexFrom (g + 1) (skipn (g + 1) lines) (g + 1)) in *.
    exists i. split; [|split; [exact Hout|]].
    - apply findIndexFrom_bound in Hg.
      pose proof (insertIndexFrom_bound (skipn (g + 1) lines) (g + 1) (g + 1))
        as Hi.
      fold i in Hi. rewrite length_skipn in Hi. lia.
    - rewrite Hout. unfold JsLib.spliceIn. cbn [app].
      destruct (join_middle (String "010" EmptyString) (firstn i lines)
                  (skipn i lines) (completeNameLine filename))
        as (pre & post & ->).
      apply includes_true_iff. unfold completeNameLine.
      exists pre, ("                            : " ++ filename ++ post)%string.
      now rewrite !append_assoc. }
  split; [exact Hkeep|]. split; [exact Hnone|]. split; [exact Hadd|].
  destruct (Js.includes resultStr "Complete name") eqn:Hinc.
  - rewrite (Hkeep eq_refl). unfold withCompleteName. now rewrite Hinc.
  - destruct general as [g|] eqn:Hg.
    + destruct (Hadd g eq_refl eq_refl) as (i & _ & _ & Hincluded).
      unfold withCompleteName at 1. now rewrite Hincluded.
    + rewrite (Hnone eq_refl). unfold withCompleteName. fold lines.
      fold general. rewrite Hg. now destruct (negb _).
Qed.

End TextFacts.

Lemma loader_refused_url_witness :
  @AnalyzeRoute.loader unit (fun _ _ _ => inr true) greedyServer
    (fun _ _ _ _ => inr tt)
    Fixtures.urlParser Fixtures.uriDecoder Fixtures.inflater
    openEnv localRequest
  = {| AnalyzeRoute.response :=
         {| AnalyzeRoute.status := 500;
            AnalyzeRoute.json :=
              AnalyzeRoute.errorBody
                "Invalid URL: Access to local resources is denied." |};
       AnalyzeRoute.logged :=
         {| AnalyzeRoute.severity := AnalyzeRoute.ERROR;
            AnalyzeRoute.httpStatus := 500 |};
       AnalyzeRoute.issued := [] |}.
Proof.
  exact (@loader_refused_url unit (fun _ _ _ => inr true) greedyServer
           (fun _ _ _ _ => inr tt)
           Fixtures.urlParser Fixtures.uriDecoder Fixtures.inflater
           openEnv localRequest "http://localhost:3000/a.mkv" ["json"]
           (Error "Invalid URL: Access to local resources is denied.")
           eq_refl eq_refl eq_refl).
Defined.

Lemma content_range_total_has_priority_witness :
  MediaFetch.determineFileSize rangedProbe = Some (Js.Num 12345).
Proof.
  refine (proj1 (proj1 (content_range_total_has_priority rangedProbe)
                   "bytes 0-0" "12345" eq_refl _ eq_refl) _ _);
    discriminate.
Defined.

(** ** Normalisation of a value without wrappers *)

Section NormalizeFixed.
Import MediaUtils.
Variable number : Type.
Local Open Scope list_scope.

(** X29.  [normalizeMediaInfo] changes nothing in a value that holds no
    object with a defined ['#value'] (and no [__proto__] key, which an
    assignment would not copy): the copy it builds is equal to the
    original, key by key and item by item. *)
Theorem normalizeMediaInfo_fixed_point (v : Json number) :
  hasWrapper v = false -> hasProtoKey v = false ->
  normalizeMediaInfo v = v.
Proof.
  induction v as [| |b|n|s|items IH|props IH] using Json_induction;
    try reflexivity.
  - cbn [hasWrapper hasProtoKey normalizeMediaInfo]. intros Hw Hp. f_equal.
    induction IH as [|x items Hx _ IHitems]; [reflexivity|].
    cbn [existsb] in Hw, Hp.
    apply orb_false_iff in Hw as [Hw1 Hw2].
    apply orb_false_iff in Hp as [Hp1 Hp2].
    cbn [map]. now rewrite (Hx Hw1 Hp1), (IHitems Hw2 Hp2).
  - cbn [hasWrapper hasProtoKey normalizeMediaInfo]. intros Hw Hp.
    apply orb_false_iff in Hw as [Hwrapped Hw].
    destruct (wrappedValue props); [discriminate|]. f_equal.
    clear Hwrapped.
    induction IH as [|[k x] props Hx _ IHprops]; [reflexivity|].
    cbn [existsb fst snd] in Hw, Hp, Hx.
    apply orb_false_iff in Hw as [Hw1 Hw2].
    apply orb_false_iff in Hp as [Hp1 Hp2].
    apply orb_false_iff in Hp1 as [Hk Hp1].
    cbn [flat_map]. unfold createsProperty at 1. rewrite Hk. cbn [negb app].
    now rewrite (Hx Hw1 Hp1), (IHprops Hw2 Hp2).
Qed.

End NormalizeFixed.

Lemma normalizeMediaInfo_fixed_point_witness :
  MediaUtils.normalizeMediaInfo
    (MediaUtils.JObject
       [("@type", MediaUtils.JString "General");
        ("Duration", MediaUtils.JNumber 5400);
        ("extra", MediaUtils.JArray [MediaUtils.JNull; MediaUtils.JBoolean true])])
  = MediaUtils.JObject
      [("@type", MediaUtils.JString "General");
       ("Duration", MediaUtils.JNumber 5400);
       ("extra", MediaUtils.JArray [MediaUtils.JNull; MediaUtils.JBoolean true])].
Proof.
  apply (normalizeMediaInfo_fixed_point Z); reflexivity.
Defined.
